(** * MyTrainingOS: FIT decoder, TSS calculator and PMC engine

    A shallow embedding of three pieces of the application:

    - [FIT]: the binary message-stream decoder of [js/lib/fit-parser.js]
      (class [FITParser]);
    - [TSS]: the stress-score calculator (class [TSSCalculator]);
    - [PMC]: the daily ledger and the exponential load model
      (class [PMCEngine]).

    Conventions.  A JavaScript exception is a value of type [exn] carried
    by the left injection of a sum; the mutable fields of a class instance
    are threaded explicitly.  Finite JavaScript numbers are exact numbers
    (integers in [Z], rationals in [Q], reals in [R]): the rounding error and
    the overflow of IEEE doubles are not part of the model, [NaN] is
    (where the code can produce it). *)

From Stdlib Require Import ZArith QArith Qround Reals Lra Lia Ascii String.
From Stdlib Require Import Strings.Byte.
From Stdlib Require Import Floats.
From Stdlib Require Lqa.
From stdpp Require Import base option list gmap pretty sorting.

(** * The FIT decoder *)

Module FIT.

Local Open Scope Z_scope.

(** ** Exceptions *)

(** [InvalidSignature] is [new Error('Invalid FIT file signature')];
    [RangeError] is what a [DataView] getter throws outside the buffer. *)
Inductive exn : Type :=
  | InvalidSignature
  | RangeError.

Definition res (A : Type) : Type := exn + A.

Definition ret {A} (a : A) : res A := inr a.
Definition throw {A} (e : exn) : res A := inl e.
Definition bind {A B} (m : res A) (k : A -> res B) : res B :=
  match m with
  | inl e => inl e
  | inr a => k a
  end.

Notation "'let*' x ':=' m 'in' k" := (bind m (fun x => k))
  (at level 10, x name, m at level 100, k at level 200, only parsing).

(** ** DataView *)

(** The buffer is the list of its bytes; offsets are non-negative integers
    in every call the parser makes, a negative one raises like an
    offset past the end. *)
Abbreviation DataView := (list byte).

Definition byteLength (dv : DataView) : Z := Z.of_nat (length dv).

Definition getUint8 (dv : DataView) (offset : Z) : res Z :=
  if offset <? 0 then throw RangeError
  else match dv !! Z.to_nat offset with
       | Some b => ret (Z.of_N (Byte.to_N b))
       | None => throw RangeError
       end.

(** Multi-byte getters check the whole range before reading: they raise
    when [offset + width > byteLength]. *)
Definition getUint16 (dv : DataView) (offset : Z) (littleEndian : bool) : res Z :=
  let* b0 := getUint8 dv offset in
  let* b1 := getUint8 dv (offset + 1) in
  ret (if littleEndian then Z.lor b0 (Z.shiftl b1 8)
       else Z.lor (Z.shiftl b0 8) b1).

Definition getUint32 (dv : DataView) (offset : Z) (littleEndian : bool) : res Z :=
  let* b0 := getUint8 dv offset in
  let* b1 := getUint8 dv (offset + 1) in
  let* b2 := getUint8 dv (offset + 2) in
  let* b3 := getUint8 dv (offset + 3) in
  ret (if littleEndian
       then Z.lor (Z.lor b0 (Z.shiftl b1 8)) (Z.lor (Z.shiftl b2 16) (Z.shiftl b3 24))
       else Z.lor (Z.lor (Z.shiftl b0 24) (Z.shiftl b1 16)) (Z.lor (Z.shiftl b2 8) b3)).

Definition getInt32 (dv : DataView) (offset : Z) (littleEndian : bool) : res Z :=
  let* u := getUint32 dv offset littleEndian in
  ret (if 2147483648 <=? u then u - 4294967296 else u).

(** ** Schemas and field values *)

(** One entry of a definition message: [{num, size, type}]. *)
Record field : Type := Field { num : Z; size : Z; type : Z }.

(** [this.localMessageTypes[slot] = {globalMsgNum, fields, isLittleEndian}]. *)
Record msgDef : Type := MsgDef {
  globalMsgNum : Z;
  fields : list field;
  isLittleEndian : bool
}.

(** The registry [this.localMessageTypes], an object keyed by local slot. *)
Abbreviation registry := (gmap Z msgDef).

(** What [readFieldValue] returns: [null], a number or an array of bytes. *)
Inductive value : Type :=
  | VNull
  | VNum (n : Z)
  | VBytes (bs : list Z).

(** The [default] branch of [readFieldValue]:
    [for (i = 0; i < field.size; i++) bytes.push(getUint8(offset + i))]. *)
Fixpoint readBytes (dv : DataView) (offset : Z) (n : nat) : res (list Z) :=
  match n with
  | O => ret []
  | S n' =>
      let* b := getUint8 dv offset in
      let* bs := readBytes dv (offset + 1) n' in
      ret (b :: bs)
  end.

(** [try { ... } catch (e) { return null; }] *)
Definition catchNull (m : res value) : value :=
  match m with
  | inl _ => VNull
  | inr v => v
  end.

Definition readFieldValue (dv : DataView) (offset : Z) (f : field)
    (littleEndian : bool) : value :=
  catchNull
    (match size f with
     | 1 => let* n := getUint8 dv offset in ret (VNum n)
     | 2 => let* n := getUint16 dv offset littleEndian in ret (VNum n)
     | 4 =>
         if (type f =? 0x85) || (type f =? 0x84)
         then let* n := getInt32 dv offset littleEndian in ret (VNum n)
         else let* n := getUint32 dv offset littleEndian in ret (VNum n)
     | _ => let* bs := readBytes dv offset (Z.to_nat (size f)) in ret (VBytes bs)
     end).

(** ** The activity under construction *)

(** [values] of a data message: an object keyed by field number. *)
Abbreviation values := (gmap Z value).

(** The builders [processSession], [processLap] and [processRecord] append
    one record derived from [values] to the matching array of the activity;
    the derivation (unit scaling in floating point, [||] defaults) is total
    and is not the subject of any statement below, so the activity keeps the
    decoded field maps themselves, in arrival order. *)
Record activity : Type := Activity {
  sessions : list values;
  laps : list values;
  records : list values
}.

Definition emptyActivity : activity := Activity [] [] [].

Definition processMessage (globalMsgNum : Z) (vs : values) (act : activity)
    : activity :=
  match globalMsgNum with
  | 18 => Activity (sessions act ++ [vs]) (laps act) (records act)
  | 19 => Activity (sessions act) (laps act ++ [vs]) (records act)
  | 20 => Activity (sessions act) (laps act) (records act ++ [vs])
  | _ => act
  end.

(** ** One message *)

(** The field-definition loop of a definition message. *)
Fixpoint readFieldDefs (dv : DataView) (offset : Z) (numFields : nat)
    : res (list field * Z) :=
  match numFields with
  | O => ret ([], offset)
  | S n =>
      let* fnum := getUint8 dv offset in
      let* fsize := getUint8 dv (offset + 1) in
      let* ftype := getUint8 dv (offset + 2) in
      let* rest := readFieldDefs dv (offset + 3) n in
      ret (Field fnum fsize ftype :: rest.1, rest.2)
  end.

(** The field loop of a data message:
    [values[field.num] = readFieldValue(...); offset += field.size]. *)
Fixpoint readFields (dv : DataView) (offset : Z) (fs : list field)
    (littleEndian : bool) (vs : values) : values * Z :=
  match fs with
  | [] => (vs, offset)
  | f :: fs' =>
      readFields dv (offset + size f) fs' littleEndian
        (<[num f := readFieldValue dv offset f littleEndian]> vs)
  end.

Definition parseMessage (dv : DataView) (offset : Z) (reg : registry)
    (act : activity) : res (Z * registry * activity) :=
  let* recordHeader := getUint8 dv offset in
  let offset := offset + 1 in
  let isDefinition := negb (Z.land recordHeader 0x40 =? 0) in
  let localMessageType := Z.land recordHeader 0x0F in
  let hasDevData := negb (Z.land recordHeader 0x20 =? 0) in
  if isDefinition then
    let offset := offset + 1 in
    let* architecture := getUint8 dv offset in
    let offset := offset + 1 in
    let littleEndian := architecture =? 0 in
    let* globalMsgNum := getUint16 dv offset littleEndian in
    let offset := offset + 2 in
    let* numFields := getUint8 dv offset in
    let offset := offset + 1 in
    let* defs := readFieldDefs dv offset (Z.to_nat numFields) in
    let fs := defs.1 in
    let offset := defs.2 in
    let* offset :=
      (if hasDevData then
         let* numDevFields := getUint8 dv offset in
         ret (offset + 1 + 3 * numDevFields)
       else ret offset) in
    ret (offset, <[localMessageType := MsgDef globalMsgNum fs littleEndian]> reg, act)
  else
    match reg !! localMessageType with
    | Some msgDef =>
        let '(vs, offset) :=
          readFields dv offset (fields msgDef) (isLittleEndian msgDef) ∅ in
        ret (offset, reg, processMessage (globalMsgNum msgDef) vs act)
    | None => ret (offset, reg, act)
    end.

(** ** The decode loop *)

(** [while (offset < endOffset) { offset = parseMessage(...).offset }].
    The registry is the parser instance's field: what the messages before
    a raising one registered stays registered, so the loop returns the
    registry next to the outcome.  [None] means the fuel ran out. *)
Fixpoint parseLoop (fuel : nat) (dv : DataView) (offset endOffset : Z)
    (reg : registry) (act : activity) : option (registry * res activity) :=
  if offset <? endOffset then
    match fuel with
    | O => None
    | S fuel' =>
        match parseMessage dv offset reg act with
        | inl e => Some (reg, inl e)
        | inr (offset', reg', act') =>
            parseLoop fuel' dv offset' endOffset reg' act'
        end
    end
  else Some (reg, inr act).

(** The signature as the four character codes of bytes 8..11. *)
Definition signature (dv : DataView) : res (list Z) :=
  let* c0 := getUint8 dv 8 in
  let* c1 := getUint8 dv 9 in
  let* c2 := getUint8 dv 10 in
  let* c3 := getUint8 dv 11 in
  ret [c0; c1; c2; c3].

(** ['.FIT'] *)
Definition FIT_SIGNATURE : list Z := [46; 70; 73; 84].

(** [parse(buffer)] on a parser whose registry is [reg].  The activity is
    fresh in every call; the registry is not touched before the loop.
    [calculateDerivedMetrics] only fills in derived averages and cannot
    raise; it is left out with the builders' arithmetic. *)
Definition parse (reg : registry) (dv : DataView)
    : option (registry * res activity) :=
  match
    (let* headerSize := getUint8 dv 0 in
     let* protocolVersion := getUint8 dv 1 in
     let* dataSize := getUint32 dv 4 true in
     let* sig := signature dv in
     if bool_decide (sig = FIT_SIGNATURE)
     then ret (headerSize, headerSize + dataSize)
     else throw InvalidSignature)
  with
  | inl e => Some (reg, inl e)
  | inr (offset, endOffset) =>
      parseLoop (S (length dv)) dv offset endOffset reg emptyActivity
  end.

(** [new FITParser()]: [this.localMessageTypes = {}]. *)
Definition newRegistry : registry := ∅.

(** Every field width in the registry was read by [getUint8], so none is
    negative.  The empty registry has the property and [parseMessage] keeps
    it; the statements below assume it of the registry they start from. *)
Definition wf_registry (reg : registry) : Prop :=
  map_Forall (fun _ d => Forall (fun f => 0 <= size f) (fields d)) reg.

(** ** Sample buffers *)



(** A header and one definition message: slot 0, little-endian, global
    message 20 (record), one field (number 3, one byte, base type 2). *)
Definition definitionFile : DataView :=
  [x0c; x10; x00; x00; x09; x00; x00; x00; x2e; x46; x49; x54;
   x40; x00; x00; x14; x00; x01; x03; x01; x02].

(** A header announcing ten bytes, followed by seven: a definition message
    for slot 0 with the developer bit, no field, and a count of one
    developer field whose three bytes are missing. *)
Definition shortDeveloperFile : DataView :=
  [x0c; x10; x00; x00; x0a; x00; x00; x00; x2e; x46; x49; x54;
   x60; x00; x00; x14; x00; x00; x01].

(** The registry [definitionFile] leaves behind. *)
Definition recordSchema : registry :=
  {[ 0 := MsgDef 20 [Field 3 1 2] true ]}.

(** A header and two bytes: a data-message header for slot 0 and the
    byte 150, with no definition message before them. *)
Definition dataOnlyFile : DataView :=
  [x0c; x10; x00; x00; x02; x00; x00; x00; x2e; x46; x49; x54;
   x00; x96].

End FIT.

(** * The TSS calculator *)

Module TSS.

Local Open Scope Q_scope.

(** ** JavaScript values *)

(** What a numeric property of an activity or of a settings object holds,
    and what arithmetic on it yields: a missing property reads as
    [undefined], and the decoder stores the bytes of a field whose width
    is not 1, 2 or 4 as an array.  Numbers are exact rationals: the
    arithmetic below has neither the rounding nor the infinities of
    doubles, and the statements about it are kept to inputs on which the
    exact and the rounded computation give the same result. *)
Inductive jsval : Type :=
  | Undefined
  | Null
  | NaN
  | Num (q : Q)
  | Arr (bytes : list Z).

(** [ToBoolean]: [undefined], [null], [NaN] and [0] are falsy; an array is
    an object, and truthy. *)
Definition truthy (v : jsval) : bool :=
  match v with
  | Num q => negb (Qeq_bool q 0)
  | Arr _ => true
  | _ => false
  end.

(** [ToNumber], [None] standing for [NaN].  An array converts through its
    text, the elements joined by commas: the empty text is 0, the text of
    one byte is that byte, and a text with a comma is not a number. *)
Definition toNumber (v : jsval) : option Q :=
  match v with
  | Num q => Some q
  | Null => Some 0
  | Undefined | NaN => None
  | Arr [] => Some 0
  | Arr [b] => Some (inject_Z b)
  | Arr _ => None
  end.

Definition arith (f : Q -> Q -> Q) (a b : jsval) : jsval :=
  match toNumber a, toNumber b with
  | Some x, Some y => Num (f x y)
  | _, _ => NaN
  end.

Definition jmul : jsval -> jsval -> jsval := arith Qmult.
(** A zero divisor would give an infinity or [NaN], which [Qdiv] does not:
    the statements below keep to divisors that are non-zero numbers.  The
    thresholds are truthy by construction and the branches test their
    operands first, so a zero divisor needs an array in place of a
    number. *)
Definition jdiv : jsval -> jsval -> jsval := arith Qdiv.

(** [a || b] *)
Definition jor (a b : jsval) : jsval := if truthy a then a else b.

(** [a < b]: false when either side is [NaN]. *)
Definition jlt (a b : jsval) : bool :=
  match toNumber a, toNumber b with
  | Some x, Some y => negb (Qle_bool y x)
  | _, _ => false
  end.

(** [Math.round]: the nearest integer, halves towards plus infinity. *)
Definition Math_round (v : jsval) : jsval :=
  match toNumber v with
  | Some q => Num (inject_Z (Qfloor (q + (1 # 2))))
  | None => NaN
  end.

(** [Math.floor] *)
Definition Math_floor (v : jsval) : jsval :=
  match toNumber v with
  | Some q => Num (inject_Z (Qfloor q))
  | None => NaN
  end.

(** [Math.pow(x, n)] for the literal exponents 2 and 3 of the calculator. *)
Definition Math_pow (v : jsval) (n : nat) : jsval :=
  match toNumber v with
  | Some q => Num (q ^ Z.of_nat n)
  | None => NaN
  end.

(** [a % 60]: the remainder has the sign of the dividend. *)
Definition jmod60 (v : jsval) : jsval :=
  match toNumber v with
  | Some q =>
      let t := if Qle_bool 0 q then Qfloor (q / 60) else Qceiling (q / 60) in
      Num (q - 60 * inject_Z t)
  | None => NaN
  end.

(** ** Results *)

Inductive method : Type :=
  | power
  | pace
  | heart_rate
  | duration_estimate.

(** The object a branch returns; a property a branch does not set is
    [None].  ([type], [IF] and [method] are set by every branch.) *)
Record TSSResult : Type := {
  tss : jsval;
  type : string;
  IF : jsval;
  np : option jsval;
  paceText : option string;
  paceSeconds : option jsval;
  avgHR : option jsval;
  by_method : method
}.

(** ** The calculator *)

(** The input of [calculate]; [sport] is compared with string literals. *)
Record activity : Type := {
  sport : string;
  totalTime : jsval;
  totalDistance : jsval;
  normalizedPower : jsval;
  avgPower : jsval;
  avgHeartRate : jsval
}.

(** The settings object given to the constructor and to [updateSettings]. *)
Record settings : Type := {
  s_ftp : jsval;
  s_runThreshold : jsval;
  s_swimThreshold : jsval;
  s_lthr : jsval
}.

(** The instance: [this.ftp], [this.runThreshold], [this.swimThreshold],
    [this.lthr]. *)
Record calculator : Type := {
  ftp : jsval;
  runThreshold : jsval;
  swimThreshold : jsval;
  lthr : jsval
}.

(** [constructor(settings = {})] *)
Definition newCalculator (s : settings) : calculator := {|
  ftp := jor (s_ftp s) (Num 300);
  runThreshold := jor (s_runThreshold s) (Num 256);
  swimThreshold := jor (s_swimThreshold s) (Num 100);
  lthr := jor (s_lthr s) (Num 155)
|}.

Definition updateSettings (c : calculator) (s : settings) : calculator := {|
  ftp := if truthy (s_ftp s) then s_ftp s else ftp c;
  runThreshold := if truthy (s_runThreshold s) then s_runThreshold s else runThreshold c;
  swimThreshold := if truthy (s_swimThreshold s) then s_swimThreshold s else swimThreshold c;
  lthr := if truthy (s_lthr s) then s_lthr s else lthr c
|}.

(** Decimal text of an integer, as in a template string. *)
Definition showZ (z : Z) : string := pretty z.

Definition show (v : jsval) : string :=
  match v with
  | Num q => showZ (Qfloor q)
  | Null => "null"
  | Undefined => "undefined"
  | NaN => "NaN"
  | Arr bs => String.concat "," (showZ <$> bs)
  end.

(** [s.padStart(2, '0')] *)
Definition padStart2 (s : string) : string :=
  match s with
  | EmptyString => "00"
  | String c EmptyString => String "0" s
  | _ => s
  end.

(** [formatPace] and [formatSwimPace] have the same body; both arguments of
    the template are integers. *)
Definition formatPace (seconds : jsval) : string :=
  let minutes := Math_floor (jdiv seconds (Num 60)) in
  let secs := Math_round (jmod60 seconds) in
  (show minutes ++ ":" ++ padStart2 (show secs))%string.

Definition calculateHRBasedTSS (c : calculator) (a : activity) : TSSResult :=
  let duration := totalTime a in
  let avgHR := avgHeartRate a in
  if negb (truthy duration) || negb (truthy avgHR) then
    {| tss := Math_round (jdiv duration (Num 60));
       type := "TSS";
       IF := Num (7 # 10);
       np := None; paceText := None; paceSeconds := None; avgHR := None;
       by_method := duration_estimate |}
  else
    let IF := jdiv avgHR (lthr c) in
    let durationHours := jdiv duration (Num 3600) in
    let hrTss := jmul (jmul durationHours (Math_pow IF 2)) (Num 100) in
    {| tss := Math_round hrTss;
       type := "hrTSS";
       IF := jdiv (Math_round (jmul IF (Num 100))) (Num 100);
       np := None; paceText := None; paceSeconds := None; avgHR := Some avgHR;
       by_method := heart_rate |}.

Definition calculateCyclingTSS (c : calculator) (a : activity) : TSSResult :=
  let duration := totalTime a in
  let np := jor (normalizedPower a) (avgPower a) in
  if negb (truthy np) || negb (truthy duration) then calculateHRBasedTSS c a
  else
    let IF := jdiv np (ftp c) in
    let tss :=
      jmul (jdiv (jmul (jmul duration np) IF) (jmul (ftp c) (Num 3600))) (Num 100) in
    {| tss := Math_round tss;
       type := "TSS";
       IF := jdiv (Math_round (jmul IF (Num 100))) (Num 100);
       np := Some (Math_round np);
       paceText := None; paceSeconds := None; avgHR := None;
       by_method := power |}.

Definition calculateRunningTSS (c : calculator) (a : activity) : TSSResult :=
  let duration := totalTime a in
  let distance := totalDistance a in
  if negb (truthy duration) || negb (truthy distance) || jlt distance (Num 100)
  then calculateHRBasedTSS c a
  else
    let paceSecsPerKm := jdiv duration (jdiv distance (Num 1000)) in
    let IF := jdiv (runThreshold c) paceSecsPerKm in
    let durationHours := jdiv duration (Num 3600) in
    let rtss := jmul (jmul durationHours (Math_pow IF 2)) (Num 100) in
    {| tss := Math_round rtss;
       type := "rTSS";
       IF := jdiv (Math_round (jmul IF (Num 100))) (Num 100);
       np := None;
       paceText := Some (formatPace paceSecsPerKm);
       paceSeconds := Some paceSecsPerKm;
       avgHR := None;
       by_method := pace |}.

Definition calculateSwimmingTSS (c : calculator) (a : activity) : TSSResult :=
  let duration := totalTime a in
  let distance := totalDistance a in
  if negb (truthy duration) || negb (truthy distance) || jlt distance (Num 25)
  then calculateHRBasedTSS c a
  else
    let pacePer100m := jdiv duration (jdiv distance (Num 100)) in
    let IF := jdiv (swimThreshold c) pacePer100m in
    let durationHours := jdiv duration (Num 3600) in
    let stss := jmul (jmul (Math_pow IF 3) durationHours) (Num 100) in
    {| tss := Math_round stss;
       type := "sTSS";
       IF := jdiv (Math_round (jmul IF (Num 100))) (Num 100);
       np := None;
       paceText := Some (formatPace pacePer100m);
       paceSeconds := Some pacePer100m;
       avgHR := None;
       by_method := pace |}.

Definition calculate (c : calculator) (a : activity) : TSSResult :=
  if String.eqb (sport a) "cycling" then calculateCyclingTSS c a
  else if String.eqb (sport a) "running" then calculateRunningTSS c a
  else if String.eqb (sport a) "swimming" then calculateSwimmingTSS c a
  else calculateHRBasedTSS c a.

(** A result field is an integer when it is a number without fractional
    part; [NaN] is not. *)
Definition is_integer (v : jsval) : Prop :=
  exists z : Z, v = Num (inject_Z z).

(** [totalTime] converts to a number: it is a number or [null]. *)
Definition hasDuration (a : activity) : Prop :=
  exists q, toNumber (totalTime a) = Some q.

(** The thresholds of a calculator are truthy: the constructor and
    [updateSettings] only ever store a truthy setting or a default. *)
Definition wf_calculator (c : calculator) : Prop :=
  truthy (ftp c) = true /\ truthy (runThreshold c) = true /\
  truthy (swimThreshold c) = true /\ truthy (lthr c) = true.

(** A value that is not an array. *)
Definition scalar (v : jsval) : Prop :=
  match v with
  | Arr _ => False
  | _ => True
  end.

(** A value that converts to a number whenever it is truthy: anything but
    an array of two bytes or more. *)
Definition usable (v : jsval) : Prop :=
  truthy v = true -> exists q, toNumber v = Some q.

(** No threshold is an array: the settings hold what the settings form and
    [parsePace] produce. *)
Definition scalarThresholds (c : calculator) : Prop :=
  scalar (ftp c) /\ scalar (runThreshold c) /\
  scalar (swimThreshold c) /\ scalar (lthr c).

(** A number of moderate size: zero, or of a magnitude from [2 ^ -64] to
    [2 ^ 64].  On such inputs no product, quotient or power that the
    calculator forms leaves the range of the doubles or underflows to
    zero. *)
Definition moderate (v : jsval) : Prop :=
  forall q, toNumber v = Some q ->
    q == 0 \/ Qmake 1 (2 ^ 64) <= q <= inject_Z (2 ^ 64) \/
    Qmake 1 (2 ^ 64) <= - q <= inject_Z (2 ^ 64).

Definition moderateInputs (c : calculator) (a : activity) : Prop :=
  (moderate (ftp c) /\ moderate (runThreshold c) /\
   moderate (swimThreshold c) /\ moderate (lthr c)) /\
  moderate (totalTime a) /\ moderate (totalDistance a) /\
  moderate (normalizedPower a) /\ moderate (avgPower a) /\
  moderate (avgHeartRate a).

(** ** Pace strings *)

(** A string is the sequence of its code units; those of a [string] are
    below 256. *)

(** [s.split(sep)] for a one-character separator. *)
Fixpoint split (sep : ascii) (s : string) : list string :=
  match s with
  | EmptyString => [EmptyString]
  | String c s' =>
      if Ascii.eqb c sep then EmptyString :: split sep s'
      else match split sep s' with
           | p :: ps => String c p :: ps
           | [] => [String c EmptyString]
           end
  end.

(** The white space [parseInt] skips, among the code units below 256: TAB,
    LF, VT, FF, CR, SP and NBSP. *)
Definition isWhiteSpace (c : ascii) : bool :=
  let n := nat_of_ascii c in
  ((9 <=? n) && (n <=? 13) || (n =? 32) || (n =? 160))%nat.

Fixpoint trimStart (s : string) : string :=
  match s with
  | String c s' => if isWhiteSpace c then trimStart s' else s
  | EmptyString => s
  end.

(** The value of a digit in a radix up to 36, if it is one. *)
Definition digitValue (radix : Z) (c : ascii) : option Z :=
  (let n := Z.of_nat (nat_of_ascii c) in
   let d :=
     if (48 <=? n) && (n <=? 57) then Some (n - 48)
     else if (97 <=? n) && (n <=? 122) then Some (n - 87)
     else if (65 <=? n) && (n <=? 90) then Some (n - 55)
     else None in
   match d with
   | Some v => if v <? radix then Some v else None
   | None => None
   end)%Z.

(** The digits of the longest prefix of [s] made of digits of the radix. *)
Fixpoint leadingDigits (radix : Z) (s : string) : list Z :=
  match s with
  | String c s' =>
      match digitValue radix c with
      | Some d => d :: leadingDigits radix s'
      | None => []
      end
  | EmptyString => []
  end.

Definition digitsValue (radix : Z) (ds : list Z) : Z :=
  fold_left (fun acc d => acc * radix + d)%Z ds 0%Z.

(** The sign [parseInt] reads, and the rest of the string. *)
Definition stripSign (s : string) : Z * string :=
  match s with
  | String c r =>
      if Ascii.eqb c "-" then ((-1)%Z, r)
      else if Ascii.eqb c "+" then (1%Z, r)
      else (1%Z, s)
  | EmptyString => (1%Z, s)
  end.

(** The radix: 16 after [0x] or [0X], which is dropped, 10 otherwise. *)
Definition stripPrefix (s : string) : Z * string :=
  match s with
  | String c0 (String c1 r) =>
      if Ascii.eqb c0 "0" && (Ascii.eqb c1 "x" || Ascii.eqb c1 "X")
      then (16%Z, r)
      else (10%Z, s)
  | _ => (10%Z, s)
  end.

(** [parseInt(s)] without a radix argument: skip white space, read a sign,
    switch to radix 16 after [0x] or [0X], read the longest run of digits;
    [NaN] when there is none.  The result is the integer the digits denote;
    [parseInt] returns the double nearest to it, which is that integer up
    to [2 ^ 53], and the statements about values keep to that range. *)
Definition parseInt (s : string) : jsval :=
  let signed := stripSign (trimStart s) in
  let based := stripPrefix signed.2 in
  match leadingDigits based.1 based.2 with
  | [] => NaN
  | ds => Num (inject_Z (signed.1 * digitsValue based.1 ds))
  end.

Definition jadd : jsval -> jsval -> jsval := arith Qplus.

(** [static parsePace(paceString)] *)
Definition parsePace (paceString : string) : jsval :=
  let parts := split ":" paceString in
  match parts with
  | [p0; p1] => jadd (jmul (parseInt p0) (Num 60)) (parseInt p1)
  | _ => Null
  end.

(** The number of separators in a pace string. *)
Fixpoint colons (s : string) : nat :=
  match s with
  | EmptyString => O
  | String c s' => if Ascii.eqb c ":" then S (colons s') else colons s'
  end.

(** An integer part in the sense of the configuration format: one or more
    decimal digits and nothing else. *)
Fixpoint allDecimal (s : string) : bool :=
  match s with
  | EmptyString => true
  | String c s' =>
      match digitValue 10 c with
      | Some _ => allDecimal s'
      | None => false
      end
  end.

Definition isIntegerPart (s : string) : bool :=
  match s with
  | EmptyString => false
  | _ => allDecimal s
  end.

(** The number a string of decimal digits denotes. *)
Definition decimalValue (s : string) : Z :=
  digitsValue 10 (leadingDigits 10 s).

(** What may follow the decimal digits of a part without changing what
    [parseInt] reads: nothing, or text that holds no separator and starts
    with a character that is neither a decimal digit nor the [x] of a
    hexadecimal prefix. *)
Definition ignoredTail (r : string) : bool :=
  match r with
  | EmptyString => true
  | String c _ =>
      match digitValue 10 c with
      | Some _ => false
      | None => negb (Ascii.eqb c "x" || Ascii.eqb c "X") && (colons r =? 0)%nat
      end
  end.

(** A value is the number [q]. *)
Definition numeq (v : jsval) (q : Q) : Prop :=
  match v with
  | Num x => x == q
  | _ => False
  end.

(** ** The running branch in doubles *)

(** The arithmetic of the [else] branch of [calculateRunningTSS] on IEEE
    doubles, operation by operation, before [Math.round]:
    [paceSecsPerKm], [IF] and [rtss].  [Math.pow(IF, 2)] is the product
    [IF * IF] wherever that product is exact. *)
Definition runningDoubles (runThreshold duration distance : float)
    : float * float * float :=
  (let paceSecsPerKm := duration / (distance / 1000) in
   let IF := runThreshold / paceSecsPerKm in
   let durationHours := duration / 3600 in
   let rtss := durationHours * (IF * IF) * 100 in
   (paceSecsPerKm, IF, rtss))%float.

(** ** Zones, swim pace and stored activities *)

(** [{zone, name, color}] *)
Record Zone : Type := {
  zone : Z;
  name : string;
  color : string
}.

(** [getZone(IF)]: each test is [IF < bound], false for [NaN]. *)
Definition getZone (IF : jsval) : Zone :=
  if jlt IF (Num (55 # 100)) then
    {| zone := 1; name := "Recupero"; color := "#a0aec0" |}
  else if jlt IF (Num (75 # 100)) then
    {| zone := 2; name := "Fondo"; color := "#48bb78" |}
  else if jlt IF (Num (90 # 100)) then
    {| zone := 3; name := "Tempo"; color := "#ecc94b" |}
  else if jlt IF (Num (105 # 100)) then
    {| zone := 4; name := "Soglia"; color := "#ed8936" |}
  else
    {| zone := 5; name := "VO2max"; color := "#f56565" |}.

(** [formatSwimPace] has the body of [formatPace]. *)
Definition formatSwimPace (secondsPer100m : jsval) : string :=
  let minutes := Math_floor (jdiv secondsPer100m (Num 60)) in
  let secs := Math_round (jmod60 secondsPer100m) in
  (show minutes ++ ":" ++ padStart2 (show secs))%string.

(** The fields of a stored activity record that [recalculate] reads; the
    application's [importFITFile] fills them from the decoded activity. *)
Record storedRecord : Type := {
  rec_sport : string;
  duration : jsval;
  distance : jsval;
  rec_normalizedPower : jsval;
  rec_avgPower : jsval;
  avgHR_stored : jsval
}.

(** The part of the record [importFITFile] builds that concerns the
    calculator: [duration: activity.totalTime],
    [distance: activity.totalDistance], [avgHR: activity.avgHeartRate] and
    the fields kept under their own names. *)
Definition toRecord (a : activity) : storedRecord := {|
  rec_sport := sport a;
  duration := totalTime a;
  distance := totalDistance a;
  rec_normalizedPower := normalizedPower a;
  rec_avgPower := avgPower a;
  avgHR_stored := avgHeartRate a
|}.

(** [recalculate(activity)] *)
Definition recalculate (c : calculator) (r : storedRecord) : TSSResult :=
  let mapped := {|
    sport := rec_sport r;
    totalTime := duration r;
    totalDistance := distance r;
    normalizedPower := rec_normalizedPower r;
    avgPower := rec_avgPower r;
    avgHeartRate := avgHR_stored r
  |} in
  calculate c mapped.

(** The conditions under which the cycling branch, and the running or the
    swimming branch, do not fall back. *)
Definition usesPower (a : activity) : bool :=
  String.eqb (sport a) "cycling" &&
  truthy (jor (normalizedPower a) (avgPower a)) && truthy (totalTime a).

Definition usesPace (a : activity) : bool :=
  truthy (totalTime a) && truthy (totalDistance a) &&
  (String.eqb (sport a) "running" && negb (jlt (totalDistance a) (Num 100)) ||
   String.eqb (sport a) "swimming" && negb (jlt (totalDistance a) (Num 25))).

End TSS.

(** * The load ledger and the PMC engine *)

Module PMC.

Local Open Scope R_scope.

(** A calendar day is its day number, counted from 1970-01-01: the
    canonical [YYYY-MM-DD] text of a day stands for the number, and the
    order of the texts (the order [sort()] uses) is the order of the
    numbers. *)
Abbreviation day := Z.

(** [Math.exp(-1 / this.CTL_DECAY)] and [Math.exp(-1 / this.ATL_DECAY)]. *)
Definition CTL_DECAY : R := 42.
Definition ATL_DECAY : R := 7.
Definition ctlDecay : R := exp (-1 / CTL_DECAY).
Definition atlDecay : R := exp (-1 / ATL_DECAY).

(** [{date, tss, ctl, atl, tsb}] *)
Record PMCEntry : Type := {
  date : day;
  tss : R;
  ctl : R;
  atl : R;
  tsb : R
}.

(** The instance: the maps [this.dailyTSS] and [this.pmcData]. *)
Record engine : Type := {
  dailyTSS : gmap Z R;
  pmcData : gmap Z PMCEntry
}.

Definition newEngine : engine := {| dailyTSS := ∅; pmcData := ∅ |}.

(** [this.dailyTSS.get(dateStr) || 0] *)
Definition getTSS (ledger : gmap Z R) (d : day) : R := default 0 (ledger !! d).

Definition addTSS (d : day) (t : R) (st : engine) : engine :=
  {| dailyTSS := <[d := getTSS (dailyTSS st) d + t]> (dailyTSS st);
     pmcData := pmcData st |}.

Definition setDailyTSS (d : day) (t : R) (st : engine) : engine :=
  {| dailyTSS := <[d := t]> (dailyTSS st); pmcData := pmcData st |}.

Definition clear (st : engine) : engine := newEngine.

(** [Math.round(x)]: the integer part of [x + 1/2]. *)
Definition Math_round (x : R) : R := IZR (Int_part (x + / 2)).

(** [Math.round(x * 10) / 10] *)
Definition round1 (x : R) : R := Math_round (x * 10) / 10.

(** [Array.from(this.dailyTSS.keys()).sort()] *)
Definition sortedDates (ledger : gmap Z R) : list day :=
  merge_sort Z.le (map_to_list ledger).*1.

(** ** Dates and the local time zone *)

(** [24 * 60 * 60 * 1000], the milliseconds of a day, and those of an
    hour. *)
Definition MS_PER_DAY : Z := 24 * 60 * 60 * 1000.
Definition HOUR : Z := 60 * 60 * 1000.

(** [formatDate(new Date(t))] for a time value [t] in milliseconds: the UTC
    day [t] falls on. *)
Definition dayOf (t : Z) : day := (t / MS_PER_DAY)%Z.

(** [new Date('YYYY-MM-DD')]: a date-only text is midnight UTC of the
    day. *)
Definition startOfDay (d : day) : Z := (d * MS_PER_DAY)%Z.

(** The time zone of the host: the offset of standard time from UTC, and
    the periods of summer time, each from the instant the clocks go
    forward by an hour to the instant they go back. *)
Record zone : Type := {
  standard : Z;
  summers : list (Z * Z)
}.

Definition inSummer (tz : zone) (t : Z) : bool :=
  existsb (fun p => (p.1 <=? t)%Z && (t <? p.2)%Z) (summers tz).

(** The offset of local time: at a UTC time value, or at a local one.  A
    local time that the clocks skip or show twice is read with the offset
    in force before the change. *)
Definition LocalTZA (tz : zone) (t : Z) (isUTC : bool) : Z :=
  (if isUTC
   then standard tz + (if inSummer tz t then HOUR else 0)
   else standard tz + (if inSummer tz (t - standard tz - HOUR) then HOUR else 0))%Z.

Definition LocalTime (tz : zone) (t : Z) : Z := (t + LocalTZA tz t true)%Z.
Definition UTC (tz : zone) (t : Z) : Z := (t - LocalTZA tz t false)%Z.

(** [current.setDate(current.getDate() + 1)]: the same local time on the
    next local day, as a time value. *)
Definition setDateNext (tz : zone) (t : Z) : Z :=
  UTC tz (LocalTime tz t + MS_PER_DAY)%Z.

(** UTC, and Europe/Rome with the clock changes of 2024: forward on 31
    March and back on 27 October, both at 01:00 UTC. *)
Definition utc : zone := {| standard := 0; summers := [] |}.

Definition europeRome2024 : zone :=
  {| standard := HOUR;
     summers := [((startOfDay 19813 + HOUR)%Z, (startOfDay 20023 + HOUR)%Z)] |}.

(** No clock change touches the steps taken from the time values between
    [a] and [b]: each step is 24 hours long. *)
Definition steady (tz : zone) (a b : Z) : Prop :=
  forall t : Z, (a <= t <= b)%Z -> setDateNext tz t = (t + MS_PER_DAY)%Z.

(** The [while (current <= end)] loop of [generateDateRange]: [current] is
    stepped in local time and formatted in UTC. *)
Fixpoint dateLoop (fuel : nat) (tz : zone) (current endTime : Z) : list day :=
  if (current <=? endTime)%Z then
    match fuel with
    | O => []
    | S fuel => dayOf current :: dateLoop fuel tz (setDateNext tz current) endTime
    end
  else [].

(** [generateDateRange(startDate, endDate)].  A step is never shorter than
    23 hours, so two steps per day of the range, and two more, are fuel
    enough. *)
Definition generateDateRange (tz : zone) (startDate endDate : day) : list day :=
  dateLoop (Z.to_nat (2 * (endDate - startDate) + 2)) tz
    (startOfDay startDate) (startOfDay endDate).

(** The body of the [for] loop of [calculate], with the loop variables
    [ctl] and [atl] and the map [this.pmcData] as arguments; it returns
    [results] and the map. *)
Fixpoint pmcLoop (ledger : gmap Z R) (allDates : list day) (ctl atl : R)
    (data : gmap Z PMCEntry) : list PMCEntry * gmap Z PMCEntry :=
  match allDates with
  | [] => ([], data)
  | dateStr :: rest =>
      let tss := getTSS ledger dateStr in
      let tsb := ctl - atl in
      let ctl := ctl * ctlDecay + tss * (1 - ctlDecay) in
      let atl := atl * atlDecay + tss * (1 - atlDecay) in
      let pmcEntry :=
        {| date := dateStr; tss := tss;
           ctl := round1 ctl; atl := round1 atl; tsb := round1 tsb |} in
      let out := pmcLoop ledger rest ctl atl (<[dateStr := pmcEntry]> data) in
      (pmcEntry :: out.1, out.2)
  end.

(** [calculate(startDate = null, endDate = null)]; [today] is the day
    [new Date()] falls on. *)
Definition calculate (tz : zone) (startDate endDate : option day) (today : day)
    (st : engine) : list PMCEntry * engine :=
  match sortedDates (dailyTSS st) with
  | [] => ([], st)
  | earliest :: _ =>
      let firstDate := default earliest startDate in
      let lastDate := default today endDate in
      let allDates := generateDateRange tz firstDate lastDate in
      let out := pmcLoop (dailyTSS st) allDates 0 0 (pmcData st) in
      (out.1, {| dailyTSS := dailyTSS st; pmcData := out.2 |})
  end.

(** ** The accumulators as a fold *)

(** One day folded into the pair [(ctl, atl)]. *)
Definition foldDay (ledger : gmap Z R) (acc : R * R) (d : day) : R * R :=
  (acc.1 * ctlDecay + getTSS ledger d * (1 - ctlDecay),
   acc.2 * atlDecay + getTSS ledger d * (1 - atlDecay)).

(** The accumulators after the given days, from [ctl = atl = 0]. *)
Definition accumulators (ledger : gmap Z R) (days : list day) : R * R :=
  fold_left (foldDay ledger) days (0, 0).

(** Agreement to two decimal places. *)
Definition approx2 (x c : R) : Prop := Rabs (x - c) < 5 / 1000.

(** ** Reading the derived table *)

(** [calculateRampRate(days = 7)]: the day [days] before today is the day
    of [Date.now() - days * 24 * 60 * 60 * 1000]. *)
Definition calculateRampRate (days : Z) (today : day) (st : engine) : R :=
  match pmcData st !! today, pmcData st !! (today - days)%Z with
  | Some todayPMC, Some weekAgoPMC => round1 (ctl todayPMC - ctl weekAgoPMC)
  | _, _ => 0
  end.

(** What [getCurrentPMC] returns: [{ctl, atl, tsb, rampRate}]. *)
Record CurrentPMC : Type := {
  cur_ctl : R;
  cur_atl : R;
  cur_tsb : R;
  rampRate : R
}.

(** [Array.from(this.pmcData.keys()).sort()] *)
Definition sortedEntryDates (data : gmap Z PMCEntry) : list day :=
  merge_sort Z.le (map_to_list data).*1.

(** [getCurrentPMC()]: recompute from the earliest ledger day when the
    derived table is empty and the ledger is not; then take today's entry,
    else the entry of the latest day in the table, else zeros. *)
Definition getCurrentPMC (tz : zone) (today : day) (st : engine)
    : CurrentPMC * engine :=
  let st :=
    if Nat.eqb (size (pmcData st)) 0 && negb (Nat.eqb (size (dailyTSS st)) 0)
    then (calculate tz (head (sortedDates (dailyTSS st))) (Some today) today st).2
    else st in
  let pmc :=
    match pmcData st !! today with
    | Some p => Some p
    | None =>
        if negb (Nat.eqb (size (pmcData st)) 0)
        then last (sortedEntryDates (pmcData st)) ≫= (fun d => pmcData st !! d)
        else None
    end in
  ({| cur_ctl := from_option ctl 0 pmc;
      cur_atl := from_option atl 0 pmc;
      cur_tsb := from_option tsb 0 pmc;
      rampRate := calculateRampRate 7 today st |}, st).

(** The objects [getTSBStatus] and [getRampRateStatus] return. *)
Record Status : Type := {
  status : string;
  label : string;
  description : string
}.

Definition getTSBStatus (tsb : R) : Status :=
  if Rgt_dec tsb 5 then
    {| status := "good"; label := "Pronto";
       description := "Buona forma, pronto per gare/sforzi intensi" |}
  else if Rge_dec tsb (-10) then
    {| status := "normal"; label := "OK";
       description := "Stato di allenamento normale" |}
  else
    {| status := "tired"; label := "Affaticato";
       description := "Affaticamento accumulato, considera recupero" |}.

Definition getRampRateStatus (rampRate : R) : Status :=
  if Rgt_dec rampRate 10 then
    {| status := "warning"; label := "Attenzione";
       description := "Rischio sovrallenamento" |}
  else if Rge_dec rampRate 3 then
    if Rle_dec rampRate 8 then
      {| status := "good"; label := "Ideale";
         description := "Progressione ottimale" |}
    else
      {| status := "normal"; label := "Stabile";
         description := "Mantenimento fitness" |}
  else if Rge_dec rampRate 0 then
    {| status := "normal"; label := "Stabile";
       description := "Mantenimento fitness" |}
  else
    {| status := "recovery"; label := "Recupero";
       description := "Fase di scarico" |}.

(** ** Rebuilding the ledger from the stored activities *)

(** What [loadActivities] of the application reads of a stored activity:
    the day of [new Date(a.startTime).toISOString()] and [a.tss], [None]
    when it is falsy ([undefined], [NaN] or [0]). *)
Record storedActivity : Type := {
  startDay : day;
  storedTSS : option R
}.

(** The local map [dailyTSS] of [loadActivities]:
    [dailyTSS.set(date, (dailyTSS.get(date) || 0) + (a.tss || 0))]. *)
Definition groupByDay (activities : list storedActivity) : gmap Z R :=
  fold_left
    (fun m a => <[startDay a := getTSS m (startDay a) + default 0 (storedTSS a)]> m)
    activities ∅.

(** [loadActivities]: clear the engine, set every day of the grouped map,
    and compute from its earliest day to today when it is not empty.  The
    days are set in the order of the map, which does not matter to the
    ledger: each day is set once. *)
Definition loadActivities (tz : zone) (activities : list storedActivity)
    (today : day) (st : engine) : engine :=
  let grouped := groupByDay activities in
  let st := map_fold (fun d t st => setDailyTSS d t st) (clear st) grouped in
  if negb (Nat.eqb (size grouped) 0)
  then (calculate tz (head (sortedDates grouped)) (Some today) today st).2
  else st.

(** ** The history for the chart *)

(** The [while (current <= endDate)] loop of [getHistory], with [current]
    and [endDate] as time values; [current] is stepped like that of
    [generateDateRange]. *)
Fixpoint historyLoop (fuel : nat) (tz : zone) (data : gmap Z PMCEntry)
    (current endDate : Z) (results : list PMCEntry) : option (list PMCEntry) :=
  if (current <=? endDate)%Z then
    match fuel with
    | O => None
    | S fuel =>
        let results :=
          match data !! dayOf current with
          | Some pmc => results ++ [pmc]
          | None => results
          end in
        historyLoop fuel tz data (setDateNext tz current) endDate results
    end
  else Some results.

(** [getHistory(days = 90)].  The clock is read twice: [clock1] is the value
    of [new Date()] and [clock2] that of the later [Date.now()].  The loop
    runs at most twice per 24 hours from [startDate] to [endDate], which
    bounds the fuel. *)
Definition getHistory (tz : zone) (days : Z) (clock1 clock2 : Z) (st : engine)
    : option (list PMCEntry) * engine :=
  let endDate := clock1 in
  let startDate := (clock2 - days * MS_PER_DAY)%Z in
  let st :=
    (calculate tz (Some (dayOf startDate)) (Some (dayOf endDate)) (dayOf clock1) st).2 in
  (historyLoop (Z.to_nat (2 * ((endDate - startDate) / MS_PER_DAY) + 2)) tz
     (pmcData st) startDate endDate [],
   st).

End PMC.

(** * Properties of the FIT decoder *)

Module FITProofs.

Import FIT.
Local Open Scope Z_scope.

(** ** Reads through the DataView *)

Lemma byte_range (b : byte) : 0 <= Z.of_N (Byte.to_N b) < 256.
Proof. pose proof (Byte.to_N_bounded b). lia. Qed.

Lemma getUint8_out (dv : DataView) (off : Z) :
  byteLength dv <= off -> getUint8 dv off = inl RangeError.
Proof.
  unfold getUint8, byteLength. intros H.
  destruct (off <? 0) eqn:E; [reflexivity|].
  apply Z.ltb_ge in E.
  rewrite (proj2 (lookup_ge_None dv (Z.to_nat off))); [reflexivity | lia].
Qed.

Lemma getUint8_in (dv : DataView) (off : Z) :
  0 <= off < byteLength dv ->
  exists h, getUint8 dv off = inr h /\ 0 <= h < 256.
Proof.
  unfold getUint8, byteLength. intros [H0 H1].
  destruct (off <? 0) eqn:E; [apply Z.ltb_lt in E; lia|].
  destruct (lookup_lt_is_Some_2 dv (Z.to_nat off)) as [b Hb]; [lia|].
  rewrite Hb. exists (Z.of_N (Byte.to_N b)). split; [reflexivity | apply byte_range].
Qed.

Lemma getUint8_inr (dv : DataView) (off h : Z) :
  getUint8 dv off = inr h -> 0 <= off < byteLength dv /\ 0 <= h < 256.
Proof.
  unfold getUint8, byteLength. intros H.
  destruct (off <? 0) eqn:E; [discriminate|]. apply Z.ltb_ge in E.
  destruct (dv !! Z.to_nat off) as [b|] eqn:Hb; [|discriminate].
  apply lookup_lt_Some in Hb. injection H as <-.
  split; [lia | apply byte_range].
Qed.

Lemma getUint8_inl (dv : DataView) (off : Z) (e : exn) :
  getUint8 dv off = inl e -> e = RangeError /\ (off < 0 \/ byteLength dv <= off).
Proof.
  intros H. destruct (decide (0 <= off < byteLength dv)) as [Hin|Hout].
  - destruct (getUint8_in dv off Hin) as (h & Hh & _). congruence.
  - split; [|lia]. unfold getUint8 in H.
    destruct (off <? 0); [unfold throw in H; congruence|].
    destruct (dv !! Z.to_nat off); [discriminate | unfold throw in H; congruence].
Qed.

(** ** Messages *)

Lemma bind_inr {A B} (m : res A) (k : A -> res B) (b : B) :
  bind m k = inr b -> exists a, m = inr a /\ k a = inr b.
Proof. destruct m as [e|a]; simpl; [discriminate | eauto]. Qed.

Tactic Notation "bind_inv" hyp(H) "as" ident(a) ident(Ha) :=
  apply bind_inr in H; destruct H as (a & Ha & H).

Lemma readFieldDefs_inr (dv : DataView) (n : nat) :
  forall off fs off',
    readFieldDefs dv off n = inr (fs, off') ->
    off' = off + 3 * Z.of_nat n /\ Forall (fun f => 0 <= size f) fs.
Proof.
  induction n as [|n IH]; intros off fs off' H; simpl in H.
  - injection H as <- <-. split; [lia | constructor].
  - bind_inv H as fnum Hnum. bind_inv H as fsize Hsize. bind_inv H as ftype Htype.
    bind_inv H as rest Hrest. destruct rest as [fs0 off0]. injection H as <- <-.
    apply IH in Hrest as [-> Hfs]. split; [simpl; lia|].
    constructor; [|exact Hfs]. simpl. apply getUint8_inr in Hsize. lia.
Qed.

Lemma readFields_offset (dv : DataView) (le : bool) (fs : list field) :
  forall off vs,
    Forall (fun f => 0 <= size f) fs ->
    off <= (readFields dv off fs le vs).2.
Proof.
  induction fs as [|f fs IH]; intros off vs Hfs; simpl; [lia|].
  inversion Hfs as [|? ? Hf Hfs']; subst.
  specialize (IH (off + size f) (<[num f:=readFieldValue dv off f le]> vs) Hfs'). lia.
Qed.

(** A message that is read advances the offset, keeps the registry
    well formed and keeps every registered slot registered. *)
Lemma parseMessage_inr (dv : DataView) (off : Z) (reg : registry) (act : activity)
    (off' : Z) (reg' : registry) (act' : activity) :
  wf_registry reg ->
  parseMessage dv off reg act = inr (off', reg', act') ->
  0 <= off < byteLength dv /\ off < off' /\ wf_registry reg' /\
  (forall slot, is_Some (reg !! slot) -> is_Some (reg' !! slot)).
Proof.
  intros Hwf H. unfold wf_registry, map_Forall in *. unfold parseMessage in H.
  bind_inv H as a Ha. apply getUint8_inr in Ha as [Hoff Hh]. split; [exact Hoff|].
  destruct (negb (Z.land a 64 =? 0)).
  - bind_inv H as arch Harch. bind_inv H as gnum Hgnum. bind_inv H as nf Hnf.
    bind_inv H as defs Hdefs. bind_inv H as a4 Hdev.
    destruct defs as [fs off3]. simpl in *.
    injection H as <- <- <-.
    apply readFieldDefs_inr in Hdefs as [-> Hfs].
    assert (off + 6 <= a4) as Hle.
    { destruct (negb (Z.land a 32 =? 0)).
      - bind_inv Hdev as nd Hnd. injection Hdev as <-. apply getUint8_inr in Hnd. lia.
      - injection Hdev as <-. lia. }
    split; [lia|]. split.
    + intros slot d Hd. destruct (decide (Z.land a 15 = slot)) as [<-|Hne].
      * rewrite lookup_insert_eq in Hd. injection Hd as <-. exact Hfs.
      * rewrite lookup_insert_ne in Hd by exact Hne. eapply Hwf; eauto.
    + intros slot Hs. destruct (decide (Z.land a 15 = slot)) as [<-|Hne].
      * rewrite lookup_insert_eq. eauto.
      * rewrite lookup_insert_ne by exact Hne. exact Hs.
  - destruct (reg !! Z.land a 15) as [d|] eqn:Hd.
    + pose proof (readFields_offset dv (isLittleEndian d) (fields d) (off + 1) ∅
                    (Hwf _ _ Hd)) as Hle.
      destruct (readFields dv (off + 1) (fields d) (isLittleEndian d) ∅) as [vs o].
      injection H as <- <- <-. simpl in Hle. split; [lia|]. split; [exact Hwf | auto].
    + injection H as <- <- <-. split; [lia|]. split; [exact Hwf | auto].
Qed.

(** The loop ends within as many steps as bytes are left, plus one: a
    step either raises or moves the offset forward inside the buffer. *)
Lemma parseLoop_fuel (fuel : nat) (dv : DataView) (endOffset : Z) :
  forall off reg act,
    wf_registry reg ->
    (Z.to_nat (byteLength dv - off) < fuel)%nat ->
    exists reg' r,
      parseLoop fuel dv off endOffset reg act = Some (reg', r) /\
      wf_registry reg' /\
      (forall slot, is_Some (reg !! slot) -> is_Some (reg' !! slot)).
Proof.
  induction fuel as [|fuel IH]; intros off reg act Hwf Hfuel; [lia|].
  simpl. destruct (off <? endOffset); [|eauto 6].
  destruct (parseMessage dv off reg act) as [e|[[off' reg'] act']] eqn:Hm; [eauto 6|].
  apply parseMessage_inr in Hm as (Hoff & Hlt & Hwf' & Hkeep); [|exact Hwf].
  destruct (IH off' reg' act' Hwf') as (reg'' & r & Hr & Hwf'' & Hkeep'); [lia|].
  exists reg'', r. split; [exact Hr|]. split; [exact Hwf''|]. auto.
Qed.

(** ** Field values, the header and the exceptions raised *)

Lemma getUint8_cases (dv : DataView) (off : Z) :
  0 <= off ->
  (off < byteLength dv /\ exists h, getUint8 dv off = inr h) \/
  (byteLength dv <= off /\ getUint8 dv off = inl RangeError).
Proof.
  intros H0. destruct (decide (off < byteLength dv)) as [Hlt|Hge].
  - left. split; [exact Hlt|].
    destruct (getUint8_in dv off) as (h & Hh & _); [lia | eauto].
  - right. split; [lia | apply getUint8_out; lia].
Qed.

Ltac read_byte dv off :=
  let Hlt := fresh "Hlt" in
  let h := fresh "h" in
  let Hh := fresh "Hh" in
  destruct (getUint8_cases dv off) as [(Hlt & h & Hh)|(Hlt & Hh)];
  [lia | rewrite Hh; simpl | rewrite Hh; simpl].


Lemma size_switch {A} (z : Z) (a b c d : A) :
  match z with 1 => a | 2 => b | 4 => c | _ => d end =
  if z =? 1 then a else if z =? 2 then b else if z =? 4 then c else d.
Proof.
  destruct z as [|p|p]; try reflexivity.
  destruct p as [[p|p|]|[[p|p|]|[p|p|]|]|]; reflexivity.
Qed.


Lemma signature_short (dv : DataView) :
  byteLength dv < 12 -> signature dv = inl RangeError.
Proof.
  intros H. unfold signature.
  read_byte dv 8; [|reflexivity]. read_byte dv 9; [|reflexivity].
  read_byte dv 10; [|reflexivity]. read_byte dv 11; [lia | reflexivity].
Qed.

Lemma header_reads (dv : DataView) :
  12 <= byteLength dv ->
  exists hs pv ds sig,
    getUint8 dv 0 = inr hs /\ getUint8 dv 1 = inr pv /\
    getUint32 dv 4 true = inr ds /\ signature dv = inr sig /\ 0 <= hs.
Proof.
  intros H. unfold getUint32, signature.
  destruct (getUint8_in dv 0) as (hs & Hhs & Hr); [lia|].
  destruct (getUint8_in dv 1) as (pv & Hpv & _); [lia|].
  destruct (getUint8_in dv 4) as (b4 & Hb4 & _); [lia|].
  destruct (getUint8_in dv 5) as (b5 & Hb5 & _); [lia|].
  destruct (getUint8_in dv 6) as (b6 & Hb6 & _); [lia|].
  destruct (getUint8_in dv 7) as (b7 & Hb7 & _); [lia|].
  destruct (getUint8_in dv 8) as (b8 & Hb8 & _); [lia|].
  destruct (getUint8_in dv 9) as (b9 & Hb9 & _); [lia|].
  destruct (getUint8_in dv 10) as (b10 & Hb10 & _); [lia|].
  destruct (getUint8_in dv 11) as (b11 & Hb11 & _); [lia|].
  change (4 + 1) with 5. change (4 + 2) with 6. change (4 + 3) with 7.
  rewrite Hhs, Hpv, Hb4, Hb5, Hb6, Hb7, Hb8, Hb9, Hb10, Hb11. simpl.
  eexists _, _, _, _. repeat split; try reflexivity. lia.
Qed.

Lemma parse_short (reg : registry) (dv : DataView) :
  byteLength dv < 12 -> parse reg dv = Some (reg, inl RangeError).
Proof.
  intros H. unfold parse.
  read_byte dv 0; [|reflexivity]. read_byte dv 1; [|reflexivity].
  destruct (getUint32 dv 4 true) as [e|ds] eqn:Hds; simpl.
  - unfold getUint32 in Hds.
    destruct (getUint8 dv 4) as [e4|b4] eqn:H4; simpl in Hds;
      [apply getUint8_inl in H4 as [-> _]; congruence|].
    destruct (getUint8 dv (4 + 1)) as [e5|b5] eqn:H5; simpl in Hds;
      [apply getUint8_inl in H5 as [-> _]; congruence|].
    destruct (getUint8 dv (4 + 2)) as [e6|b6] eqn:H6; simpl in Hds;
      [apply getUint8_inl in H6 as [-> _]; congruence|].
    destruct (getUint8 dv (4 + 3)) as [e7|b7] eqn:H7; simpl in Hds;
      [apply getUint8_inl in H7 as [-> _]; congruence | discriminate].
  - rewrite (signature_short dv H). reflexivity.
Qed.

Lemma parse_long (reg : registry) (dv : DataView) :
  12 <= byteLength dv ->
  exists hs ds sig,
    signature dv = inr sig /\ 0 <= hs /\
    parse reg dv =
      if bool_decide (sig = FIT_SIGNATURE)
      then parseLoop (S (length dv)) dv hs (hs + ds) reg emptyActivity
      else Some (reg, inl InvalidSignature).
Proof.
  intros H. destruct (header_reads dv H) as (hs & pv & ds & sig & Hhs & Hpv & Hds & Hsig & H0).
  exists hs, ds, sig. split; [exact Hsig|]. split; [exact H0|].
  unfold parse. rewrite Hhs, Hpv, Hds, Hsig. simpl.
  destruct (bool_decide (sig = FIT_SIGNATURE)); reflexivity.
Qed.








(** ** Definition messages *)








(** ** The decode loop ends *)

Lemma wf_newRegistry : wf_registry newRegistry.
Proof. apply map_Forall_empty. Qed.

Lemma parse_terminates (reg : registry) (dv : DataView) :
  wf_registry reg ->
  exists reg' r,
    parse reg dv = Some (reg', r) /\ wf_registry reg' /\
    (forall slot, is_Some (reg !! slot) -> is_Some (reg' !! slot)).
Proof.
  intros Hwf. destruct (decide (byteLength dv < 12)) as [Hshort|Hlong].
  - exists reg, (inl RangeError). rewrite (parse_short reg dv Hshort). auto.
  - destruct (parse_long reg dv) as (hs & ds & sig & _ & H0 & ->); [lia|].
    destruct (bool_decide (sig = FIT_SIGNATURE)); [|eauto 6].
    apply parseLoop_fuel; [exact Hwf|]. unfold byteLength. lia.
Qed.

(** ** Statements about the decoder *)




(** Missing developer field definitions do not raise: they are stepped
    over without a read, the offset passes the announced end and the decode
    returns an activity. *)
Lemma missing_developer_fields_are_skipped :
  byteLength shortDeveloperFile = 19 /\
  getUint32 shortDeveloperFile 4 true = inr 10 /\
  parse newRegistry shortDeveloperFile =
    Some ({[ 0 := MsgDef 20 [] true ]}, inr emptyActivity).
Proof. repeat split; reflexivity. Qed.

(** C5, as amended.  The registry belongs to the parser instance: it is
    empty when the instance is constructed and [parse] never resets it, so
    an invocation starts from the registry the previous one left and every
    slot registered before an invocation is still registered after it; a
    data message naming a slot of that registry is decoded with the schema
    found there. *)
Theorem registry_outlives_parse (reg : registry) (dv : DataView) (slot : Z) :
  wf_registry reg ->
  is_Some (reg !! slot) ->
  newRegistry = ∅ /\
  (exists reg' r, parse reg dv = Some (reg', r) /\ is_Some (reg' !! slot)) /\
  (forall off h d act,
     getUint8 dv off = inr h -> Z.land h 0x40 = 0 ->
     Z.land h 0x0F = slot -> reg !! slot = Some d ->
     let read := readFields dv (off + 1) (fields d) (isLittleEndian d) ∅ in
     parseMessage dv off reg act =
       inr (read.2, reg, processMessage (globalMsgNum d) read.1 act)).
Proof.
  intros Hwf Hslot. split; [reflexivity|]. split.
  - destruct (parse_terminates reg dv Hwf) as (reg' & r & Hp & _ & Hkeep). eauto.
  - intros off h d act Hh Hbit Hlow Hd. cbv zeta.
    unfold parseMessage. rewrite Hh. simpl. rewrite Hbit. simpl.
    change (Z.land h 15) with (Z.land h 0x0F). rewrite Hlow, Hd.
    destruct (readFields dv (off + 1) (fields d) (isLittleEndian d) ∅). reflexivity.
Qed.

Lemma recordSchema_wf : wf_registry recordSchema.
Proof.
  apply map_Forall_singleton. repeat constructor. simpl. lia.
Qed.

Lemma registry_outlives_parse_witness :
  wf_registry recordSchema /\ is_Some (recordSchema !! 0) /\
  exists reg' r, parse recordSchema dataOnlyFile = Some (reg', r) /\ is_Some (reg' !! 0).
Proof.
  split; [exact recordSchema_wf|]. split; [vm_compute; eauto|].
  apply (registry_outlives_parse recordSchema dataOnlyFile 0);
    [exact recordSchema_wf | vm_compute; eauto].
Defined.

(** C5 fails as stated: decoding [definitionFile] on a new parser leaves
    the record schema in slot 0; [dataOnlyFile], which defines nothing,
    decodes to no record on a new parser and to one record, read through
    that left-over schema, on the parser that decoded [definitionFile]. *)
Lemma registry_leaks_between_decodes :
  parse newRegistry definitionFile = Some (recordSchema, inr emptyActivity) /\
  parse newRegistry dataOnlyFile = Some (newRegistry, inr emptyActivity) /\
  parse recordSchema dataOnlyFile =
    Some (recordSchema, inr (Activity [] [] [ {[ 3 := VNum 150 ]} ])).
Proof. repeat split; reflexivity. Qed.

(** C9.  A data message for a local slot without a schema makes
    [parseMessage] return the offset just after the record header, with
    the registry and the activity as they were; the loop then reads the
    next byte, the first byte of the message body, as a record header. *)
Theorem unregistered_slot_consumes_header_only
    (dv : DataView) (off h : Z) (reg : registry) (act : activity) :
  getUint8 dv off = inr h ->
  Z.land h 0x40 = 0 ->
  reg !! Z.land h 0x0F = None ->
  parseMessage dv off reg act = inr (off + 1, reg, act) /\
  forall fuel endOffset, off < endOffset ->
    parseLoop (S fuel) dv off endOffset reg act =
    parseLoop fuel dv (off + 1) endOffset reg act.
Proof.
  intros Hh Hbit Hslot.
  assert (parseMessage dv off reg act = inr (off + 1, reg, act)) as Hm.
  { unfold parseMessage. rewrite Hh. simpl. rewrite Hbit. simpl.
    rewrite Hslot. reflexivity. }
  split; [exact Hm|].
  intros fuel endOffset Hlt. cbn [parseLoop].
  rewrite (proj2 (Z.ltb_lt off endOffset) Hlt), Hm. reflexivity.
Qed.

Lemma unregistered_slot_consumes_header_only_witness :
  getUint8 dataOnlyFile 12 = inr 0 /\ Z.land 0 0x40 = 0 /\
  newRegistry !! Z.land 0 0x0F = None /\
  parseMessage dataOnlyFile 12 newRegistry emptyActivity =
    inr (13, newRegistry, emptyActivity).
Proof.
  split; [reflexivity|]. split; [reflexivity|]. split; [reflexivity|].
  apply (unregistered_slot_consumes_header_only dataOnlyFile 12 0 newRegistry
           emptyActivity); reflexivity.
Defined.

End FITProofs.

(** * Properties of the TSS calculator *)

Module TSSProofs.

Import TSS.
Local Open Scope Q_scope.

(** ** The worked running example *)

(** C2, as amended.  With a run threshold of 256 s/km, 10000 m in 2560 s
    give a pace of 256 s/km (shown as 4:16), an intensity factor of 1.00
    and, the duration being 2560/3600 h, an rTSS of 71, whatever the other
    thresholds and the power and heart-rate fields are. *)
Theorem running_example_rtss (f sw l np ap hr : jsval) :
  let r :=
    calculate
      {| ftp := f; runThreshold := Num 256; swimThreshold := sw; lthr := l |}
      {| sport := "running"; totalTime := Num 2560; totalDistance := Num 10000;
         normalizedPower := np; avgPower := ap; avgHeartRate := hr |} in
  tss r = Num 71 /\ numeq (IF r) 1 /\
  (exists p, paceSeconds r = Some p /\ numeq p 256) /\
  paceText r = Some "4:16"%string /\
  type r = "rTSS"%string /\ by_method r = pace.
Proof.
  cbv zeta. repeat split; try reflexivity.
  eexists. split; reflexivity.
Qed.

(** The rational model and the doubles agree on the example: pace and
    intensity factor are exact, and the unrounded score lies between 71
    and 71.5, so that [Math.round] gives 71. *)
Remark running_example_in_doubles :
  let '(paceSecsPerKm, IF, rtss) := runningDoubles 256 2560 10000 in
  paceSecsPerKm = 256%float /\ IF = 1%float /\
  (71 <=? rtss)%float = true /\ (rtss <? 71.5)%float = true.
Proof. repeat split; reflexivity. Qed.

(** C2 fails as stated: on that input the running branch does not return
    an rTSS of 100. *)
Lemma running_example_not_100 :
  let r :=
    calculate (newCalculator {| s_ftp := Undefined; s_runThreshold := Num 256;
                                s_swimThreshold := Undefined; s_lthr := Undefined |})
      {| sport := "running"; totalTime := Num 2560; totalDistance := Num 10000;
         normalizedPower := Undefined; avgPower := Undefined;
         avgHeartRate := Undefined |} in
  tss r = Num 71 /\ ~ numeq (tss r) 100.
Proof. cbv zeta. split; [reflexivity|]. vm_compute. discriminate. Qed.

(** ** A missing duration *)

Lemma NaN_not_integer : ~ is_integer NaN.
Proof. intros [z Hz]. discriminate. Qed.

Lemma fallback_without_duration (c : calculator) (a : activity) :
  totalTime a = Undefined -> tss (calculateHRBasedTSS c a) = NaN.
Proof. intros H. unfold calculateHRBasedTSS. rewrite H. reflexivity. Qed.

(** C3 fails on the code.  When [totalTime] is absent every sport branch
    falls through to the duration estimate, which rounds
    [undefined / 60]: the [tss] of the result is [NaN], not an integer. *)
Theorem absent_totalTime_gives_NaN (c : calculator) (a : activity) :
  totalTime a = Undefined ->
  tss (calculate c a) = NaN /\ ~ is_integer (tss (calculate c a)) /\
  by_method (calculate c a) = duration_estimate.
Proof.
  intros H.
  assert (calculate c a = calculateHRBasedTSS c a) as ->.
  { unfold calculate, calculateCyclingTSS, calculateRunningTSS, calculateSwimmingTSS.
    rewrite H. simpl.
    destruct (truthy (jor (normalizedPower a) (avgPower a)));
      repeat match goal with |- context [String.eqb ?x ?y] => destruct (String.eqb x y) end;
      reflexivity. }
  rewrite (fallback_without_duration c a H).
  split; [reflexivity|]. split; [exact NaN_not_integer|].
  unfold calculateHRBasedTSS. rewrite H. reflexivity.
Qed.

Lemma absent_totalTime_gives_NaN_witness :
  let a := {| sport := "generic"; totalTime := Undefined; totalDistance := Undefined;
              normalizedPower := Undefined; avgPower := Undefined;
              avgHeartRate := Undefined |} in
  let c := newCalculator {| s_ftp := Undefined; s_runThreshold := Undefined;
                            s_swimThreshold := Undefined; s_lthr := Undefined |} in
  totalTime a = Undefined /\ tss (calculate c a) = NaN.
Proof.
  cbv zeta. split; [reflexivity|].
  apply (absent_totalTime_gives_NaN
           (newCalculator {| s_ftp := Undefined; s_runThreshold := Undefined;
                             s_swimThreshold := Undefined; s_lthr := Undefined |})
           {| sport := "generic"; totalTime := Undefined; totalDistance := Undefined;
              normalizedPower := Undefined; avgPower := Undefined;
              avgHeartRate := Undefined |}).
  reflexivity.
Defined.

(** ** A present duration *)

Lemma truthy_number (v : jsval) :
  scalar v -> truthy v = true -> exists x, toNumber v = Some x.
Proof. destruct v; try discriminate; try contradiction. intros _ _. eexists; reflexivity. Qed.

Lemma scalar_usable (v : jsval) : scalar v -> usable v.
Proof. intros Hs Ht. apply truthy_number; assumption. Qed.

Lemma jor_usable (a b : jsval) : usable a -> usable b -> usable (jor a b).
Proof. unfold jor. intros Ha Hb. destruct (truthy a) eqn:E; [exact Ha | exact Hb]. Qed.

Lemma round_integer (v : jsval) :
  (exists q, toNumber v = Some q) -> is_integer (Math_round v).
Proof. intros [q Hq]. unfold Math_round. rewrite Hq. eexists; reflexivity. Qed.

Lemma arith_number (f : Q -> Q -> Q) (a b : jsval) :
  (exists x, toNumber a = Some x) -> (exists y, toNumber b = Some y) ->
  exists q, toNumber (arith f a b) = Some q.
Proof. intros [x Hx] [y Hy]. unfold arith. rewrite Hx, Hy. eexists; reflexivity. Qed.

Lemma pow_number (v : jsval) (n : nat) :
  (exists x, toNumber v = Some x) -> exists q, toNumber (Math_pow v n) = Some q.
Proof. intros [x Hx]. unfold Math_pow. rewrite Hx. eexists; reflexivity. Qed.

Lemma num_number (q : Q) : exists x, toNumber (Num q) = Some x.
Proof. eexists; reflexivity. Qed.

Create HintDb tssdb.
#[local] Hint Resolve round_integer arith_number pow_number num_number : tssdb.

Lemma hr_integer (c : calculator) (a : activity) :
  wf_calculator c -> scalarThresholds c -> hasDuration a ->
  usable (avgHeartRate a) ->
  is_integer (tss (calculateHRBasedTSS c a)).
Proof.
  intros (Hf & Hr & Hs & Hl) (Sf & Sr & Ss & Sl) Hd Hu.
  pose proof (truthy_number _ Sl Hl) as Nl. unfold calculateHRBasedTSS.
  destruct (truthy (totalTime a)) eqn:Ht; simpl.
  - destruct (truthy (avgHeartRate a)) eqn:Hh; simpl;
      [specialize (Hu Hh)|]; unfold jmul, jdiv; auto 10 with tssdb.
  - unfold jdiv; auto 10 with tssdb.
Qed.

(** Every calculator the constructor builds has truthy thresholds, and
    [updateSettings] keeps them so. *)
Lemma newCalculator_wf (s : settings) : wf_calculator (newCalculator s).
Proof.
  unfold wf_calculator, newCalculator, jor; simpl.
  repeat split;
    match goal with |- truthy (if truthy ?v then _ else _) = true =>
      destruct (truthy v) eqn:E; [exact E | reflexivity] end.
Qed.

Lemma updateSettings_wf (c : calculator) (s : settings) :
  wf_calculator c -> wf_calculator (updateSettings c s).
Proof.
  intros (Hf & Hr & Hs & Hl). unfold wf_calculator, updateSettings; simpl.
  repeat split;
    match goal with |- truthy (if truthy ?v then _ else _) = true =>
      destruct (truthy v) eqn:E; [exact E | assumption] end.
Qed.

(** With thresholds that are numbers, a duration that is a number or
    [null], and no truthy field that fails to convert to a number (no array
    of two bytes or more), the score is an integer in every branch. *)
Lemma calculate_integer (c : calculator) (a : activity) :
  wf_calculator c -> scalarThresholds c ->
  hasDuration a -> scalar (totalTime a) ->
  usable (totalDistance a) -> usable (normalizedPower a) ->
  usable (avgPower a) -> usable (avgHeartRate a) ->
  is_integer (tss (calculate c a)).
Proof.
  intros Hc Hsc Hd Hsd Udist Unp Uap Uhr.
  pose proof (hr_integer c a Hc Hsc Hd Uhr) as Hhr.
  pose proof (jor_usable _ _ Unp Uap) as Upow.
  destruct Hc as (Hf & Hr & Hs & Hl). destruct Hsc as (Sf & Sr & Ss & Sl).
  pose proof (truthy_number _ Sf Hf) as Nf. pose proof (truthy_number _ Sr Hr) as Nr.
  pose proof (truthy_number _ Ss Hs) as Ns.
  unfold calculate, calculateCyclingTSS, calculateRunningTSS, calculateSwimmingTSS.
  repeat match goal with |- context [String.eqb ?x ?y] => destruct (String.eqb x y) end;
    try exact Hhr.
  - destruct (truthy (jor _ _)) eqn:Hn; simpl; [|exact Hhr].
    destruct (truthy (totalTime a)) eqn:Ht; simpl; [|exact Hhr].
    specialize (Upow Hn). unfold jmul, jdiv; auto 12 with tssdb.
  - destruct (truthy (totalTime a)) eqn:Ht; simpl; [|exact Hhr].
    destruct (truthy (totalDistance a)) eqn:Hdist; simpl; [|exact Hhr].
    destruct (jlt _ _); [exact Hhr|]. simpl.
    specialize (Udist Hdist). unfold jmul, jdiv; auto 12 with tssdb.
  - destruct (truthy (totalTime a)) eqn:Ht; simpl; [|exact Hhr].
    destruct (truthy (totalDistance a)) eqn:Hdist; simpl; [|exact Hhr].
    destruct (jlt _ _); [exact Hhr|]. simpl.
    specialize (Udist Hdist). unfold jmul, jdiv; auto 12 with tssdb.
Qed.

(** ** Pace strings *)

Lemma split_nonempty (sep : ascii) (s : string) : split sep s <> [].
Proof.
  destruct s as [|c s]; simpl; [discriminate|].
  destruct (Ascii.eqb c sep); [discriminate|].
  destruct (split sep s); discriminate.
Qed.

Lemma split_length (s : string) : length (split ":" s) = S (colons s).
Proof.
  induction s as [|c s IH]; simpl; [reflexivity|].
  destruct (Ascii.eqb c ":"); simpl; [congruence|].
  destruct (split ":" s) as [|p ps] eqn:Hs; [destruct (split_nonempty _ _ Hs)|].
  exact IH.
Qed.

Lemma arith_not_null (f : Q -> Q -> Q) (a b : jsval) : arith f a b <> Null.
Proof. unfold arith. destruct (toNumber a), (toNumber b); discriminate. Qed.

Lemma parsePace_null_iff (s : string) : parsePace s = Null <-> colons s <> 1%nat.
Proof.
  unfold parsePace. pose proof (split_length s) as Hlen.
  destruct (split ":" s) as [|p0 [|p1 [|p2 ps]]]; simpl in Hlen.
  - split; [lia | reflexivity].
  - split; [lia | reflexivity].
  - split; [intros H; destruct (arith_not_null _ _ _ H) | lia].
  - split; [lia | reflexivity].
Qed.

Lemma digit_char (c : ascii) (d : Z) :
  digitValue 10 c = Some d ->
  isWhiteSpace c = false /\ Ascii.eqb c "-" = false /\ Ascii.eqb c "+" = false /\
  Ascii.eqb c ":" = false /\ Ascii.eqb c "x" = false /\ Ascii.eqb c "X" = false.
Proof.
  destruct c as [[] [] [] [] [] [] [] []]; vm_compute; intros H; try discriminate H;
    repeat split.
Qed.

Lemma split_no_colon (s : string) : allDecimal s = true -> split ":" s = [s].
Proof.
  induction s as [|c s IH]; simpl; [reflexivity|].
  destruct (digitValue 10 c) as [d|] eqn:Hd; [|discriminate].
  intros Hs. apply digit_char in Hd as (_ & _ & _ & -> & _).
  rewrite (IH Hs). reflexivity.
Qed.

Lemma split_one_colon (m sec : string) :
  allDecimal m = true -> allDecimal sec = true ->
  split ":" (m ++ ":" ++ sec) = [m; sec].
Proof.
  intros Hm Hsec. induction m as [|c m IH].
  - change (split ":" ("" ++ ":" ++ sec)) with (EmptyString :: split ":" sec).
    rewrite (split_no_colon sec Hsec). reflexivity.
  - change (split ":" (String c m ++ ":" ++ sec)) with
      (if Ascii.eqb c ":" then EmptyString :: split ":" (m ++ ":" ++ sec)
       else match split ":" (m ++ ":" ++ sec) with
            | p :: ps => String c p :: ps
            | [] => [String c EmptyString]
            end).
    simpl in Hm. destruct (digitValue 10 c) as [d|] eqn:Hd; [|discriminate].
    apply digit_char in Hd as (_ & _ & _ & -> & _).
    rewrite (IH Hm). reflexivity.
Qed.

Lemma parseInt_decimal (s : string) :
  isIntegerPart s = true -> parseInt s = Num (inject_Z (decimalValue s)).
Proof.
  destruct s as [|c s]; [discriminate|]. intros Hs. simpl in Hs.
  destruct (digitValue 10 c) as [d|] eqn:Hd; [|discriminate].
  pose proof (digit_char c d Hd) as (Hws & Hminus & Hplus & _ & Hx & HX).
  unfold parseInt, decimalValue. cbn [trimStart]. rewrite Hws.
  unfold stripSign. rewrite Hminus, Hplus. cbn [fst snd].
  assert (stripPrefix (String c s) = (10%Z, String c s)) as ->.
  { unfold stripPrefix. destruct s as [|c1 s1]; [reflexivity|].
    simpl in Hs. destruct (digitValue 10 c1) as [d1|] eqn:Hd1; [|discriminate].
    apply digit_char in Hd1 as (_ & _ & _ & _ & -> & ->).
    rewrite andb_false_r. reflexivity. }
  cbn [fst snd leadingDigits]. rewrite Hd.
  rewrite Z.mul_1_l. reflexivity.
Qed.

Lemma isIntegerPart_allDecimal (s : string) :
  isIntegerPart s = true -> allDecimal s = true.
Proof. destruct s; [discriminate | auto]. Qed.

(** *** Parts that only start with an integer *)

Lemma append_empty_r (a : string) : (a ++ "")%string = a.
Proof.
  induction a as [|c a IH]; [reflexivity|].
  change (String c (a ++ "")%string = String c a). f_equal. exact IH.
Qed.

Lemma colons_app (a b : string) : colons (a ++ b) = (colons a + colons b)%nat.
Proof.
  induction a as [|c a IH]; [reflexivity|].
  simpl. destruct (Ascii.eqb c ":"); rewrite IH; reflexivity.
Qed.

Lemma colons_decimal (d : string) : allDecimal d = true -> colons d = 0%nat.
Proof.
  induction d as [|c d IH]; [reflexivity|]. cbn [allDecimal colons].
  destruct (digitValue 10 c) as [v|] eqn:Hv; [|discriminate].
  apply digit_char in Hv as (_ & _ & _ & -> & _). exact IH.
Qed.

Lemma ignoredTail_colons (r : string) : ignoredTail r = true -> colons r = 0%nat.
Proof.
  destruct r as [|c r]; [reflexivity|]. unfold ignoredTail.
  destruct (digitValue 10 c); [discriminate|].
  intros H. apply andb_true_iff in H as [_ H]. apply Nat.eqb_eq in H. exact H.
Qed.

Lemma split_colon_free (p0 : string) : colons p0 = 0%nat -> split ":" p0 = [p0].
Proof.
  induction p0 as [|c p0 IH]; [reflexivity|]. cbn [colons split].
  destruct (Ascii.eqb c ":"); [discriminate|].
  intros H. rewrite (IH H). reflexivity.
Qed.

Lemma split_two (p0 p1 : string) :
  colons p0 = 0%nat -> colons p1 = 0%nat -> split ":" (p0 ++ ":" ++ p1) = [p0; p1].
Proof.
  intros H0 H1. induction p0 as [|c p0 IH].
  - change (split ":" ("" ++ ":" ++ p1)) with (EmptyString :: split ":" p1).
    rewrite (split_colon_free p1 H1). reflexivity.
  - change (split ":" (String c p0 ++ ":" ++ p1)) with
      (if Ascii.eqb c ":" then EmptyString :: split ":" (p0 ++ ":" ++ p1)
       else match split ":" (p0 ++ ":" ++ p1) with
            | p :: ps => String c p :: ps
            | [] => [String c EmptyString]
            end).
    cbn [colons] in H0. destruct (Ascii.eqb c ":"); [discriminate|].
    rewrite (IH H0). reflexivity.
Qed.

Lemma leadingDigits_tail (d r : string) :
  allDecimal d = true -> ignoredTail r = true ->
  leadingDigits 10 (d ++ r) = leadingDigits 10 d.
Proof.
  intros Hd Hr. induction d as [|c d IH].
  - destruct r as [|c r]; [reflexivity|].
    change (EmptyString ++ String c r)%string with (String c r).
    cbn [leadingDigits]. unfold ignoredTail in Hr.
    destruct (digitValue 10 c); [discriminate | reflexivity].
  - change (String c d ++ r)%string with (String c (d ++ r)).
    cbn [leadingDigits allDecimal] in *.
    destruct (digitValue 10 c); [|discriminate]. rewrite (IH Hd). reflexivity.
Qed.

(** [parseInt] reads the decimal digits a part starts with and ignores
    what follows them. *)
Lemma parseInt_leading (d r : string) :
  isIntegerPart d = true -> ignoredTail r = true ->
  parseInt (d ++ r) = Num (inject_Z (decimalValue d)).
Proof.
  intros Hd Hr. pose proof (leadingDigits_tail d r (isIntegerPart_allDecimal d Hd) Hr) as Hl.
  destruct d as [|c d]; [discriminate|]. simpl in Hd.
  destruct (digitValue 10 c) as [v|] eqn:Hv; [|discriminate].
  pose proof (digit_char c v Hv) as (Hws & Hminus & Hplus & _ & Hx & HX).
  change (String c d ++ r)%string with (String c (d ++ r)) in *.
  unfold parseInt, decimalValue. cbn [trimStart]. rewrite Hws.
  unfold stripSign. rewrite Hminus, Hplus. cbn [fst snd].
  assert (stripPrefix (String c (d ++ r)) = (10%Z, String c (d ++ r))) as ->.
  { unfold stripPrefix. destruct d as [|c1 d1].
    - destruct r as [|c1 r1]; [reflexivity|].
      change (EmptyString ++ String c1 r1)%string with (String c1 r1).
      unfold ignoredTail in Hr. destruct (digitValue 10 c1); [discriminate|].
      apply andb_true_iff in Hr as [Hr _]. apply negb_true_iff in Hr.
      rewrite Hr, andb_false_r. reflexivity.
    - change (String c1 d1 ++ r)%string with (String c1 (d1 ++ r)). simpl in Hd.
      destruct (digitValue 10 c1) as [v1|] eqn:Hv1; [|discriminate].
      apply digit_char in Hv1 as (_ & _ & _ & _ & -> & ->).
      rewrite andb_false_r. reflexivity. }
  cbn [fst snd]. rewrite Hl.
  cbn [leadingDigits]. rewrite Hv. rewrite Z.mul_1_l. reflexivity.
Qed.

(** A part without a digit where [parseInt] looks for one: the empty part,
    or one that starts with a character that is neither white space, nor a
    sign, nor a decimal digit. *)
Lemma parseInt_no_digit (c : ascii) (r : string) :
  isWhiteSpace c = false -> Ascii.eqb c "-" = false -> Ascii.eqb c "+" = false ->
  digitValue 10 c = None ->
  parseInt "" = NaN /\ parseInt (String c r) = NaN.
Proof.
  intros Hws Hminus Hplus Hv. split; [reflexivity|].
  unfold parseInt. cbn [trimStart]. rewrite Hws.
  unfold stripSign. rewrite Hminus, Hplus. cbn [fst snd].
  assert (stripPrefix (String c r) = (10%Z, String c r)) as ->.
  { unfold stripPrefix. destruct r as [|c1 r1]; [reflexivity|].
    destruct (Ascii.eqb c "0") eqn:E0; [|reflexivity].
    apply Ascii.eqb_eq in E0. subst c. discriminate Hv. }
  cbn [fst snd leadingDigits]. rewrite Hv. reflexivity.
Qed.

Lemma arith_NaN (f : Q -> Q -> Q) (a b : jsval) :
  toNumber a = None \/ toNumber b = None -> arith f a b = NaN.
Proof.
  unfold arith. intros [H|H]; rewrite H; [reflexivity|].
  destruct (toNumber a); reflexivity.
Qed.

(** C8, as amended.  [parsePace] returns [null] exactly when the string
    does not hold exactly one separator; what is on either side is not
    checked.  With one separator the result is
    [parseInt(p0) * 60 + parseInt(p1)] for the two parts, never [null].
    When both parts are integer parts, that is minutes times sixty plus
    seconds, as long as this is at most [2 ^ 53]; the same holds when the
    digits of a part are followed by text that [parseInt] ignores.  When
    [parseInt] finds no digit at the start of one of the parts, as in an
    empty part or one that starts with a letter, the result is [NaN]. *)
Theorem parsePace_spec (s : string) :
  (parsePace s = Null <-> colons s <> 1%nat) /\
  (colons s = 1%nat ->
   exists p0 p1, split ":" s = [p0; p1] /\
     parsePace s = jadd (jmul (parseInt p0) (Num 60)) (parseInt p1)) /\
  (forall m sec : string,
     s = (m ++ ":" ++ sec)%string ->
     isIntegerPart m = true -> isIntegerPart sec = true ->
     (decimalValue m * 60 + decimalValue sec <= 2 ^ 53)%Z ->
     numeq (parsePace s) (inject_Z (decimalValue m * 60 + decimalValue sec))) /\
  (forall m r0 sec r1 : string,
     s = ((m ++ r0) ++ ":" ++ (sec ++ r1))%string ->
     isIntegerPart m = true -> isIntegerPart sec = true ->
     ignoredTail r0 = true -> ignoredTail r1 = true ->
     (decimalValue m * 60 + decimalValue sec <= 2 ^ 53)%Z ->
     numeq (parsePace s) (inject_Z (decimalValue m * 60 + decimalValue sec))) /\
  (forall p0 p1 : string,
     split ":" s = [p0; p1] ->
     parseInt p0 = NaN \/ parseInt p1 = NaN -> parsePace s = NaN) /\
  (forall (c : ascii) (r : string),
     isWhiteSpace c = false -> Ascii.eqb c "-" = false -> Ascii.eqb c "+" = false ->
     digitValue 10 c = None ->
     parseInt "" = NaN /\ parseInt (String c r) = NaN).
Proof.
  assert (forall m r0 sec r1 : string,
            s = ((m ++ r0) ++ ":" ++ (sec ++ r1))%string ->
            isIntegerPart m = true -> isIntegerPart sec = true ->
            ignoredTail r0 = true -> ignoredTail r1 = true ->
            numeq (parsePace s) (inject_Z (decimalValue m * 60 + decimalValue sec)))
    as Hparts.
  { intros m r0 sec r1 -> Hm Hsec Hr0 Hr1. unfold parsePace.
    rewrite split_two.
    2:{ rewrite colons_app, (colons_decimal m), (ignoredTail_colons r0);
          [reflexivity | exact Hr0 | apply isIntegerPart_allDecimal, Hm]. }
    2:{ rewrite colons_app, (colons_decimal sec), (ignoredTail_colons r1);
          [reflexivity | exact Hr1 | apply isIntegerPart_allDecimal, Hsec]. }
    rewrite (parseInt_leading m r0 Hm Hr0), (parseInt_leading sec r1 Hsec Hr1).
    unfold jadd, jmul, arith, numeq. cbn [toNumber].
    unfold Qeq, Qplus, Qmult, inject_Z. simpl. lia. }
  split; [apply parsePace_null_iff|]. split.
  { intros Hone. pose proof (split_length s) as Hlen. rewrite Hone in Hlen.
    unfold parsePace.
    destruct (split ":" s) as [|p0 [|p1 [|p2 ps]]]; try discriminate Hlen.
    exists p0, p1. split; reflexivity. }
  split.
  { intros m sec Hs Hm Hsec _. apply (Hparts m EmptyString sec EmptyString);
      try assumption; try reflexivity.
    rewrite Hs, !append_empty_r. reflexivity. }
  split.
  { intros m r0 sec r1 Hs Hm Hsec Hr0 Hr1 _. apply (Hparts m r0 sec r1); assumption. }
  split.
  { intros p0 p1 Hsplit Hnan. unfold parsePace. rewrite Hsplit.
    unfold jadd. apply arith_NaN. destruct Hnan as [H|H]; rewrite H; auto. }
  intros c r. apply parseInt_no_digit.
Qed.

Lemma parsePace_spec_witness :
  "4:16"%string = ("4" ++ ":" ++ "16")%string /\
  isIntegerPart "4" = true /\ isIntegerPart "16" = true /\
  (decimalValue "4" * 60 + decimalValue "16" <= 2 ^ 53)%Z /\
  numeq (parsePace "4:16") 256.
Proof.
  assert (decimalValue "4" * 60 + decimalValue "16" <= 2 ^ 53)%Z as Hb
    by (vm_compute; discriminate).
  split; [reflexivity|]. split; [reflexivity|]. split; [reflexivity|].
  split; [exact Hb|].
  apply (proj1 (proj2 (proj2 (parsePace_spec "4:16"))) "4"%string "16"%string);
    (reflexivity || exact Hb).
Defined.

(** C8 fails as stated: with one separator the result is never [null].
    ["4:xx"] gives [NaN], and ["4abc:30"], whose first part is not an
    integer, gives the number 270 read from the leading digits. *)
Lemma parsePace_number_for_non_integer_parts :
  colons "4:xx" = 1%nat /\ isIntegerPart "xx" = false /\ parsePace "4:xx" = NaN /\
  colons "4abc:30" = 1%nat /\ isIntegerPart "4abc" = false /\
  parsePace "4abc:30" = Num 270.
Proof. repeat split; reflexivity. Qed.

End TSSProofs.

(** * Dates in the local time zone *)

Module DateProofs.

Import PMC.
Local Open Scope Z_scope.

Lemma MS_PER_DAY_value : MS_PER_DAY = 86400000.
Proof. reflexivity. Qed.

Lemma HOUR_value : HOUR = 3600000.
Proof. reflexivity. Qed.

Lemma dayOf_startOfDay (d : day) : dayOf (startOfDay d) = d.
Proof. unfold dayOf, startOfDay. apply Z.div_mul. discriminate. Qed.

Lemma dayOf_mono (s t : Z) : s <= t -> dayOf s <= dayOf t.
Proof. intros H. unfold dayOf. apply Z.div_le_mono; [reflexivity | exact H]. Qed.

Lemma dayOf_shift (t k : Z) : dayOf (t + k * MS_PER_DAY) = dayOf t + k.
Proof. unfold dayOf. apply Z.div_add. discriminate. Qed.

Lemma dayOf_next (t : Z) : dayOf (t + MS_PER_DAY) = dayOf t + 1.
Proof.
  replace (t + MS_PER_DAY) with (t + 1 * MS_PER_DAY) by lia. apply dayOf_shift.
Qed.

(** A step is the 24 hours of a day, give or take the hour of a clock
    change. *)
Lemma setDateNext_bounds (tz : zone) (t : Z) :
  t + MS_PER_DAY - HOUR <= setDateNext tz t <= t + MS_PER_DAY + HOUR.
Proof.
  unfold setDateNext, UTC, LocalTime, LocalTZA.
  destruct (inSummer tz t), (inSummer tz _);
    rewrite MS_PER_DAY_value, HOUR_value; lia.
Qed.

Lemma setDateNext_fixed (offset t : Z) :
  setDateNext {| standard := offset; summers := [] |} t = t + MS_PER_DAY.
Proof. unfold setDateNext, UTC, LocalTime, LocalTZA, inSummer. simpl. lia. Qed.

Lemma steady_fixed (offset a b : Z) :
  steady {| standard := offset; summers := [] |} a b.
Proof. intros t _. apply setDateNext_fixed. Qed.

Lemma steady_utc (a b : Z) : steady utc a b.
Proof. apply steady_fixed. Qed.

Lemma steady_within (tz : zone) (a b a' b' : Z) :
  steady tz a b -> a <= a' -> b' <= b -> steady tz a' b'.
Proof. intros H Ha Hb t Ht. apply H. lia. Qed.

(** In Europe/Rome the steps from 1 April to 25 October 2024 are all within
    summer time. *)
Lemma steady_rome_summer_2024 :
  steady europeRome2024 (startOfDay 19814) (startOfDay 20021).
Proof.
  intros t [Ha Hb]. unfold startOfDay in Ha, Hb. rewrite MS_PER_DAY_value in Ha, Hb.
  assert (forall u, startOfDay 19813 + HOUR <= u < startOfDay 20023 + HOUR ->
            inSummer europeRome2024 u = true) as Hsummer.
  { intros u [H1 H2]. unfold inSummer, europeRome2024. cbn [summers existsb fst snd].
    apply orb_true_iff. left. apply andb_true_iff.
    split; [apply Z.leb_le, H1 | apply Z.ltb_lt, H2]. }
  unfold setDateNext, UTC, LocalTime, LocalTZA.
  rewrite (Hsummer t), Hsummer.
  - lia.
  - change (standard europeRome2024) with HOUR. unfold startOfDay.
    rewrite MS_PER_DAY_value, HOUR_value. lia.
  - unfold startOfDay. rewrite MS_PER_DAY_value, HOUR_value. lia.
Qed.

(** ** The loop over the days *)

(** Every day the loop produces lies between the day of [current] and the
    day of [endTime]. *)
Lemma dateLoop_within (tz : zone) (endTime : Z) (fuel : nat) :
  forall (current : Z) (d : day),
    d ∈ dateLoop fuel tz current endTime -> dayOf current <= d <= dayOf endTime.
Proof.
  induction fuel as [|fuel IH]; intros current d Hd; cbn [dateLoop] in Hd.
  - destruct (current <=? endTime); inversion Hd.
  - destruct (current <=? endTime) eqn:E; [apply Z.leb_le in E | inversion Hd].
    apply elem_of_cons in Hd as [->|Hd]; [split; [lia | apply dayOf_mono, E]|].
    apply IH in Hd. pose proof (setDateNext_bounds tz current) as Hb.
    rewrite MS_PER_DAY_value, HOUR_value in Hb.
    pose proof (dayOf_mono current (setDateNext tz current) ltac:(lia)). lia.
Qed.

(** The loop ends by its test, not for lack of fuel: more fuel gives the
    same days. *)
Lemma dateLoop_fuel (tz : zone) (endTime : Z) (fuel : nat) :
  forall (current : Z) (extra : nat),
    2 * (endTime - current) < Z.of_nat fuel * MS_PER_DAY ->
    dateLoop (fuel + extra) tz current endTime = dateLoop fuel tz current endTime.
Proof.
  induction fuel as [|fuel IH]; intros current extra Hf.
  - cbn [dateLoop Nat.add].
    destruct (current <=? endTime) eqn:E; [apply Z.leb_le in E; lia|].
    destruct extra; cbn [dateLoop]; rewrite E; reflexivity.
  - cbn [dateLoop Nat.add]. destruct (current <=? endTime); [|reflexivity].
    f_equal. apply IH. pose proof (setDateNext_bounds tz current) as Hb.
    rewrite MS_PER_DAY_value, HOUR_value in *. lia.
Qed.

(** Where no clock change interferes the loop produces the consecutive
    days. *)
Lemma dateLoop_steady (tz : zone) (endTime : Z) (fuel : nat) :
  forall (current n : Z),
    0 <= n -> (Z.to_nat n <= fuel)%nat ->
    (n = 0 \/ current + (n - 1) * MS_PER_DAY <= endTime) ->
    endTime < current + n * MS_PER_DAY ->
    steady tz current endTime ->
    dateLoop fuel tz current endTime = seqZ (dayOf current) n.
Proof.
  assert (0 < MS_PER_DAY) as HD by reflexivity.
  induction fuel as [|fuel IH]; intros current n Hn Hfuel Hlast Hend Hst.
  - assert (n = 0) as -> by lia. cbn [dateLoop].
    destruct (current <=? endTime) eqn:E; [apply Z.leb_le in E; lia | reflexivity].
  - cbn [dateLoop]. destruct (current <=? endTime) eqn:E;
      [apply Z.leb_le in E | apply Z.leb_gt in E].
    + assert (0 < n) as Hpos by nia.
      rewrite (Hst current) by lia.
      rewrite (IH _ (n - 1)) by
        (try lia; try nia; intros t Ht; apply Hst; lia).
      rewrite (seqZ_cons (dayOf current) n Hpos), dayOf_next.
      replace (Z.succ (dayOf current)) with (dayOf current + 1) by lia.
      replace (Z.pred n) with (n - 1) by lia. reflexivity.
    + assert (n = 0) as -> by nia. reflexivity.
Qed.

Lemma generateDateRange_within (tz : zone) (startDate endDate d : day) :
  d ∈ generateDateRange tz startDate endDate -> startDate <= d <= endDate.
Proof.
  intros Hd. apply dateLoop_within in Hd. rewrite !dayOf_startOfDay in Hd. exact Hd.
Qed.

Lemma generateDateRange_empty (tz : zone) (startDate endDate : day) :
  endDate < startDate -> generateDateRange tz startDate endDate = [].
Proof.
  intros H. unfold generateDateRange.
  assert ((startOfDay startDate <=? startOfDay endDate) = false) as E.
  { apply Z.leb_gt. unfold startOfDay. rewrite MS_PER_DAY_value. lia. }
  destruct (Z.to_nat _); cbn [dateLoop]; rewrite E; reflexivity.
Qed.

Lemma generateDateRange_steady (tz : zone) (startDate endDate : day) :
  steady tz (startOfDay startDate) (startOfDay endDate) ->
  generateDateRange tz startDate endDate = seqZ startDate (endDate - startDate + 1).
Proof.
  intros Hst. destruct (Z_lt_le_dec endDate startDate) as [Hlt|Hle].
  - rewrite generateDateRange_empty by exact Hlt.
    symmetry. apply seqZ_nil. lia.
  - unfold generateDateRange.
    rewrite (dateLoop_steady tz _ _ _ (endDate - startDate + 1));
      try (unfold startOfDay; rewrite MS_PER_DAY_value; lia); try lia; try exact Hst.
    rewrite dayOf_startOfDay. reflexivity.
Qed.

Lemma generateDateRange_one (tz : zone) (d : day) : generateDateRange tz d d = [d].
Proof.
  unfold generateDateRange. replace (2 * (d - d) + 2) with 2 by lia.
  change (Z.to_nat 2) with 2%nat. cbn [dateLoop].
  rewrite Z.leb_refl, dayOf_startOfDay.
  pose proof (setDateNext_bounds tz (startOfDay d)) as Hb.
  rewrite MS_PER_DAY_value, HOUR_value in Hb.
  destruct (setDateNext tz (startOfDay d) <=? startOfDay d) eqn:E;
    [apply Z.leb_le in E; lia | reflexivity].
Qed.

(** Whatever the zone, a range that does not end before it starts begins
    with its first day. *)
Lemma generateDateRange_head (tz : zone) (startDate endDate : day) :
  startDate <= endDate ->
  head (generateDateRange tz startDate endDate) = Some startDate.
Proof.
  intros H. unfold generateDateRange.
  destruct (Z.to_nat (2 * (endDate - startDate) + 2)) as [|fuel] eqn:Hf; [lia|].
  cbn [dateLoop].
  assert ((startOfDay startDate <=? startOfDay endDate) = true) as ->.
  { apply Z.leb_le. unfold startOfDay. rewrite MS_PER_DAY_value. lia. }
  cbn [head]. rewrite dayOf_startOfDay. reflexivity.
Qed.

(** The fuel of [generateDateRange] is enough. *)
Lemma generateDateRange_fuel (tz : zone) (startDate endDate : day) (extra : nat) :
  dateLoop (Z.to_nat (2 * (endDate - startDate) + 2) + extra) tz
    (startOfDay startDate) (startOfDay endDate) =
  generateDateRange tz startDate endDate.
Proof.
  destruct (Z_lt_le_dec endDate startDate) as [Hlt|Hle].
  - rewrite generateDateRange_empty by exact Hlt.
    assert ((startOfDay startDate <=? startOfDay endDate) = false) as E.
    { apply Z.leb_gt. unfold startOfDay. rewrite MS_PER_DAY_value. lia. }
    destruct (_ + extra)%nat; cbn [dateLoop]; rewrite E; reflexivity.
  - apply dateLoop_fuel. unfold startOfDay. rewrite MS_PER_DAY_value. lia.
Qed.

(** ** Two ranges across the clock changes of 2024 in Rome *)

(** From 30 March to 2 April the day after the change is produced twice
    and the last day is missing; from 26 to 29 October the last day is
    missing. *)
Lemma rome_spring_2024 :
  generateDateRange europeRome2024 19812 19815 = [19812; 19813; 19813; 19814].
Proof. vm_compute. reflexivity. Qed.

Lemma rome_autumn_2024 :
  generateDateRange europeRome2024 20022 20025 = [20022; 20023; 20024] /\
  generateDateRange europeRome2024 20022 20026 = [20022; 20023; 20024; 20025].
Proof. split; vm_compute; reflexivity. Qed.

End DateProofs.

(** * Properties of the PMC engine *)

Module PMCProofs.

Import PMC DateProofs.
Local Open Scope R_scope.

(** ** Rounding *)

Lemma Math_round_eq (x : R) (z : Z) :
  IZR z - / 2 <= x < IZR z + / 2 -> Math_round x = IZR z.
Proof.
  intros [Hlo Hhi]. unfold Math_round. f_equal. symmetry.
  apply Int_part_spec. lra.
Qed.

Lemma round1_0 : round1 0 = 0.
Proof.
  unfold round1. rewrite (Math_round_eq (0 * 10) 0); lra.
Qed.

(** ** The decay factors *)

(** [exp (-1/tau)] is the [n]-th power of [exp (-1/(n tau))], and
    [1 - u < exp (-u) < 1 / (1 + u)]: with [n = 64] the two bounds are
    rationals less than [2e-4] apart. *)
Lemma exp_nat_mul (n : nat) (x : R) : exp (INR n * x) = exp x ^ n.
Proof.
  induction n as [|n IH].
  - simpl. rewrite Rmult_0_l. apply exp_0.
  - rewrite S_INR, Rmult_plus_distr_r, Rmult_1_l, exp_plus, IH. simpl. ring.
Qed.

Lemma exp_neg_bounds (u : R) :
  0 < u -> 1 - u < exp (- u) < / (1 + u).
Proof.
  intros Hu. split.
  - pose proof (exp_ineq1 (- u) ltac:(lra)). lra.
  - rewrite exp_Ropp. apply Rinv_lt_contravar.
    + apply Rmult_lt_0_compat; [lra | apply exp_pos].
    + apply exp_ineq1. lra.
Qed.

Lemma exp_neg_pow_bounds (n : nat) (u : R) :
  0 < u < 1 ->
  (1 - u) ^ n <= exp (- (INR n * u)) <= (/ (1 + u)) ^ n.
Proof.
  intros [Hu0 Hu1].
  replace (- (INR n * u)) with (INR n * - u) by ring.
  rewrite exp_nat_mul. destruct (exp_neg_bounds u Hu0) as [Hlo Hhi].
  split; apply pow_incr; split; lra.
Qed.

Lemma ctlDecay_bounds : 0.97646 < ctlDecay < 0.97648.
Proof.
  unfold ctlDecay, CTL_DECAY.
  replace (-1 / 42) with (- (INR 64 * / 2688)).
  2:{ rewrite INR_IZR_INZ. simpl. field. }
  destruct (exp_neg_pow_bounds 64 (/ 2688)) as [Hlo Hhi]; [lra|].
  assert (0.97646 < (1 - / 2688) ^ 64) by lra.
  assert ((/ (1 + / 2688)) ^ 64 < 0.97648).
  { replace (/ (1 + / 2688)) with (2688 / 2689) by (field; lra). lra. }
  lra.
Qed.

Lemma atlDecay_bounds : 0.8667 < atlDecay < 0.86705.
Proof.
  unfold atlDecay, ATL_DECAY.
  replace (-1 / 7) with (- (INR 64 * / 448)).
  2:{ rewrite INR_IZR_INZ. simpl. field. }
  destruct (exp_neg_pow_bounds 64 (/ 448)) as [Hlo Hhi]; [lra|].
  assert (0.8667 < (1 - / 448) ^ 64) by lra.
  assert ((/ (1 + / 448)) ^ 64 < 0.86705).
  { replace (/ (1 + / 448)) with (448 / 449) by (field; lra). lra. }
  lra.
Qed.

(** ** The loop *)

Lemma pmcLoop_dates (ledger : gmap Z R) (days : list day) :
  forall c a data, date <$> (pmcLoop ledger days c a data).1 = days.
Proof.
  induction days as [|d days IH]; intros c a data; simpl; [reflexivity|].
  f_equal. apply IH.
Qed.

Lemma pmcLoop_lookup (ledger : gmap Z R) (days : list day) :
  forall c a data (i : nat) (e : PMCEntry),
    (pmcLoop ledger days c a data).1 !! i = Some e ->
    let before := fold_left (foldDay ledger) (take i days) (c, a) in
    let after := foldDay ledger before (date e) in
    days !! i = Some (date e) /\ tss e = getTSS ledger (date e) /\
    tsb e = round1 (before.1 - before.2) /\
    ctl e = round1 after.1 /\ atl e = round1 after.2.
Proof.
  induction days as [|d days IH]; intros c a data i e Hi; [destruct i; discriminate|].
  destruct i as [|i].
  - simpl in Hi. injection Hi as <-. simpl. auto.
  - simpl in Hi. apply IH in Hi. exact Hi.
Qed.

Lemma pmcLoop_app (ledger : gmap Z R) (days1 days2 : list day) :
  forall c a data,
    (pmcLoop ledger (days1 ++ days2) c a data).1 =
    (pmcLoop ledger days1 c a data).1 ++
    (pmcLoop ledger days2
       (fold_left (foldDay ledger) days1 (c, a)).1
       (fold_left (foldDay ledger) days1 (c, a)).2
       (pmcLoop ledger days1 c a data).2).1.
Proof.
  induction days1 as [|d days1 IH]; intros c a data; simpl; [reflexivity|].
  f_equal. apply IH.
Qed.

(** ** Filtering the entries by date *)

Lemma filter_keeps_all (T : day) (l : list PMCEntry) :
  Forall (fun d => (d <= T)%Z) (date <$> l) ->
  filter (fun en => (date en <= T)%Z) l = l.
Proof.
  induction l as [|x l IH]; intros H; [reflexivity|].
  inversion H as [|? ? Hx Hl]; subst.
  rewrite filter_cons_True by exact Hx. f_equal. apply IH, Hl.
Qed.

Lemma filter_drops_all (T : day) (l : list PMCEntry) :
  Forall (fun d => (T < d)%Z) (date <$> l) ->
  filter (fun en => (date en <= T)%Z) l = [].
Proof.
  induction l as [|x l IH]; intros H; [reflexivity|].
  inversion H as [|? ? Hx Hl]; subst. cbv beta in Hx.
  rewrite filter_cons_False by (apply Z.lt_nge, Hx). apply IH, Hl.
Qed.

Lemma sortedDates_empty : sortedDates ∅ = [].
Proof. unfold sortedDates. rewrite map_to_list_empty. reflexivity. Qed.

Lemma sortedDates_singleton (d : day) (t : R) : sortedDates (<[d := t]> ∅) = [d].
Proof.
  unfold sortedDates. rewrite insert_empty, map_to_list_singleton. reflexivity.
Qed.

(** ** Statements about the engine *)



(** X29.  When no clock change of the local zone touches the range,
    computing from the earliest ledger day up to [T + k] and keeping the
    entries dated [T] or before gives the entries of the computation up to
    [T]. *)
Theorem range_superset (tz : zone) (st : engine) (earliest T k today : day) :
  head (sortedDates (dailyTSS st)) = Some earliest ->
  (earliest <= T)%Z -> (0 <= k)%Z ->
  steady tz (startOfDay earliest) (startOfDay (T + k)) ->
  filter (fun en => (date en <= T)%Z)
    (calculate tz (Some earliest) (Some (T + k)%Z) today st).1 =
  (calculate tz (Some earliest) (Some T) today st).1.
Proof.
  intros Hhead HT Hk Hst. unfold calculate.
  destruct (sortedDates (dailyTSS st)) as [|e0 rest]; [discriminate|].
  simpl. rewrite (generateDateRange_steady tz earliest (T + k) Hst).
  rewrite (generateDateRange_steady tz earliest T).
  2:{ intros t Ht. apply Hst. unfold startOfDay in *.
      rewrite MS_PER_DAY_value in *. lia. }
  replace (T + k - earliest + 1)%Z with ((T - earliest + 1) + k)%Z by lia.
  rewrite seqZ_app by lia. rewrite pmcLoop_app, filter_app.
  rewrite filter_keeps_all, filter_drops_all.
  - apply app_nil_r.
  - rewrite pmcLoop_dates. apply Forall_forall. intros d Hd.
    apply elem_of_seqZ in Hd. lia.
  - rewrite pmcLoop_dates. apply Forall_forall. intros d Hd.
    apply elem_of_seqZ in Hd. lia.
Qed.

Lemma range_superset_witness :
  let st := setDailyTSS 19900 100 newEngine in
  head (sortedDates (dailyTSS st)) = Some 19900%Z /\
  (19900 <= 19901)%Z /\ (0 <= 2)%Z /\
  steady europeRome2024 (startOfDay 19900) (startOfDay (19901 + 2)) /\
  filter (fun en => (date en <= 19901)%Z)
    (calculate europeRome2024 (Some 19900%Z) (Some (19901 + 2)%Z) 19903 st).1 =
  (calculate europeRome2024 (Some 19900%Z) (Some 19901%Z) 19903 st).1.
Proof.
  cbv zeta.
  assert (head (sortedDates (dailyTSS (setDailyTSS 19900 100 newEngine))) =
          Some 19900%Z) as H by exact (f_equal head (sortedDates_singleton 19900 100)).
  assert (steady europeRome2024 (startOfDay 19900) (startOfDay (19901 + 2))) as Hst.
  { apply (steady_within _ _ _ _ _ steady_rome_summer_2024);
      unfold startOfDay; rewrite MS_PER_DAY_value; lia. }
  split; [exact H|]. split; [lia|]. split; [lia|]. split; [exact Hst|].
  apply (range_superset europeRome2024 (setDailyTSS 19900 100 newEngine)
           19900 19901 2 19903 H); [lia | lia | exact Hst].
Defined.

(** C6 fails on the code.  In Europe/Rome, with a ledger whose only day is
    26 October 2024 (day 20022), the computation up to [T], 29 October,
    steps over the clock change of 27 October and returns entries for the
    26th, 27th and 28th only, while the computation up to [T + 1] returns
    one for the 29th as well: the entries dated [T] or before differ. *)
Theorem range_superset_fails_across_clock_change :
  let st := setDailyTSS 20022 100 newEngine in
  let T := 20025%Z in
  head (sortedDates (dailyTSS st)) = Some 20022%Z /\
  date <$> (calculate europeRome2024 (Some 20022%Z) (Some T) T st).1 =
    [20022; 20023; 20024]%Z /\
  date <$> filter (fun en => (date en <= T)%Z)
             (calculate europeRome2024 (Some 20022%Z) (Some (T + 1)%Z) T st).1 =
    [20022; 20023; 20024; 20025]%Z /\
  filter (fun en => (date en <= T)%Z)
    (calculate europeRome2024 (Some 20022%Z) (Some (T + 1)%Z) T st).1 <>
  (calculate europeRome2024 (Some 20022%Z) (Some T) T st).1.
Proof.
  cbv zeta.
  assert (sortedDates (dailyTSS (setDailyTSS 20022 100 newEngine)) = [20022%Z]) as Hs
    by apply sortedDates_singleton.
  assert (date <$> (calculate europeRome2024 (Some 20022%Z) (Some 20025%Z) 20025
                      (setDailyTSS 20022 100 newEngine)).1 = [20022; 20023; 20024]%Z)
    as Hshort.
  { unfold calculate. rewrite Hs. cbn [fst default]. unfold Datatypes.id.
    rewrite pmcLoop_dates. apply rome_autumn_2024. }
  assert (date <$> filter (fun en => (date en <= 20025)%Z)
                     (calculate europeRome2024 (Some 20022%Z) (Some (20025 + 1)%Z) 20025
                        (setDailyTSS 20022 100 newEngine)).1 =
          [20022; 20023; 20024; 20025]%Z) as Hlong.
  { rewrite filter_keeps_all.
    - unfold calculate. rewrite Hs. cbn [fst default]. unfold Datatypes.id.
      rewrite pmcLoop_dates. apply rome_autumn_2024.
    - unfold calculate. rewrite Hs. cbn [fst default]. unfold Datatypes.id.
      rewrite pmcLoop_dates. change (20025 + 1)%Z with 20026%Z.
      rewrite (proj2 rome_autumn_2024). repeat constructor; lia. }
  split; [rewrite Hs; reflexivity|]. split; [exact Hshort|]. split; [exact Hlong|].
  intros Heq. rewrite Heq, Hshort in Hlong. discriminate Hlong.
Qed.

(** C10.  With an empty ledger [calculate] returns no entry and leaves
    [pmcData] as it was, whatever range is asked for. *)
Theorem empty_ledger_no_entries (tz : zone) (startDate endDate : option day)
    (today : day) (data : gmap Z PMCEntry) :
  calculate tz startDate endDate today {| dailyTSS := ∅; pmcData := data |} =
  ([], {| dailyTSS := ∅; pmcData := data |}).
Proof.
  unfold calculate. cbn [dailyTSS]. rewrite sortedDates_empty. reflexivity.
Qed.

(** ** The first day of a ledger *)

Lemma single_day_entry (tz : zone) (d today : day) :
  (calculate tz (Some d) (Some d) today (setDailyTSS d 100 newEngine)).1 =
  [ {| date := d; tss := 100;
       ctl := round1 (0 * ctlDecay + 100 * (1 - ctlDecay));
       atl := round1 (0 * atlDecay + 100 * (1 - atlDecay));
       tsb := round1 (0 - 0) |} ].
Proof.
  unfold calculate, setDailyTSS, newEngine. cbn [dailyTSS pmcData].
  rewrite sortedDates_singleton. simpl. rewrite generateDateRange_one.
  cbn [pmcLoop fst snd]. unfold getTSS. rewrite lookup_insert_eq. reflexivity.
Qed.

Lemma round1_ctl_first_day : round1 (0 * ctlDecay + 100 * (1 - ctlDecay)) = 2.4.
Proof.
  pose proof ctlDecay_bounds. unfold round1.
  rewrite (Math_round_eq _ 24); lra.
Qed.

Lemma round1_atl_first_day : round1 (0 * atlDecay + 100 * (1 - atlDecay)) = 13.3.
Proof.
  pose proof atlDecay_bounds. unfold round1.
  rewrite (Math_round_eq _ 133); lra.
Qed.

(** C7, as amended.  From [ctl = atl = 0], a ledger whose only day has a
    TSS of 100 yields for that day the entry with [tsb = 0], [ctl = 2.4] and
    [atl = 13.3]; before rounding to one decimal the accumulators are
    about 2.353 and 13.31. *)
Theorem first_day_entry (tz : zone) (d today : day) :
  let st := setDailyTSS d 100 newEngine in
  let raw := accumulators (dailyTSS st) [d] in
  (calculate tz (Some d) (Some d) today st).1 =
    [ {| date := d; tss := 100; ctl := 2.4; atl := 13.3; tsb := 0 |} ] /\
  2.352 < raw.1 < 2.354 /\ 13.29 < raw.2 < 13.34.
Proof.
  cbv zeta. split.
  - rewrite single_day_entry, round1_ctl_first_day, round1_atl_first_day.
    replace (0 - 0) with 0 by ring. rewrite round1_0. reflexivity.
  - unfold accumulators, setDailyTSS, newEngine, foldDay, getTSS. cbn [dailyTSS fold_left].
    rewrite lookup_insert_eq. simpl.
    pose proof ctlDecay_bounds. pose proof atlDecay_bounds. lra.
Qed.

(** C7 fails as stated: the stored values of the first day are 2.4 and
    13.3, neither within half a hundredth of 2.34 and 13.08, and the
    accumulators before rounding are not either. *)
Lemma first_day_not_2_34_13_08 :
  let st := setDailyTSS 0 100 newEngine in
  let raw := accumulators (dailyTSS st) [0%Z] in
  exists e,
    (calculate utc (Some 0%Z) (Some 0%Z) 0 st).1 = [e] /\
    ~ approx2 (ctl e) 2.34 /\ ~ approx2 (atl e) 13.08 /\
    ~ approx2 raw.1 2.34 /\ ~ approx2 raw.2 13.08.
Proof.
  cbv zeta. eexists. split; [apply single_day_entry|]. cbn [ctl atl].
  rewrite round1_ctl_first_day, round1_atl_first_day.
  unfold approx2, accumulators, setDailyTSS, newEngine, foldDay, getTSS.
  cbn [dailyTSS fold_left]. rewrite lookup_insert_eq. simpl.
  pose proof ctlDecay_bounds. pose proof atlDecay_bounds.
  repeat split; intros Habs; apply Rabs_def2 in Habs; lra.
Qed.

End PMCProofs.

(** * Further properties of the FIT decoder *)

Module FITMore.

Import FIT FITProofs.
Local Open Scope Z_scope.

(** ** The values a field can take *)

Lemma lor_below (a b n : Z) :
  0 <= n -> 0 <= a < 2 ^ n -> 0 <= b < 2 ^ n -> 0 <= Z.lor a b < 2 ^ n.
Proof.
  intros Hn [Ha0 Ha] [Hb0 Hb]. split; [apply Z.lor_nonneg; auto|].
  destruct (Z.eq_dec (Z.lor a b) 0) as [->|Hne]; [apply Z.pow_pos_nonneg; lia|].
  assert (0 < Z.lor a b) as Hpos.
  { pose proof (proj2 (Z.lor_nonneg a b) (conj Ha0 Hb0)). lia. }
  apply Z.log2_lt_pow2; [exact Hpos|]. rewrite Z.log2_lor by assumption.
  destruct (Z.eq_dec a 0) as [->|Ha'], (Z.eq_dec b 0) as [->|Hb'].
  - exfalso. apply Hne. reflexivity.
  - rewrite Z.max_r by (simpl; apply Z.log2_nonneg). apply Z.log2_lt_pow2; lia.
  - rewrite Z.max_l by (simpl; apply Z.log2_nonneg). apply Z.log2_lt_pow2; lia.
  - apply Z.max_lub_lt; apply Z.log2_lt_pow2; lia.
Qed.

Lemma shiftl_below (b k n : Z) :
  0 <= k -> 0 <= b < 2 ^ n -> 0 <= n -> 0 <= Z.shiftl b k < 2 ^ (n + k).
Proof.
  intros Hk [Hb0 Hb] Hn. rewrite Z.shiftl_mul_pow2 by exact Hk.
  rewrite Z.pow_add_r by assumption.
  assert (0 < 2 ^ k) by (apply Z.pow_pos_nonneg; lia). nia.
Qed.

Lemma getUint16_range (dv : DataView) (off : Z) (le : bool) (n : Z) :
  getUint16 dv off le = inr n -> 0 <= n < 65536.
Proof.
  unfold getUint16. intros H.
  bind_inv H as b0 H0. bind_inv H as b1 H1. injection H as <-.
  apply getUint8_inr in H0 as [_ H0]. apply getUint8_inr in H1 as [_ H1].
  change 65536 with (2 ^ 16).
  pose proof (shiftl_below b0 8 8) as S0. pose proof (shiftl_below b1 8 8) as S1.
  change (2 ^ 8) with 256 in S0, S1. change (2 ^ (8 + 8)) with (2 ^ 16) in S0, S1.
  destruct le; apply lor_below; try lia; change (2 ^ 16) with 65536; lia.
Qed.

Lemma getUint32_range (dv : DataView) (off : Z) (le : bool) (n : Z) :
  getUint32 dv off le = inr n -> 0 <= n < 4294967296.
Proof.
  unfold getUint32. intros H.
  bind_inv H as b0 H0. bind_inv H as b1 H1. bind_inv H as b2 H2. bind_inv H as b3 H3.
  injection H as <-.
  apply getUint8_inr in H0 as [_ H0]. apply getUint8_inr in H1 as [_ H1].
  apply getUint8_inr in H2 as [_ H2]. apply getUint8_inr in H3 as [_ H3].
  change 4294967296 with (2 ^ 32).
  assert (forall b k, 0 <= b < 256 -> 0 <= k <= 24 -> 0 <= Z.shiftl b k < 2 ^ 32) as Hs.
  { intros b k Hb Hk. rewrite Z.shiftl_mul_pow2 by lia.
    assert (0 < 2 ^ k) by (apply Z.pow_pos_nonneg; lia).
    assert (2 ^ k <= 2 ^ 24) by (apply Z.pow_le_mono_r; lia).
    change (2 ^ 32) with (256 * 2 ^ 24). nia. }
  assert (forall b, 0 <= b < 256 -> 0 <= b < 2 ^ 32) as Hb by (intros; simpl; lia).
  destruct le; repeat apply lor_below; auto; try lia; apply Hs; lia.
Qed.

Lemma readBytes_inr (dv : DataView) (n : nat) :
  forall off bs, readBytes dv off n = inr bs ->
    length bs = n /\ Forall (fun b => 0 <= b < 256) bs.
Proof.
  induction n as [|n IH]; intros off bs H; simpl in H.
  - injection H as <-. split; [reflexivity | constructor].
  - bind_inv H as b Hb. bind_inv H as rest Hrest. injection H as <-.
    apply IH in Hrest as [Hlen Hall]. apply getUint8_inr in Hb as [_ Hb].
    split; [simpl; lia | constructor; assumption].
Qed.

(** X1.  What [readFieldValue] can return.  A one-byte field is a number
    in 0..255, a two-byte field a number in 0..65535, a four-byte field a
    number in the signed 32-bit range when the base type is 0x85 or 0x84 and
    in the unsigned 32-bit range otherwise; any other width gives the raw
    bytes, as many as the width says, each in 0..255.  Nothing else is
    returned but [null]. *)
Theorem readFieldValue_range (dv : DataView) (off : Z) (f : field) (le : bool) :
  match readFieldValue dv off f le with
  | VNull => True
  | VNum n =>
      (size f = 1 /\ 0 <= n < 256) \/
      (size f = 2 /\ 0 <= n < 65536) \/
      (size f = 4 /\
       if (type f =? 0x85) || (type f =? 0x84)
       then - 2147483648 <= n < 2147483648
       else 0 <= n < 4294967296)
  | VBytes bs =>
      size f <> 1 /\ size f <> 2 /\ size f <> 4 /\
      length bs = Z.to_nat (size f) /\ Forall (fun b => 0 <= b < 256) bs
  end.
Proof.
  unfold readFieldValue. rewrite size_switch.
  destruct (size f =? 1) eqn:E1; [apply Z.eqb_eq in E1|apply Z.eqb_neq in E1].
  { destruct (getUint8 dv off) as [e|n] eqn:Hn; simpl; [exact I|].
    apply getUint8_inr in Hn. left. tauto. }
  destruct (size f =? 2) eqn:E2; [apply Z.eqb_eq in E2|apply Z.eqb_neq in E2].
  { destruct (getUint16 dv off le) as [e|n] eqn:Hn; simpl; [exact I|].
    apply getUint16_range in Hn. right. left. tauto. }
  destruct (size f =? 4) eqn:E4; [apply Z.eqb_eq in E4|apply Z.eqb_neq in E4].
  { destruct ((type f =? 133) || (type f =? 132))%bool eqn:Hsigned.
    - unfold getInt32. destruct (getUint32 dv off le) as [e|u] eqn:Hu; simpl; [exact I|].
      apply getUint32_range in Hu. right. right. split; [exact E4|].
      destruct (2147483648 <=? u) eqn:Hcmp;
        [apply Z.leb_le in Hcmp | apply Z.leb_gt in Hcmp]; lia.
    - destruct (getUint32 dv off le) as [e|u] eqn:Hu; simpl; [exact I|].
      apply getUint32_range in Hu. right. right. tauto. }
  destruct (readBytes dv off (Z.to_nat (size f))) as [e|bs] eqn:Hbs; simpl; [exact I|].
  apply readBytes_inr in Hbs. tauto.
Qed.

(** ** What a message consumes *)

Lemma readFieldDefs_fields (dv : DataView) (n : nat) :
  forall off fs off',
    readFieldDefs dv off n = inr (fs, off') ->
    length fs = n /\
    forall (i : nat) (f : field), fs !! i = Some f ->
      getUint8 dv (off + 3 * Z.of_nat i) = inr (num f) /\
      getUint8 dv (off + 3 * Z.of_nat i + 1) = inr (size f) /\
      getUint8 dv (off + 3 * Z.of_nat i + 2) = inr (type f).
Proof.
  induction n as [|n IH]; intros off fs off' H; simpl in H.
  - injection H as <- <-. split; [reflexivity|]. intros i f Hi. destruct i; discriminate.
  - bind_inv H as fnum Hnum. bind_inv H as fsize Hsize. bind_inv H as ftype Htype.
    bind_inv H as rest Hrest. destruct rest as [fs0 off0]. injection H as <- <-.
    apply IH in Hrest as [Hlen Hfs]. split; [simpl; lia|].
    intros [|i] f Hi.
    + injection Hi as <-. simpl. rewrite Z.add_0_r. auto.
    + simpl in Hi. apply Hfs in Hi.
      replace (off + 3 * Z.of_nat (S i)) with (off + 3 + 3 * Z.of_nat i) by lia.
      exact Hi.
Qed.

(** X2.  A definition message that is decoded without error stores, in
    the slot named by the low four bits of its record header, the global
    message number, the byte order and the field list read from the buffer:
    the architecture byte at [offset + 2], the message number at
    [offset + 3], the field count at [offset + 5] and three bytes per field
    from [offset + 6].  It adds nothing to the activity.  The next offset is
    [offset + 6 + 3 * numFields], plus one count byte and three bytes per
    developer field when bit 0x20 of the header is set. *)
Theorem definition_message_registers (dv : DataView) (off h : Z) (reg : registry)
    (act : activity) (off' : Z) (reg' : registry) (act' : activity) :
  getUint8 dv off = inr h ->
  Z.land h 0x40 <> 0 ->
  parseMessage dv off reg act = inr (off', reg', act') ->
  exists (arch g numFields : Z) (fs : list field),
    getUint8 dv (off + 2) = inr arch /\
    getUint16 dv (off + 3) (arch =? 0) = inr g /\
    getUint8 dv (off + 5) = inr numFields /\
    length fs = Z.to_nat numFields /\
    (forall (i : nat) (f : field), fs !! i = Some f ->
       getUint8 dv (off + 6 + 3 * Z.of_nat i) = inr (num f) /\
       getUint8 dv (off + 6 + 3 * Z.of_nat i + 1) = inr (size f) /\
       getUint8 dv (off + 6 + 3 * Z.of_nat i + 2) = inr (type f)) /\
    reg' = <[Z.land h 0x0F := MsgDef g fs (arch =? 0)]> reg /\
    act' = act /\
    (Z.land h 0x20 = 0 -> off' = off + 6 + 3 * numFields) /\
    (Z.land h 0x20 <> 0 ->
     exists numDevFields,
       getUint8 dv (off + 6 + 3 * numFields) = inr numDevFields /\
       off' = off + 6 + 3 * numFields + 1 + 3 * numDevFields).
Proof.
  intros Hh Hbit H. unfold parseMessage in H. rewrite Hh in H. simpl in H.
  destruct (Z.land h 64 =? 0) eqn:E; [apply Z.eqb_eq in E; contradiction|].
  cbn [negb] in H.
  bind_inv H as arch Harch. bind_inv H as g Hg. bind_inv H as nf Hnf.
  bind_inv H as defs Hdefs. bind_inv H as o Hdev. destruct defs as [fs off3].
  cbn [fst snd] in *. injection H as <- <- <-.
  pose proof (getUint8_inr _ _ _ Hnf) as [_ Hnfr].
  pose proof (readFieldDefs_inr _ _ _ _ _ Hdefs) as [Hoff3 _].
  apply readFieldDefs_fields in Hdefs as [Hlen Hfs].
  replace (off + 1 + 1) with (off + 2) in Harch by lia.
  replace (off + 1 + 1 + 1) with (off + 3) in Hg by lia.
  replace (off + 1 + 1 + 1 + 2) with (off + 5) in Hnf by lia.
  replace (off + 1 + 1 + 1 + 2 + 1) with (off + 6) in * by lia.
  rewrite Z2Nat.id in Hoff3 by lia. subst off3.
  exists arch, g, nf, fs. repeat (split; [assumption || reflexivity|]).
  split.
  - intros Hno. rewrite Hno in Hdev. simpl in Hdev. injection Hdev as <-. reflexivity.
  - intros Hdevbit. destruct (Z.land h 32 =? 0) eqn:E32;
      [apply Z.eqb_eq in E32; contradiction|].
    cbn [negb] in Hdev. bind_inv Hdev as nd Hnd. injection Hdev as <-.
    exists nd. split; [exact Hnd | reflexivity].
Qed.

Lemma definition_message_registers_witness :
  getUint8 definitionFile 12 = inr 0x40 /\
  Z.land 0x40 0x40 <> 0 /\
  parseMessage definitionFile 12 newRegistry emptyActivity =
    inr (21, recordSchema, emptyActivity) /\
  exists (arch g numFields : Z) (fs : list field),
    length fs = Z.to_nat numFields /\
    recordSchema = <[Z.land 0x40 0x0F := MsgDef g fs (arch =? 0)]> newRegistry /\
    (Z.land 0x40 0x20 = 0 -> 21 = 12 + 6 + 3 * numFields).
Proof.
  assert (getUint8 definitionFile 12 = inr 0x40) as H1 by reflexivity.
  assert (Z.land 0x40 0x40 <> 0) as H2 by (vm_compute; discriminate).
  assert (parseMessage definitionFile 12 newRegistry emptyActivity =
            inr (21, recordSchema, emptyActivity)) as H3 by reflexivity.
  split; [exact H1|]. split; [exact H2|]. split; [exact H3|].
  destruct (definition_message_registers definitionFile 12 0x40 newRegistry
              emptyActivity 21 recordSchema emptyActivity H1 H2 H3)
    as (arch & g & nf & fs & _ & _ & _ & Hlen & _ & Hreg & _ & Hoff & _).
  exists arch, g, nf, fs. split; [exact Hlen|]. split; [exact Hreg | exact Hoff].
Defined.

Lemma readFields_values (dv : DataView) (le : bool) (fs : list field) :
  forall off vs,
    (readFields dv off fs le vs).2 = off + foldr Z.add 0 (size <$> fs) /\
    dom (readFields dv off fs le vs).1 = list_to_set (num <$> fs) ∪ dom vs /\
    (NoDup (num <$> fs) ->
     forall (i : nat) (f : field), fs !! i = Some f ->
       (readFields dv off fs le vs).1 !! num f =
       Some (readFieldValue dv (off + foldr Z.add 0 (size <$> take i fs)) f le)).
Proof.
  induction fs as [|f0 fs IH]; intros off vs; cbn [readFields fmap list_fmap foldr].
  - split; [simpl; lia|]. split; [symmetry; apply (left_id_L ∅ (∪))|].
    intros _ i f Hi. destruct i; discriminate.
  - destruct (IH (off + size f0) (<[num f0 := readFieldValue dv off f0 le]> vs))
      as (Hoff & Hdom & Hval).
    split; [rewrite Hoff; lia|]. split.
    + rewrite Hdom, dom_insert_L. cbn [list_to_set].
      rewrite (assoc_L (∪)), (comm_L (∪) (list_to_set (num <$> fs))). reflexivity.
    + intros Hnd i f Hi. apply NoDup_cons in Hnd as [Hfresh Hnd].
      destruct i as [|i].
      * injection Hi as <-. simpl. rewrite Z.add_0_r.
        assert (forall (l : list field) o (m : gmap Z value),
                  num f0 ∉ num <$> l ->
                  (readFields dv o l le m).1 !! num f0 = m !! num f0) as Hkeep.
        { clear. induction l as [|g l IHl]; intros o m Hnot; [reflexivity|].
          cbn [fmap list_fmap] in Hnot. apply not_elem_of_cons in Hnot as [Hne Hnot].
          cbn [readFields]. rewrite IHl by exact Hnot.
          apply lookup_insert_ne. congruence. }
        rewrite Hkeep by exact Hfresh. apply lookup_insert_eq.
      * cbn [take fmap list_fmap foldr]. simpl in Hi.
        rewrite (Hval Hnd i f Hi). f_equal. f_equal. lia.
Qed.

(** X3.  A data message for a registered slot never raises, whatever the
    length of the buffer: the next offset is the offset after the record
    header plus the sum of the field widths of the schema, the registry is
    unchanged, and the message handed to [processMessage] has exactly the
    field numbers of the schema as keys.  When the field numbers of the
    schema are distinct, each value is [readFieldValue] at the offset where
    the widths of the earlier fields put it. *)
Theorem data_message_advances (dv : DataView) (off h : Z) (reg : registry)
    (act : activity) (d : msgDef) :
  getUint8 dv off = inr h ->
  Z.land h 0x40 = 0 ->
  reg !! Z.land h 0x0F = Some d ->
  exists vs : values,
    parseMessage dv off reg act =
      inr (off + 1 + foldr Z.add 0 (size <$> fields d), reg,
           processMessage (globalMsgNum d) vs act) /\
    dom vs = list_to_set (num <$> fields d) /\
    (NoDup (num <$> fields d) ->
     forall (i : nat) (f : field), fields d !! i = Some f ->
       vs !! num f =
       Some (readFieldValue dv
               (off + 1 + foldr Z.add 0 (size <$> take i (fields d))) f
               (isLittleEndian d))).
Proof.
  intros Hh Hbit Hd.
  destruct (readFields_values dv (isLittleEndian d) (fields d) (off + 1) ∅)
    as (Hoff & Hdom & Hval).
  exists (readFields dv (off + 1) (fields d) (isLittleEndian d) ∅).1.
  split; [|split].
  - unfold parseMessage. rewrite Hh. simpl. rewrite Hbit. simpl.
    change (Z.land h 15) with (Z.land h 0x0F). rewrite Hd.
    destruct (readFields dv (off + 1) (fields d) (isLittleEndian d) ∅) as [vs o] eqn:E.
    cbn [fst snd] in *. rewrite Hoff. reflexivity.
  - rewrite Hdom, dom_empty_L. apply (right_id_L ∅ (∪)).
  - exact Hval.
Qed.

Lemma data_message_advances_witness :
  getUint8 dataOnlyFile 12 = inr 0 /\
  Z.land 0 0x40 = 0 /\
  recordSchema !! Z.land 0 0x0F = Some (MsgDef 20 [Field 3 1 2] true) /\
  exists vs : values,
    parseMessage dataOnlyFile 12 recordSchema emptyActivity =
      inr (12 + 1 + (1 + 0), recordSchema, processMessage 20 vs emptyActivity) /\
    dom vs = list_to_set [3].
Proof.
  assert (getUint8 dataOnlyFile 12 = inr 0) as H1 by reflexivity.
  assert (Z.land 0 0x40 = 0) as H2 by reflexivity.
  assert (recordSchema !! Z.land 0 0x0F = Some (MsgDef 20 [Field 3 1 2] true))
    as H3 by reflexivity.
  split; [exact H1|]. split; [exact H2|]. split; [exact H3|].
  destruct (data_message_advances dataOnlyFile 12 0 recordSchema emptyActivity
              (MsgDef 20 [Field 3 1 2] true) H1 H2 H3) as (vs & Hp & Hdom & _).
  exists vs. split; [exact Hp | exact Hdom].
Defined.

(** ** Sixteen slots *)

Lemma slot_range (h : Z) : 0 <= h -> 0 <= Z.land h 0x0F <= 15.
Proof.
  intros Hh. pose proof (Z.land_ones h 4 ltac:(lia)) as Hland.
  change (Z.ones 4) with 15 in Hland. change (2 ^ 4) with 16 in Hland.
  rewrite Hland. pose proof (Z.mod_pos_bound h 16 ltac:(reflexivity)). lia.
Qed.

Lemma parseMessage_slots (dv : DataView) (off : Z) (reg : registry) (act : activity)
    (off' : Z) (reg' : registry) (act' : activity) :
  (forall slot, is_Some (reg !! slot) -> 0 <= slot <= 15) ->
  parseMessage dv off reg act = inr (off', reg', act') ->
  forall slot, is_Some (reg' !! slot) -> 0 <= slot <= 15.
Proof.
  intros Hreg H. unfold parseMessage in H.
  bind_inv H as h Hh. apply getUint8_inr in Hh as [_ Hh].
  destruct (negb (Z.land h 64 =? 0)).
  - bind_inv H as arch Harch. bind_inv H as g Hg. bind_inv H as nf Hnf.
    bind_inv H as defs Hdefs. bind_inv H as o Hdev. injection H as _ <- _.
    intros slot Hslot. apply lookup_insert_is_Some' in Hslot as [<-|Hslot];
      [apply slot_range; lia | apply Hreg, Hslot].
  - destruct (reg !! Z.land h 15) as [d|].
    + destruct (readFields dv (off + 1) (fields d) (isLittleEndian d) ∅).
      injection H as _ <- _. exact Hreg.
    + injection H as _ <- _. exact Hreg.
Qed.

Lemma parseLoop_slots (fuel : nat) (dv : DataView) (endOffset : Z) :
  forall off reg act reg' r,
    (forall slot, is_Some (reg !! slot) -> 0 <= slot <= 15) ->
    parseLoop fuel dv off endOffset reg act = Some (reg', r) ->
    forall slot, is_Some (reg' !! slot) -> 0 <= slot <= 15.
Proof.
  induction fuel as [|fuel IH]; intros off reg act reg' r Hreg H; simpl in H.
  - destruct (off <? endOffset); [discriminate|]. injection H as <- _. exact Hreg.
  - destruct (off <? endOffset); [|injection H as <- _; exact Hreg].
    destruct (parseMessage dv off reg act) as [e|[[off1 reg1] act1]] eqn:Hm.
    + injection H as <- _. exact Hreg.
    + eapply IH; [|exact H]. eapply parseMessage_slots; eassumption.
Qed.

(** X4.  The registry never holds more than sixteen schemas.  Starting
    from a registry whose slots are in 0..15, [parse] ends, on any buffer,
    with a registry whose slots are in 0..15, hence with at most 16
    entries, and whose field widths are still non-negative. *)
Theorem registry_holds_sixteen_slots (reg : registry) (dv : DataView) :
  wf_registry reg ->
  (forall slot, is_Some (reg !! slot) -> 0 <= slot <= 15) ->
  exists reg' r,
    parse reg dv = Some (reg', r) /\
    wf_registry reg' /\
    (forall slot, is_Some (reg' !! slot) -> 0 <= slot <= 15) /\
    (base.size reg' <= 16)%nat.
Proof.
  intros Hwf Hslots.
  destruct (parse_terminates reg dv Hwf) as (reg' & r & Hp & Hwf' & _).
  exists reg', r. split; [exact Hp|]. split; [exact Hwf'|].
  assert (forall slot, is_Some (reg' !! slot) -> 0 <= slot <= 15) as Hslots'.
  { unfold parse in Hp.
    destruct (bind (getUint8 dv 0) _) as [e|[o eo]] eqn:Hhdr.
    - injection Hp as <- _. exact Hslots.
    - eapply parseLoop_slots; eassumption. }
  split; [exact Hslots'|].
  rewrite <- (size_dom (D := gset Z)).
  transitivity (base.size (list_to_set (C := gset Z) (seqZ 0 16))).
  - apply subseteq_size. intros slot Hslot. apply elem_of_dom in Hslot.
    apply elem_of_list_to_set, elem_of_seqZ. specialize (Hslots' slot Hslot). lia.
  - rewrite size_list_to_set by apply NoDup_seqZ. rewrite length_seqZ. reflexivity.
Qed.

Lemma registry_holds_sixteen_slots_witness :
  wf_registry newRegistry /\
  (forall slot, is_Some (newRegistry !! slot) -> 0 <= slot <= 15) /\
  exists reg' r,
    parse newRegistry definitionFile = Some (reg', r) /\
    (base.size reg' <= 16)%nat.
Proof.
  assert (forall slot, is_Some (newRegistry !! slot) -> 0 <= slot <= 15) as Hslots.
  { intros slot [d Hd]. unfold newRegistry in Hd. rewrite lookup_empty in Hd.
    discriminate Hd. }
  split; [exact wf_newRegistry|]. split; [exact Hslots|].
  destruct (registry_holds_sixteen_slots newRegistry definitionFile
              wf_newRegistry Hslots) as (reg' & r & Hp & _ & _ & Hsize).
  exists reg', r. split; [exact Hp | exact Hsize].
Defined.

End FITMore.

(** * Further properties of the TSS calculator *)

Module TSSMore.

Import TSS TSSProofs.
Local Open Scope Q_scope.

(** ** Thresholds *)

(** X5.  The four thresholds of a calculator are always truthy numbers or
    defaults: the constructor replaces every falsy setting ([undefined],
    [null], [NaN], 0) by its default, and [updateSettings] ignores every
    falsy setting, so whatever settings object the calculator is built from
    and whatever updates follow, no threshold is ever falsy. *)
Theorem thresholds_stay_truthy (s : settings) (updates : list settings) :
  wf_calculator (fold_left updateSettings updates (newCalculator s)).
Proof.
  assert (forall c, wf_calculator c -> wf_calculator (fold_left updateSettings updates c))
    as Hgen.
  { induction updates as [|u updates IH]; intros c Hc; [exact Hc|].
    cbn [fold_left]. apply IH, updateSettings_wf, Hc. }
  apply Hgen, newCalculator_wf.
Qed.

Lemma parsePace_no_separator_falsy (str : string) :
  colons str <> 1%nat -> truthy (parsePace str) = false.
Proof. intros H. apply parsePace_null_iff in H. rewrite H. reflexivity. Qed.

(** X6.  A pace text that [parsePace] turns into a falsy value ([null] for
    a text without exactly one separator, [NaN], or 0 for a text such as
    ['0:00']) never becomes a threshold: given as run and swim threshold, the
    constructor falls back to 256 s/km and 100 s/100m, and [updateSettings]
    keeps the thresholds the calculator had. *)
Theorem unparsed_pace_keeps_threshold (str : string) (c : calculator) (s : settings) :
  truthy (parsePace str) = false ->
  let s' := {| s_ftp := s_ftp s; s_runThreshold := parsePace str;
               s_swimThreshold := parsePace str; s_lthr := s_lthr s |} in
  runThreshold (newCalculator s') = Num 256 /\
  swimThreshold (newCalculator s') = Num 100 /\
  runThreshold (updateSettings c s') = runThreshold c /\
  swimThreshold (updateSettings c s') = swimThreshold c.
Proof.
  intros H. cbv zeta. unfold newCalculator, updateSettings, jor; simpl.
  rewrite H. repeat split; reflexivity.
Qed.

Lemma unparsed_pace_keeps_threshold_witness :
  truthy (parsePace "0:00") = false /\ truthy (parsePace "4.16") = false /\
  runThreshold
    (newCalculator {| s_ftp := Num 250; s_runThreshold := parsePace "0:00";
                      s_swimThreshold := parsePace "0:00"; s_lthr := Undefined |}) =
  Num 256.
Proof.
  split; [reflexivity|]. split; [reflexivity|].
  apply (unparsed_pace_keeps_threshold "0:00"
           (newCalculator {| s_ftp := Undefined; s_runThreshold := Undefined;
                             s_swimThreshold := Undefined; s_lthr := Undefined |})
           {| s_ftp := Num 250; s_runThreshold := Undefined;
              s_swimThreshold := Undefined; s_lthr := Undefined |}).
  reflexivity.
Defined.

(** ** Which branch answers *)

(** X7.  The branch that answers [calculate] is decided by the inputs
    alone, never by the thresholds.  Power is used exactly for a cycling
    activity with a truthy power ([normalizedPower || avgPower]) and a truthy
    duration; pace exactly for a running (swimming) activity with truthy
    duration and distance and a distance of at least 100 m (25 m); otherwise
    heart rate when duration and average heart rate are both truthy, and
    the duration estimate in every other case.  The [type] label follows the
    same cascade. *)
Theorem method_tells_the_inputs (c : calculator) (a : activity) :
  by_method (calculate c a) =
    (if usesPower a then power
     else if usesPace a then pace
     else if truthy (totalTime a) && truthy (avgHeartRate a) then heart_rate
     else duration_estimate) /\
  type (calculate c a) =
    (if usesPower a then "TSS"
     else if usesPace a then
       (if String.eqb (sport a) "running" then "rTSS" else "sTSS")
     else if truthy (totalTime a) && truthy (avgHeartRate a) then "hrTSS"
     else "TSS")%string.
Proof.
  unfold calculate, usesPower, usesPace, calculateCyclingTSS, calculateRunningTSS,
    calculateSwimmingTSS, calculateHRBasedTSS.
  destruct (String.eqb (sport a) "cycling") eqn:Hc.
  - apply String.eqb_eq in Hc. rewrite Hc. cbn [String.eqb Ascii.eqb Bool.eqb andb orb].
    destruct (truthy (jor (normalizedPower a) (avgPower a))),
      (truthy (totalTime a)), (truthy (totalDistance a)), (truthy (avgHeartRate a));
      split; reflexivity.
  - destruct (String.eqb (sport a) "running") eqn:Hr.
    + apply String.eqb_eq in Hr. rewrite Hr.
      cbn [String.eqb Ascii.eqb Bool.eqb andb orb].
      destruct (truthy (totalTime a)), (truthy (totalDistance a)),
        (jlt (totalDistance a) (Num 100)), (truthy (avgHeartRate a));
        split; reflexivity.
    + destruct (String.eqb (sport a) "swimming") eqn:Hs.
      * destruct (truthy (totalTime a)), (truthy (totalDistance a)),
          (jlt (totalDistance a) (Num 25)), (truthy (avgHeartRate a));
          split; reflexivity.
      * destruct (truthy (totalTime a)), (truthy (totalDistance a)),
          (truthy (avgHeartRate a)); split; reflexivity.
Qed.

(** ** Scores at threshold *)

Lemma numeq_inv (v : jsval) (q : Q) : numeq v q -> exists x, v = Num x /\ x == q.
Proof. destruct v; simpl; try contradiction. eauto. Qed.

Lemma truthy_Num (q : Q) : ~ q == 0 -> truthy (Num q) = true.
Proof.
  intros Hq. simpl. apply negb_true_iff. destruct (Qeq_bool q 0) eqn:E; [|reflexivity].
  apply Qeq_bool_iff in E. contradiction.
Qed.

Lemma round_comp (x y : Q) : x == y -> Math_round (Num x) = Math_round (Num y).
Proof.
  intros Hxy. unfold Math_round. cbn [toNumber].
  rewrite (Qfloor_comp (x + (1 # 2)) (y + (1 # 2))); [reflexivity|].
  rewrite Hxy. reflexivity.
Qed.

(** In exact arithmetic an effort of [q] seconds at threshold scores
    [Math.round(q / 3600 * 100)] in every branch. *)
Lemma threshold_score_exact (c : calculator) (a : activity) (q : Q) :
  totalTime a = Num q -> ~ q == 0 ->
  let score := Math_round (Num (q / 3600 * 100)) in
  (forall p, jor (normalizedPower a) (avgPower a) = Num p -> ~ p == 0 ->
     numeq (ftp c) p -> tss (calculateCyclingTSS c a) = score) /\
  (forall d, totalDistance a = Num d -> 100 <= d ->
     numeq (runThreshold c) (q / (d / 1000)) ->
     tss (calculateRunningTSS c a) = score) /\
  (forall d, totalDistance a = Num d -> 25 <= d ->
     numeq (swimThreshold c) (q / (d / 100)) ->
     tss (calculateSwimmingTSS c a) = score) /\
  (forall h, avgHeartRate a = Num h -> ~ h == 0 ->
     numeq (lthr c) h -> tss (calculateHRBasedTSS c a) = score).
Proof.
  intros Hq Hq0. cbv zeta. pose proof (truthy_Num q Hq0) as Htq.
  split; [|split; [|split]].
  - intros p Hp Hp0 Hf. apply numeq_inv in Hf as (f & Hf & Hfp).
    unfold calculateCyclingTSS. rewrite Hq, Hp, Hf, Htq, (truthy_Num p Hp0).
    cbn [negb orb tss jmul jdiv arith toNumber]. apply round_comp.
    rewrite Hfp. field. exact Hp0.
  - intros d Hd Hd100 Hr. apply numeq_inv in Hr as (r & Hr & Hrq).
    assert (~ d == 0) as Hd0 by Lqa.lra.
    unfold calculateRunningTSS. rewrite Hq, Hd, Hr, Htq, (truthy_Num d Hd0).
    assert (jlt (Num d) (Num 100) = false) as ->.
    { unfold jlt. cbn [toNumber]. apply negb_false_iff, Qle_bool_iff, Hd100. }
    cbn [negb orb tss jmul jdiv arith toNumber Math_pow]. apply round_comp.
    rewrite Hrq. change (Z.of_nat 2) with 2%Z. field. split; assumption.
  - intros d Hd Hd25 Hs. apply numeq_inv in Hs as (s & Hs & Hsq).
    assert (~ d == 0) as Hd0 by Lqa.lra.
    unfold calculateSwimmingTSS. rewrite Hq, Hd, Hs, Htq, (truthy_Num d Hd0).
    assert (jlt (Num d) (Num 25) = false) as ->.
    { unfold jlt. cbn [toNumber]. apply negb_false_iff, Qle_bool_iff, Hd25. }
    cbn [negb orb tss jmul jdiv arith toNumber Math_pow]. apply round_comp.
    rewrite Hsq. change (Z.of_nat 3) with 3%Z. field. split; assumption.
  - intros h Hh Hh0 Hl. apply numeq_inv in Hl as (l & Hl & Hlh).
    unfold calculateHRBasedTSS. rewrite Hq, Hh, Hl, Htq, (truthy_Num h Hh0).
    cbn [negb orb tss jmul jdiv arith toNumber Math_pow]. apply round_comp.
    rewrite Hlh. change (Z.of_nat 2) with 2%Z. field. exact Hh0.
Qed.

Lemma round_whole (k : Z) : Math_round (Num (inject_Z k)) = Num (inject_Z k).
Proof.
  unfold Math_round. cbn [toNumber]. do 2 f_equal.
  unfold Qfloor, Qplus, inject_Z. cbn [Qnum Qden].
  change (Z.pos (1 * 2)) with 2%Z. symmetry. apply (Z.div_unique _ 2 k 1); lia.
Qed.

(** X8.  An effort held exactly at threshold scores 100 points per hour,
    one point for every 36 seconds.  With a duration of [36 * k] seconds,
    [k] a whole number from 1 to [2 ^ 40], the score is exactly [k]: when
    the power equals the FTP (cycling, a power from 1 to [2 ^ 32]), when the
    threshold pace equals the pace of the activity (running over 100 m to
    [2 ^ 32] m, swimming over 25 m to [2 ^ 32] m), and when the average
    heart rate equals the threshold heart rate (heart-rate branch).  The
    score is a whole number far from the next half, so the rounding of the
    intermediate results does not change it. *)
Theorem threshold_effort_scores_100_per_hour (c : calculator) (a : activity) (k : Z) :
  (0 < k <= 2 ^ 40)%Z ->
  totalTime a = Num (inject_Z (36 * k)) ->
  (forall p, jor (normalizedPower a) (avgPower a) = Num p ->
     1 <= p <= inject_Z (2 ^ 32) ->
     numeq (ftp c) p -> tss (calculateCyclingTSS c a) = Num (inject_Z k)) /\
  (forall d, totalDistance a = Num d -> 100 <= d <= inject_Z (2 ^ 32) ->
     numeq (runThreshold c) (inject_Z (36 * k) / (d / 1000)) ->
     tss (calculateRunningTSS c a) = Num (inject_Z k)) /\
  (forall d, totalDistance a = Num d -> 25 <= d <= inject_Z (2 ^ 32) ->
     numeq (swimThreshold c) (inject_Z (36 * k) / (d / 100)) ->
     tss (calculateSwimmingTSS c a) = Num (inject_Z k)) /\
  (forall h, avgHeartRate a = Num h -> ~ h == 0 ->
     numeq (lthr c) h -> tss (calculateHRBasedTSS c a) = Num (inject_Z k)).
Proof.
  intros Hk Hq.
  assert (~ inject_Z (36 * k) == 0) as Hq0.
  { change 0 with (inject_Z 0). rewrite inject_Z_injective. lia. }
  assert (Math_round (Num (inject_Z (36 * k) / 3600 * 100)) = Num (inject_Z k)) as Hscore.
  { rewrite <- (round_whole k). apply round_comp.
    rewrite inject_Z_mult. change (inject_Z 36) with 36. field. }
  destruct (threshold_score_exact c a (inject_Z (36 * k)) Hq Hq0)
    as (Hcyc & Hrun & Hswim & Hhr). cbv zeta in *.
  split; [|split; [|split]].
  - intros p Hp Hpr Hf. rewrite <- Hscore. apply (Hcyc p Hp); [Lqa.lra | exact Hf].
  - intros d Hd Hdr Hr. rewrite <- Hscore. apply (Hrun d Hd); [tauto | exact Hr].
  - intros d Hd Hdr Hs. rewrite <- Hscore. apply (Hswim d Hd); [tauto | exact Hs].
  - intros h Hh Hh0 Hl. rewrite <- Hscore. apply (Hhr h Hh Hh0 Hl).
Qed.

Lemma threshold_effort_scores_100_per_hour_witness :
  (0 < 150 <= 2 ^ 40)%Z /\ 1 <= 250 <= inject_Z (2 ^ 32) /\
  tss (calculateCyclingTSS
         (newCalculator {| s_ftp := Num 250; s_runThreshold := Undefined;
                           s_swimThreshold := Undefined; s_lthr := Undefined |})
         {| sport := "cycling"; totalTime := Num (inject_Z (36 * 150));
            totalDistance := Undefined;
            normalizedPower := Num 250; avgPower := Undefined;
            avgHeartRate := Undefined |}) = Num (inject_Z 150).
Proof.
  assert (0 < 150 <= 2 ^ 40)%Z as Hk by (split; [lia | vm_compute; discriminate]).
  assert (1 <= 250 <= inject_Z (2 ^ 32)) as Hp
    by (split; apply Qle_bool_iff; reflexivity).
  split; [exact Hk|]. split; [exact Hp|].
  destruct (threshold_effort_scores_100_per_hour
              (newCalculator {| s_ftp := Num 250; s_runThreshold := Undefined;
                                s_swimThreshold := Undefined; s_lthr := Undefined |})
              {| sport := "cycling"; totalTime := Num (inject_Z (36 * 150));
                 totalDistance := Undefined;
                 normalizedPower := Num 250; avgPower := Undefined;
                 avgHeartRate := Undefined |}
              150 Hk eq_refl) as [Hcycling _].
  exact (Hcycling 250 eq_refl Hp (Qeq_refl 250)).
Defined.

(** ** The shape of a result *)

(** X9.  For a calculator whose thresholds are numbers, an activity whose
    duration is a number or [null], fields none of which is an array of
    two bytes or more, and numbers of moderate size (zero, or of a
    magnitude from [2 ^ -64] to [2 ^ 64], so that no intermediate result
    overflows), the result of [calculate] has an integer [tss] in every
    branch; and [recalculate] on the record that [importFITFile] stores for
    the activity gives back the result of [calculate]. *)
Theorem result_is_well_formed (c : calculator) (a : activity) :
  wf_calculator c -> scalarThresholds c ->
  hasDuration a -> scalar (totalTime a) ->
  usable (totalDistance a) -> usable (normalizedPower a) ->
  usable (avgPower a) -> usable (avgHeartRate a) ->
  moderateInputs c a ->
  is_integer (tss (calculate c a)) /\
  recalculate c (toRecord a) = calculate c a.
Proof.
  intros Hc Hsc Hd Hsd Udist Unp Uap Uhr _.
  split; [apply calculate_integer; assumption | destruct a; reflexivity].
Qed.

Lemma result_is_well_formed_witness :
  wf_calculator
    (newCalculator {| s_ftp := Undefined; s_runThreshold := Undefined;
                      s_swimThreshold := Undefined; s_lthr := Undefined |}) /\
  hasDuration
    {| sport := "running"; totalTime := Num 2560; totalDistance := Num 10000;
       normalizedPower := Undefined; avgPower := Undefined;
       avgHeartRate := Arr [] |} /\
  moderateInputs
    (newCalculator {| s_ftp := Undefined; s_runThreshold := Undefined;
                      s_swimThreshold := Undefined; s_lthr := Undefined |})
    {| sport := "running"; totalTime := Num 2560; totalDistance := Num 10000;
       normalizedPower := Undefined; avgPower := Undefined;
       avgHeartRate := Arr [] |} /\
  is_integer
    (tss (calculate
            (newCalculator {| s_ftp := Undefined; s_runThreshold := Undefined;
                              s_swimThreshold := Undefined; s_lthr := Undefined |})
            {| sport := "running"; totalTime := Num 2560; totalDistance := Num 10000;
               normalizedPower := Undefined; avgPower := Undefined;
               avgHeartRate := Arr [] |})).
Proof.
  assert (wf_calculator
            (newCalculator {| s_ftp := Undefined; s_runThreshold := Undefined;
                              s_swimThreshold := Undefined; s_lthr := Undefined |}))
    as Hc by (repeat split; reflexivity).
  assert (hasDuration
            {| sport := "running"; totalTime := Num 2560; totalDistance := Num 10000;
               normalizedPower := Undefined; avgPower := Undefined;
               avgHeartRate := Arr [] |}) as Hd by (exists 2560; reflexivity).
  assert (moderateInputs
            (newCalculator {| s_ftp := Undefined; s_runThreshold := Undefined;
                              s_swimThreshold := Undefined; s_lthr := Undefined |})
            {| sport := "running"; totalTime := Num 2560; totalDistance := Num 10000;
               normalizedPower := Undefined; avgPower := Undefined;
               avgHeartRate := Arr [] |}) as Hm.
  { repeat split; intros q Hq; simpl in Hq;
      first [ discriminate Hq
            | injection Hq as <-;
              first [ left; reflexivity
                    | right; left; split; apply Qle_bool_iff; reflexivity ] ]. }
  split; [exact Hc|]. split; [exact Hd|]. split; [exact Hm|].
  refine (proj1 (result_is_well_formed _ _ Hc _ Hd _ _ _ _ _ Hm)).
  - repeat split.
  - exact I.
  - intros _. exists 10000. reflexivity.
  - intros H. discriminate H.
  - intros H. discriminate H.
  - intros _. exists 0. reflexivity.
Defined.

(** X28.  A field that the decoder delivers as an array of two bytes or
    more poisons the score: with a truthy duration, a cycling activity
    whose power is such an array gets the [tss] [NaN] by the power method,
    and an activity that falls to the heart-rate branch with such an array
    as average heart rate gets the [tss] [NaN] by the heart-rate method,
    whatever the thresholds are. *)
Theorem byte_array_gives_NaN (c : calculator) (a : activity) (bs : list Z) :
  (2 <= length bs)%nat ->
  truthy (totalTime a) = true ->
  (String.eqb (sport a) "cycling" = true ->
   jor (normalizedPower a) (avgPower a) = Arr bs ->
   tss (calculate c a) = NaN /\ by_method (calculate c a) = power) /\
  (usesPower a = false -> usesPace a = false ->
   avgHeartRate a = Arr bs ->
   tss (calculate c a) = NaN /\ by_method (calculate c a) = heart_rate).
Proof.
  intros Hlen Ht.
  assert (toNumber (Arr bs) = None) as Hnan.
  { destruct bs as [|b0 [|b1 bs]]; simpl in Hlen; [lia | lia | reflexivity]. }
  assert (forall v w : jsval, jmul (jmul v (Math_pow (jdiv (Arr bs) w) 2)) (Num 100) = NaN)
    as Hhr.
  { intros v w. unfold jmul, jdiv, Math_pow, arith. rewrite Hnan. cbn [toNumber].
    destruct (toNumber v); reflexivity. }
  split.
  - intros Hsport Hnp. unfold calculate, calculateCyclingTSS.
    rewrite Hsport, Hnp, Ht. cbn [truthy negb orb tss by_method].
    split; [|reflexivity].
    unfold jmul, jdiv, arith. rewrite Hnan.
    destruct (toNumber (totalTime a)); reflexivity.
  - intros Hpow Hpace Hhrv.
    assert (calculate c a = calculateHRBasedTSS c a) as ->.
    { unfold usesPower, usesPace in *. rewrite Ht in *.
      unfold calculate, calculateCyclingTSS, calculateRunningTSS, calculateSwimmingTSS.
      rewrite Ht. cbn [negb orb andb] in *.
      destruct (String.eqb (sport a) "cycling") eqn:Ec.
      - rewrite andb_true_r in Hpow. cbn [andb] in Hpow. rewrite Hpow. reflexivity.
      - destruct (String.eqb (sport a) "running") eqn:Er.
        + cbn [andb orb] in Hpace.
          destruct (truthy (totalDistance a)); [|reflexivity].
          cbn [andb negb orb] in *.
          destruct (jlt (totalDistance a) (Num 100)); [reflexivity | discriminate].
        + destruct (String.eqb (sport a) "swimming") eqn:Es; [|reflexivity].
          cbn [andb orb] in Hpace.
          destruct (truthy (totalDistance a)); [|reflexivity].
          cbn [andb negb orb] in *.
          destruct (jlt (totalDistance a) (Num 25)); [reflexivity | discriminate]. }
    unfold calculateHRBasedTSS. rewrite Ht, Hhrv. cbn [truthy negb orb tss by_method].
    rewrite Hhr. split; reflexivity.
Qed.

Lemma byte_array_gives_NaN_witness :
  (2 <= length [150; 0; 0]%Z)%nat /\
  tss (calculate
         (newCalculator {| s_ftp := Undefined; s_runThreshold := Undefined;
                           s_swimThreshold := Undefined; s_lthr := Undefined |})
         {| sport := "generic"; totalTime := Num 3600; totalDistance := Num 0;
            normalizedPower := Null; avgPower := Null;
            avgHeartRate := Arr [150; 0; 0]%Z |}) = NaN.
Proof.
  assert (2 <= length [150; 0; 0]%Z)%nat as Hlen by (simpl; lia).
  split; [exact Hlen|].
  destruct (byte_array_gives_NaN
              (newCalculator {| s_ftp := Undefined; s_runThreshold := Undefined;
                                s_swimThreshold := Undefined; s_lthr := Undefined |})
              {| sport := "generic"; totalTime := Num 3600; totalDistance := Num 0;
                 normalizedPower := Null; avgPower := Null;
                 avgHeartRate := Arr [150; 0; 0]%Z |}
              [150; 0; 0]%Z Hlen eq_refl) as [_ Hhr].
  exact (proj1 (Hhr eq_refl eq_refl eq_refl)).
Defined.

(** ** Zones *)

Lemma getZone_monotone (x y : Q) :
  x <= y -> (zone (getZone (Num x)) <= zone (getZone (Num y)))%Z.
Proof.
  intros Hxy. unfold getZone, jlt. cbn [toNumber].
  repeat match goal with
         | |- context [Qle_bool ?a ?b] =>
             let E := fresh "E" in
             destruct (Qle_bool a b) eqn:E;
             [apply Qle_bool_iff in E
             |assert (~ a <= b) by (intros Habs; apply Qle_bool_iff in Habs; congruence);
              clear E]
         end;
    cbn [negb zone]; try lia; exfalso; Lqa.lra.
Qed.

(** X10.  [getZone] always answers one of the zones 1 to 5, a larger
    intensity never gets a lower zone, and an intensity that is not a number
    ([undefined] or [NaN], for which every comparison fails) lands in zone 5,
    the highest, while [null] compares as 0 and lands in zone 1. *)
Theorem getZone_zones :
  (forall v, 1 <= zone (getZone v) <= 5)%Z /\
  (forall x y, x <= y -> (zone (getZone (Num x)) <= zone (getZone (Num y)))%Z) /\
  (forall v, toNumber v = None -> zone (getZone v) = 5%Z) /\
  zone (getZone Null) = 1%Z.
Proof.
  split; [|split; [exact getZone_monotone|split; [|reflexivity]]].
  - intros v. unfold getZone.
    repeat match goal with |- context [jlt ?a ?b] => destruct (jlt a b) end;
      cbn [zone]; lia.
  - intros v Hv. unfold getZone, jlt. rewrite Hv. reflexivity.
Qed.

(** ** Pace text *)

Lemma Qfloor_unique (x : Q) (z : Z) :
  inject_Z z <= x -> x < inject_Z (z + 1) -> Qfloor x = z.
Proof.
  intros Hlo Hhi. pose proof (Qfloor_le x) as H1. pose proof (Qlt_floor x) as H2.
  assert (z < Qfloor x + 1)%Z.
  { rewrite Zlt_Qlt. eapply Qle_lt_trans; eassumption. }
  assert (Qfloor x < z + 1)%Z.
  { rewrite Zlt_Qlt. eapply Qle_lt_trans; eassumption. }
  lia.
Qed.

Lemma pretty_N_char_digit (d : N) :
  (d < 10)%N -> digitValue 10 (pretty_N_char d) = Some (Z.of_N d).
Proof.
  intros Hd.
  assert (d = 0 \/ d = 1 \/ d = 2 \/ d = 3 \/ d = 4 \/ d = 5 \/ d = 6
          \/ d = 7 \/ d = 8 \/ d = 9)%N as H by lia.
  repeat (destruct H as [->|H]; [reflexivity|]). rewrite H. reflexivity.
Qed.

(** The digits [pretty_N_go] puts in front of [s] extend the number read so
    far by the digits of [x]. *)
Lemma pretty_N_go_value (x : N) :
  forall (s : string) (acc : Z),
    allDecimal s = true ->
    allDecimal (pretty_N_go x s) = true /\
    exists k : nat,
      fold_left (fun a d => a * 10 + d)%Z (leadingDigits 10 (pretty_N_go x s)) acc =
      fold_left (fun a d => a * 10 + d)%Z (leadingDigits 10 s)
        (acc * 10 ^ Z.of_nat k + Z.of_N x)%Z /\
      (0 < x -> pretty_N_go x s <> s)%N.
Proof.
  induction (N.lt_wf_0 x) as [x _ IH]. intros s acc Hs.
  destruct (decide (0 < x)%N) as [Hpos|Hzero].
  - rewrite pretty_N_go_step by exact Hpos.
    assert (x `mod` 10 < 10)%N as Hmod by (apply N.mod_lt; discriminate).
    pose proof (pretty_N_char_digit _ Hmod) as Hdigit.
    destruct (IH (x `div` 10)%N (N.div_lt x 10 Hpos eq_refl)
                (String (pretty_N_char (x `mod` 10)) s) acc) as (Hall & k & Hval & _).
    { simpl. rewrite Hdigit. exact Hs. }
    split; [exact Hall|]. exists (S k). split.
    + rewrite Hval. cbn [leadingDigits]. rewrite Hdigit. cbn [fold_left]. f_equal.
      rewrite Nat2Z.inj_succ, Z.pow_succ_r by lia.
      pose proof (N.div_mod x 10 ltac:(discriminate)) as Hx.
      apply (f_equal Z.of_N) in Hx. rewrite N2Z.inj_add, N2Z.inj_mul in Hx.
      change (Z.of_N 10) with 10%Z in Hx. lia.
    + intros _ Heq. apply (f_equal String.length) in Heq.
      assert (forall y t, String.length t <= String.length (pretty_N_go y t))%nat as Hlen.
      { clear. intros y. induction (N.lt_wf_0 y) as [y _ IHy]. intros t.
        destruct (decide (0 < y)%N) as [Hy|Hy].
        - rewrite pretty_N_go_step by exact Hy.
          etransitivity; [|apply IHy, N.div_lt; [exact Hy | reflexivity]]. simpl. lia.
        - replace y with 0%N by lia. rewrite pretty_N_go_0. lia. }
      specialize (Hlen (x `div` 10)%N (String (pretty_N_char (x `mod` 10)) s)).
      simpl in Hlen. lia.
  - replace x with 0%N by lia. rewrite pretty_N_go_0. split; [exact Hs|].
    exists 0%nat. split; [|lia]. f_equal. simpl. lia.
Qed.

Lemma pretty_Z_integer_part (z : Z) :
  (0 <= z)%Z -> isIntegerPart (pretty z) = true /\ decimalValue (pretty z) = z.
Proof.
  intros Hz. destruct z as [|p|p]; [split; reflexivity| |lia].
  change (pretty (Z.pos p)) with (pretty_N_go (N.pos p) "").
  destruct (pretty_N_go_value (N.pos p) "" 0 eq_refl) as (Hall & k & Hval & Hne).
  split.
  - destruct (pretty_N_go (N.pos p) "") eqn:E; [|exact Hall].
    exfalso. apply Hne; reflexivity.
  - unfold decimalValue, digitsValue. rewrite Hval. simpl. reflexivity.
Qed.

Lemma padStart2_integer_part (s : string) :
  isIntegerPart s = true ->
  isIntegerPart (padStart2 s) = true /\ decimalValue (padStart2 s) = decimalValue s.
Proof.
  destruct s as [|c [|c' s]]; [discriminate| |auto].
  intros Hs. simpl in Hs. destruct (digitValue 10 c) as [d|] eqn:Hd; [|discriminate].
  unfold padStart2, decimalValue, digitsValue. simpl. rewrite Hd. simpl. auto.
Qed.

Lemma formatPace_integer (n : Z) :
  (0 <= n)%Z ->
  formatPace (Num (inject_Z n)) =
  (pretty (n / 60)%Z ++ ":" ++ padStart2 (pretty (n mod 60)%Z))%string.
Proof.
  intros Hn. unfold formatPace, Math_floor, Math_round, jmod60, jdiv, arith, show, showZ.
  cbn [toNumber].
  assert (Qle_bool 0 (inject_Z n) = true) as ->.
  { apply Qle_bool_iff. change 0 with (inject_Z 0). rewrite <- Zle_Qle. exact Hn. }
  assert (Qfloor (inject_Z n / 60) = (n / 60)%Z) as Hdiv.
  { unfold Qfloor, Qdiv, Qmult, Qinv, inject_Z. simpl. rewrite Z.mul_1_r. reflexivity. }
  rewrite Hdiv, !Qfloor_Z.
  assert (Qfloor (inject_Z n - 60 * inject_Z (n / 60) + (1 # 2)) = (n mod 60)%Z) as ->.
  { apply Qfloor_unique.
    - rewrite (Z.mod_eq n 60) by lia.
      unfold Qle, Qminus, Qplus, Qopp, Qmult, inject_Z. simpl. lia.
    - rewrite (Z.mod_eq n 60) by lia.
      unfold Qlt, Qminus, Qplus, Qopp, Qmult, inject_Z. simpl. lia. }
  reflexivity.
Qed.

(** X11.  Round trip of the pace text: for a whole number of seconds [n]
    (non-negative and in the range where a number holds every integer
    exactly), the text [formatPace] and [formatSwimPace] produce is read back
    by [parsePace] as [n]. *)
Theorem parsePace_formatPace (n : Z) :
  (0 <= n < 2 ^ 53)%Z ->
  numeq (parsePace (formatPace (Num (inject_Z n)))) (inject_Z n) /\
  numeq (parsePace (formatSwimPace (Num (inject_Z n)))) (inject_Z n).
Proof.
  intros [Hn _].
  assert (formatSwimPace (Num (inject_Z n)) = formatPace (Num (inject_Z n))) as ->
    by reflexivity.
  assert (numeq (parsePace (formatPace (Num (inject_Z n)))) (inject_Z n)) as H; [|auto].
  rewrite (formatPace_integer n Hn).
  destruct (pretty_Z_integer_part (n / 60)) as [Hm Hmv]; [apply Z.div_pos; lia|].
  destruct (pretty_Z_integer_part (n mod 60)) as [Hs Hsv];
    [apply Z.mod_pos_bound; lia|].
  destruct (padStart2_integer_part _ Hs) as [Hs' Hsv'].
  unfold parsePace.
  rewrite split_one_colon by (apply isIntegerPart_allDecimal; assumption).
  rewrite (parseInt_decimal _ Hm), (parseInt_decimal _ Hs'), Hmv, Hsv', Hsv.
  unfold jadd, jmul, arith, numeq. cbn [toNumber].
  pose proof (Z.div_mod n 60 ltac:(lia)) as Hdm.
  unfold Qeq, Qplus, Qmult, inject_Z. simpl. lia.
Qed.

Lemma parsePace_formatPace_witness :
  (0 <= 256 < 2 ^ 53)%Z /\
  numeq (parsePace (formatPace (Num (inject_Z 256)))) (inject_Z 256).
Proof.
  assert (0 <= 256 < 2 ^ 53)%Z as H by (split; [lia | reflexivity]).
  split; [exact H|]. exact (proj1 (parsePace_formatPace 256 H)).
Defined.

(** X12.  [formatPace] rounds the seconds after taking the minutes, without
    carrying: a pace of [m] minutes and between 59.5 and 60 seconds is shown
    as [m:60], not as [m+1:00]. *)
Theorem formatPace_shows_sixty_seconds (m : Z) (r : Q) :
  (0 <= m)%Z -> 119 # 2 <= r -> r < 60 ->
  formatPace (Num (inject_Z (60 * m) + r)) = (pretty m ++ ":60")%string.
Proof.
  intros Hm Hlo Hhi. unfold formatPace, Math_floor, Math_round, jmod60, jdiv, arith,
    show, showZ. cbn [toNumber].
  assert (0 <= inject_Z (60 * m)) as Hm'.
  { change 0 with (inject_Z 0). rewrite <- Zle_Qle. lia. }
  assert (Qle_bool 0 (inject_Z (60 * m) + r) = true) as ->.
  { apply Qle_bool_iff. Lqa.lra. }
  assert (inject_Z (60 * m) == 60 * inject_Z m) as Hinj.
  { rewrite inject_Z_mult. reflexivity. }
  assert (Qfloor ((inject_Z (60 * m) + r) / 60) = m) as ->.
  { apply Qfloor_unique.
    - apply Qle_shift_div_l; [reflexivity|]. Lqa.lra.
    - apply Qlt_shift_div_r; [reflexivity|]. rewrite inject_Z_plus.
      change (inject_Z 1) with 1. Lqa.lra. }
  rewrite !Qfloor_Z.
  assert (Qfloor (inject_Z (60 * m) + r - 60 * inject_Z m + (1 # 2)) = 60%Z) as ->.
  { apply Qfloor_unique; [change (inject_Z 60) with 60 | change (inject_Z (60 + 1)) with 61];
      Lqa.lra. }
  reflexivity.
Qed.

Lemma formatPace_shows_sixty_seconds_witness :
  (0 <= 4)%Z /\ 119 # 2 <= 599 # 10 /\ 599 # 10 < 60 /\
  formatPace (Num (inject_Z (60 * 4) + (599 # 10))) = "4:60"%string.
Proof.
  assert (0 <= 4)%Z as Hm by lia.
  assert (119 # 2 <= 599 # 10) as Hlo by (apply Qle_bool_iff; reflexivity).
  assert (599 # 10 < 60) as Hhi by reflexivity.
  split; [exact Hm|]. split; [exact Hlo|]. split; [exact Hhi|].
  exact (formatPace_shows_sixty_seconds 4 (599 # 10) Hm Hlo Hhi).
Defined.

End TSSMore.

(** * Further properties of the PMC engine *)

Module PMCMore.

Import PMC DateProofs PMCProofs.
Local Open Scope R_scope.

(** ** The shape of the result *)

(** ** The sorted keys of a map *)

Section sorted_keys.
Context {A : Type}.

Lemma elem_of_sortedKeys (m : gmap Z A) (d : Z) :
  d ∈ (merge_sort Z.le (map_to_list m).*1) <-> is_Some (m !! d).
Proof.
  rewrite merge_sort_Permutation, list_elem_of_fmap. split.
  - intros ([d' x] & -> & Hx). apply elem_of_map_to_list in Hx. eauto.
  - intros [x Hx]. exists (d, x). split; [reflexivity|].
    apply elem_of_map_to_list, Hx.
Qed.

Lemma sortedKeys_nil (m : gmap Z A) : (merge_sort Z.le (map_to_list m).*1) = [] <-> m = ∅.
Proof.
  split.
  - intros Hnil. apply map_empty. intros d.
    destruct (m !! d) as [x|] eqn:Hx; [|reflexivity].
    assert (d ∈ (merge_sort Z.le (map_to_list m).*1)) as Hin by (apply elem_of_sortedKeys; eauto).
    rewrite Hnil in Hin. inversion Hin.
  - intros ->. rewrite map_to_list_empty. reflexivity.
Qed.

Lemma sortedKeys_sorted (m : gmap Z A) : StronglySorted Z.le (merge_sort Z.le (map_to_list m).*1).
Proof. apply StronglySorted_merge_sort; apply _. Qed.

Lemma head_sortedKeys (m : gmap Z A) (d : Z) :
  head (merge_sort Z.le (map_to_list m).*1) = Some d ->
  is_Some (m !! d) /\ forall d', is_Some (m !! d') -> (d <= d')%Z.
Proof.
  intros Hhead. pose proof (sortedKeys_sorted m) as Hs.
  pose proof (elem_of_sortedKeys m) as Hin.
  destruct (merge_sort Z.le (map_to_list m).*1) as [|d0 l]; [discriminate|]. injection Hhead as ->.
  split; [apply Hin; left|].
  intros d' Hd'. apply Hin in Hd'. inversion Hs as [|? ? _ Hall]; subst.
  apply elem_of_cons in Hd' as [->|Hd']; [lia|].
  rewrite Forall_forall in Hall. apply Hall, Hd'.
Qed.

Lemma last_sortedKeys (m : gmap Z A) (d : Z) :
  last (merge_sort Z.le (map_to_list m).*1) = Some d ->
  is_Some (m !! d) /\ forall d', is_Some (m !! d') -> (d' <= d)%Z.
Proof.
  intros Hlast. pose proof (sortedKeys_sorted m) as Hs.
  pose proof (elem_of_sortedKeys m) as Hin.
  assert (forall l : list Z, StronglySorted Z.le l -> last l = Some d ->
            d ∈ l /\ forall d', d' ∈ l -> (d' <= d)%Z) as Hgen.
  { clear. induction 1 as [|x l Hl IH Hall]; intros Hlast; [discriminate|].
    destruct l as [|y l].
    - injection Hlast as ->. split; [left|].
      intros d' Hd'. apply list_elem_of_singleton in Hd' as ->. lia.
    - change (last (y :: l) = Some d) in Hlast. destruct (IH Hlast) as [Hd Hmax].
      split; [right; exact Hd|]. intros d' Hd'.
      apply elem_of_cons in Hd' as [->|Hd']; [|apply Hmax, Hd'].
      rewrite Forall_forall in Hall. apply Hall, Hd. }
  destruct (Hgen _ Hs Hlast) as [Hd Hmax]. split; [apply Hin, Hd|].
  intros d' Hd'. apply Hmax, Hin, Hd'.
Qed.

Lemma last_sortedKeys_Some (m : gmap Z A) :
  m <> ∅ -> is_Some (last (merge_sort Z.le (map_to_list m).*1)).
Proof.
  intros Hne. destruct (merge_sort Z.le (map_to_list m).*1) as [|d l] eqn:Hs.
  - apply sortedKeys_nil in Hs. contradiction.
  - rewrite last_is_Some. discriminate.
Qed.
End sorted_keys.

(** ** The entries [calculate] returns *)

Lemma pmcLoop_length (ledger : gmap Z R) (days : list day) :
  forall c a data, length (pmcLoop ledger days c a data).1 = length days.
Proof.
  induction days as [|d days IH]; intros c a data; simpl; [reflexivity|].
  f_equal. apply IH.
Qed.

Lemma calculate_results (tz : zone) (st : engine) (startDate endDate : option day)
    (today earliest : day) :
  head (sortedDates (dailyTSS st)) = Some earliest ->
  (calculate tz startDate endDate today st).1 =
  (pmcLoop (dailyTSS st)
     (generateDateRange tz (default earliest startDate) (default today endDate))
     0 0 (pmcData st)).1.
Proof.
  intros Hhead. unfold calculate.
  destruct (sortedDates (dailyTSS st)) as [|e0 rest]; [discriminate|].
  injection Hhead as ->. reflexivity.
Qed.

Lemma calculate_data (tz : zone) (st : engine) (startDate endDate : option day)
    (today earliest : day) :
  head (sortedDates (dailyTSS st)) = Some earliest ->
  (calculate tz startDate endDate today st).2 =
  {| dailyTSS := dailyTSS st;
     pmcData :=
       (pmcLoop (dailyTSS st)
          (generateDateRange tz (default earliest startDate) (default today endDate))
          0 0 (pmcData st)).2 |}.
Proof.
  intros Hhead. unfold calculate.
  destruct (sortedDates (dailyTSS st)) as [|e0 rest]; [discriminate|].
  injection Hhead as ->. reflexivity.
Qed.

(** X13.  On a non-empty ledger the range of [calculate] starts at
    [startDate], or at the earliest ledger day, which is the smallest key of
    the ledger, when none is given, and ends at [endDate] or today.  In any
    time zone every entry is dated within the range and carries the
    ledger's TSS of its date, 0 for a day the ledger does not have, and a
    range that ends before it starts gives no entry.  When no clock change
    of the local zone touches the range, there is one entry per calendar
    day, without gaps and in order: the [i]-th entry is dated
    [first + i]. *)
Theorem calculate_gap_free (tz : zone) (st : engine)
    (startDate endDate : option day) (today earliest : day) :
  head (sortedDates (dailyTSS st)) = Some earliest ->
  let first := default earliest startDate in
  let last := default today endDate in
  let results := (calculate tz startDate endDate today st).1 in
  (steady tz (startOfDay first) (startOfDay last) ->
   length results = Z.to_nat (last - first + 1) /\
   forall (i : nat) (e : PMCEntry), results !! i = Some e ->
     date e = (first + Z.of_nat i)%Z) /\
  (forall (i : nat) (e : PMCEntry), results !! i = Some e ->
     (first <= date e <= last)%Z /\ tss e = getTSS (dailyTSS st) (date e)) /\
  ((last < first)%Z -> results = []) /\
  is_Some (dailyTSS st !! earliest) /\
  (forall d : day, is_Some (dailyTSS st !! d) -> (earliest <= d)%Z).
Proof.
  intros Hhead. cbv zeta.
  assert (is_Some (dailyTSS st !! earliest) /\
          (forall d : day, is_Some (dailyTSS st !! d) -> (earliest <= d)%Z)) as Hmin
    by (apply head_sortedKeys, Hhead).
  rewrite (calculate_results _ _ _ _ _ _ Hhead).
  split; [|split; [|split; [|exact Hmin]]].
  - intros Hst. rewrite (generateDateRange_steady _ _ _ Hst). split.
    + rewrite pmcLoop_length. apply length_seqZ.
    + intros i e Hi. apply pmcLoop_lookup in Hi as (Hday & _).
      apply lookup_seqZ in Hday as [-> _]. reflexivity.
  - intros i e Hi. apply pmcLoop_lookup in Hi as (Hday & Htss & _).
    split; [|exact Htss].
    apply list_elem_of_lookup_2, generateDateRange_within in Hday. exact Hday.
  - intros Hlt. rewrite generateDateRange_empty by exact Hlt. reflexivity.
Qed.

Lemma calculate_gap_free_witness :
  head (sortedDates (dailyTSS (setDailyTSS 3 100 newEngine))) = Some 3%Z /\
  steady utc (startOfDay 3) (startOfDay 5) /\
  length (calculate utc None (Some 5%Z) 9%Z (setDailyTSS 3 100 newEngine)).1 = 3%nat.
Proof.
  assert (head (sortedDates (dailyTSS (setDailyTSS 3 100 newEngine))) = Some 3%Z)
    as H by reflexivity.
  split; [exact H|]. split; [apply steady_utc|].
  exact (proj1 (proj1 (calculate_gap_free utc (setDailyTSS 3 100 newEngine) None
                         (Some 5%Z) 9%Z 3%Z H) (steady_utc _ _))).
Defined.

(** ** What [calculate] writes to the derived table *)

Lemma pmcLoop_results_indep (ledger : gmap Z R) (days : list day) :
  forall c a data1 data2,
    (pmcLoop ledger days c a data1).1 = (pmcLoop ledger days c a data2).1.
Proof.
  induction days as [|d days IH]; intros c a data1 data2; simpl; [reflexivity|].
  f_equal. apply IH.
Qed.

Lemma pmcLoop_data_other (ledger : gmap Z R) (days : list day) (d : day) :
  d ∉ days ->
  forall c a data, (pmcLoop ledger days c a data).2 !! d = data !! d.
Proof.
  induction days as [|d0 days IH]; intros Hd c a data; simpl; [reflexivity|].
  apply not_elem_of_cons in Hd as [Hne Hd].
  rewrite (IH Hd). apply lookup_insert_ne. congruence.
Qed.

Lemma pmcLoop_data_entry (ledger : gmap Z R) (days : list day) :
  NoDup days ->
  forall c a data (i : nat) (e : PMCEntry),
    (pmcLoop ledger days c a data).1 !! i = Some e ->
    (pmcLoop ledger days c a data).2 !! date e = Some e.
Proof.
  induction days as [|d0 days IH]; intros Hnd c a data i e Hi; [destruct i; discriminate|].
  apply NoDup_cons in Hnd as [Hd0 Hnd]. destruct i as [|i]; simpl in Hi |- *.
  - injection Hi as <-. simpl. rewrite (pmcLoop_data_other _ _ _ Hd0).
    apply lookup_insert_eq.
  - apply (IH Hnd _ _ _ _ _ Hi).
Qed.

(** A date of the range has, after the loop, an entry that does not
    depend on what the table held before. *)
Lemma pmcLoop_data_indep (ledger : gmap Z R) (days : list day) (d : day) :
  d ∈ days ->
  forall c a data1 data2,
    (pmcLoop ledger days c a data1).2 !! d = (pmcLoop ledger days c a data2).2 !! d.
Proof.
  induction days as [|d0 days IH]; intros Hd c a data1 data2; [inversion Hd|].
  cbn [pmcLoop snd].
  destruct (decide (d ∈ days)) as [Hin|Hout]; [apply (IH Hin)|].
  apply elem_of_cons in Hd as [->|Hd]; [|contradiction].
  rewrite !(pmcLoop_data_other _ _ _ Hout), !lookup_insert_eq. reflexivity.
Qed.

(** X14.  [calculate] never touches the ledger and, in any time zone,
    leaves the entries of the derived table outside the computed range as
    they were.  When no clock change of the local zone touches the range,
    every entry it returns is stored in the derived table under the entry's
    date. *)
Theorem calculate_overwrites_range (tz : zone) (st : engine)
    (startDate endDate : option day) (today earliest : day) :
  head (sortedDates (dailyTSS st)) = Some earliest ->
  let first := default earliest startDate in
  let last := default today endDate in
  let out := calculate tz startDate endDate today st in
  dailyTSS out.2 = dailyTSS st /\
  (steady tz (startOfDay first) (startOfDay last) ->
   forall (i : nat) (e : PMCEntry),
     out.1 !! i = Some e -> pmcData out.2 !! date e = Some e) /\
  (forall d : day, (d < first \/ last < d)%Z ->
     pmcData out.2 !! d = pmcData st !! d).
Proof.
  intros Hhead. cbv zeta.
  rewrite (calculate_results _ _ _ _ _ _ Hhead), (calculate_data _ _ _ _ _ _ Hhead).
  cbn [dailyTSS pmcData]. split; [reflexivity|]. split.
  - intros Hst. rewrite (generateDateRange_steady _ _ _ Hst).
    apply pmcLoop_data_entry. apply NoDup_seqZ.
  - intros d Hd. apply pmcLoop_data_other.
    intros Hin. apply generateDateRange_within in Hin. lia.
Qed.

Lemma calculate_overwrites_range_witness :
  head (sortedDates (dailyTSS (setDailyTSS 3 100 newEngine))) = Some 3%Z /\
  dailyTSS (calculate utc None (Some 5%Z) 9%Z (setDailyTSS 3 100 newEngine)).2 =
  dailyTSS (setDailyTSS 3 100 newEngine).
Proof.
  assert (head (sortedDates (dailyTSS (setDailyTSS 3 100 newEngine))) = Some 3%Z)
    as H by reflexivity.
  split; [exact H|].
  exact (proj1 (calculate_overwrites_range utc (setDailyTSS 3 100 newEngine) None
                  (Some 5%Z) 9%Z 3%Z H)).
Defined.

(** X15.  [calculate] is idempotent: calling it again with the same
    arguments returns the same entries and leaves the engine as the first
    call left it; the entries already in the derived table have no influence
    on the result. *)
Theorem calculate_idempotent (tz : zone) (st : engine)
    (startDate endDate : option day) (today : day) :
  calculate tz startDate endDate today (calculate tz startDate endDate today st).2 =
  calculate tz startDate endDate today st.
Proof.
  unfold calculate.
  destruct (sortedDates (dailyTSS st)) as [|earliest rest] eqn:Hs; cbn [fst snd dailyTSS pmcData].
  - rewrite Hs. reflexivity.
  - rewrite Hs. cbn [fst snd].
    set (days := generateDateRange tz (default earliest startDate) (default today endDate)).
    set (data' := (pmcLoop (dailyTSS st) days 0 0 (pmcData st)).2).
    rewrite (pmcLoop_results_indep (dailyTSS st) days 0 0 data' (pmcData st)).
    f_equal. f_equal. apply map_eq. intros d.
    destruct (decide (d ∈ days)) as [Hin|Hout].
    + apply (pmcLoop_data_indep _ _ _ Hin).
    + rewrite (pmcLoop_data_other _ _ _ Hout). reflexivity.
Qed.

(** ** The range starts from nothing *)

Lemma pmcLoop_ext (l1 l2 : gmap Z R) (days : list day) :
  Forall (fun d => getTSS l1 d = getTSS l2 d) days ->
  forall c a data1 data2,
    (pmcLoop l1 days c a data1).1 = (pmcLoop l2 days c a data2).1.
Proof.
  induction 1 as [|d days Hd Hdays IH]; intros c a data1 data2; simpl; [reflexivity|].
  rewrite Hd. f_equal. apply IH.
Qed.

(** X16.  The entries [calculate] returns for an explicit range depend only
    on the ledger inside that range: the accumulators start from zero at the
    first day of the range, so two non-empty ledgers that agree on the days
    of the range give the same entries, whatever load was recorded before
    the range. *)
Theorem calculate_ignores_history (tz : zone) (st1 st2 : engine)
    (first last today : day) :
  sortedDates (dailyTSS st1) <> [] ->
  sortedDates (dailyTSS st2) <> [] ->
  (forall d : day, (first <= d <= last)%Z ->
     getTSS (dailyTSS st1) d = getTSS (dailyTSS st2) d) ->
  (calculate tz (Some first) (Some last) today st1).1 =
  (calculate tz (Some first) (Some last) today st2).1.
Proof.
  intros H1 H2 Hsame. unfold calculate.
  destruct (sortedDates (dailyTSS st1)) as [|e1 r1]; [congruence|].
  destruct (sortedDates (dailyTSS st2)) as [|e2 r2]; [congruence|].
  cbn [fst snd]. simpl. apply pmcLoop_ext. apply Forall_forall. intros d Hd.
  apply generateDateRange_within in Hd. apply Hsame. exact Hd.
Qed.

Lemma calculate_ignores_history_witness :
  sortedDates (dailyTSS (setDailyTSS 3 100 newEngine)) <> [] /\
  sortedDates (dailyTSS (setDailyTSS 1 50 (setDailyTSS 3 100 newEngine))) <> [] /\
  (calculate utc (Some 3%Z) (Some 4%Z) 9%Z (setDailyTSS 3 100 newEngine)).1 =
  (calculate utc (Some 3%Z) (Some 4%Z) 9%Z
     (setDailyTSS 1 50 (setDailyTSS 3 100 newEngine))).1.
Proof.
  assert (sortedDates (dailyTSS (setDailyTSS 3 100 newEngine)) <> []) as H1.
  { assert (sortedDates (dailyTSS (setDailyTSS 3 100 newEngine)) = [3%Z]) as ->
      by reflexivity.
    discriminate. }
  assert (sortedDates (dailyTSS (setDailyTSS 1 50 (setDailyTSS 3 100 newEngine)))
          <> []) as H2.
  { assert (sortedDates (dailyTSS (setDailyTSS 1 50 (setDailyTSS 3 100 newEngine)))
            = [1%Z; 3%Z]) as -> by reflexivity.
    discriminate. }
  split; [exact H1|]. split; [exact H2|].
  apply (calculate_ignores_history utc (setDailyTSS 3 100 newEngine)
           (setDailyTSS 1 50 (setDailyTSS 3 100 newEngine)) 3%Z 4%Z 9%Z H1 H2).
  intros d Hd. unfold setDailyTSS, newEngine. cbn [dailyTSS].
  unfold getTSS. rewrite (lookup_insert_ne _ 1%Z d) by lia. reflexivity.
Defined.

(** ** Bounds on the accumulators *)

Lemma decay_unit : 0 < ctlDecay < 1 /\ 0 < atlDecay < 1.
Proof.
  unfold ctlDecay, atlDecay, CTL_DECAY, ATL_DECAY.
  repeat split; try apply exp_pos;
    rewrite <- exp_0; apply exp_increasing; lra.
Qed.

Lemma getTSS_bounds (ledger : gmap Z R) (M : R) (d : day) :
  0 <= M -> map_Forall (fun _ t => 0 <= t <= M) ledger ->
  0 <= getTSS ledger d <= M.
Proof.
  intros HM Hall. unfold getTSS. destruct (ledger !! d) as [t|] eqn:Ht; simpl.
  - exact (Hall d t Ht).
  - lra.
Qed.

Lemma fold_bounds (ledger : gmap Z R) (M : R) (days : list day) :
  0 <= M -> map_Forall (fun _ t => 0 <= t <= M) ledger ->
  forall acc : R * R,
    0 <= acc.1 <= M -> 0 <= acc.2 <= M ->
    0 <= (fold_left (foldDay ledger) days acc).1 <= M /\
    0 <= (fold_left (foldDay ledger) days acc).2 <= M.
Proof.
  intros HM Hall. destruct decay_unit as [Hc Ha].
  induction days as [|d days IH]; intros acc H1 H2; simpl; [auto|].
  pose proof (getTSS_bounds ledger M d HM Hall) as Ht.
  apply IH; unfold foldDay; cbn [fst snd]; nra.
Qed.

Lemma Int_part_mono (x y : R) : x <= y -> (Int_part x <= Int_part y)%Z.
Proof.
  intros Hxy. destruct (base_Int_part x) as [Hx1 Hx2].
  destruct (base_Int_part y) as [Hy1 Hy2].
  destruct (Z_le_gt_dec (Int_part x) (Int_part y)) as [Hle|Hgt]; [exact Hle|].
  assert (Int_part y + 1 <= Int_part x)%Z as H by lia.
  apply IZR_le in H. rewrite plus_IZR in H. lra.
Qed.

Lemma round1_mono (x y : R) : x <= y -> round1 x <= round1 y.
Proof.
  intros Hxy. unfold round1, Math_round.
  assert (Int_part (x * 10 + / 2) <= Int_part (y * 10 + / 2))%Z as H
    by (apply Int_part_mono; lra).
  apply IZR_le in H. lra.
Qed.

Lemma round1_nonneg (x : R) : 0 <= x -> 0 <= round1 x.
Proof. intros Hx. rewrite <- round1_0. apply round1_mono, Hx. Qed.

(** X17.  When every TSS in the ledger is between 0 and [M], every entry
    has [ctl] and [atl] between 0 and [M] rounded to one decimal, and [tsb]
    between [-M] and [M] rounded to one decimal: the loads are weighted
    averages of the daily values and never leave their range. *)
Theorem load_stays_within_ledger_range (tz : zone) (st : engine) (M : R)
    (startDate endDate : option day) (today : day) (i : nat) (e : PMCEntry) :
  0 <= M ->
  map_Forall (fun _ t => 0 <= t <= M) (dailyTSS st) ->
  (calculate tz startDate endDate today st).1 !! i = Some e ->
  0 <= ctl e <= round1 M /\ 0 <= atl e <= round1 M /\
  round1 (- M) <= tsb e <= round1 M.
Proof.
  intros HM Hall Hi. unfold calculate in Hi.
  destruct (sortedDates (dailyTSS st)) as [|earliest rest]; [discriminate|].
  cbn [fst snd] in Hi. apply pmcLoop_lookup in Hi as (_ & _ & -> & -> & ->).
  set (days := take i _).
  destruct (fold_bounds (dailyTSS st) M days HM Hall (0, 0)) as [Hc Ha];
    [simpl; lra | simpl; lra |].
  destruct (fold_bounds (dailyTSS st) M (days ++ [date e]) HM Hall (0, 0)) as [Hc' Ha'];
    [simpl; lra | simpl; lra |].
  rewrite fold_left_app in Hc', Ha'. cbn [fold_left] in Hc', Ha'.
  repeat split; try (apply round1_nonneg; lra); apply round1_mono; lra.
Qed.

Lemma load_stays_within_ledger_range_witness :
  0 <= 100 /\
  map_Forall (fun _ t => 0 <= t <= 100) (dailyTSS (setDailyTSS 0 100 newEngine)) /\
  exists e,
    (calculate utc None (Some 0%Z) 0%Z (setDailyTSS 0 100 newEngine)).1 !! 0%nat = Some e /\
    0 <= ctl e <= round1 100.
Proof.
  assert (0 <= 100) as HM by lra.
  assert (map_Forall (fun _ t => 0 <= t <= 100)
            (dailyTSS (setDailyTSS 0 100 newEngine))) as HF.
  { unfold setDailyTSS, newEngine. cbn [dailyTSS].
    apply map_Forall_insert_2; [lra | apply map_Forall_empty]. }
  assert (exists e,
            (calculate utc None (Some 0%Z) 0%Z (setDailyTSS 0 100 newEngine)).1 !! 0%nat
            = Some e) as [e He] by (eexists; reflexivity).
  split; [exact HM|]. split; [exact HF|]. exists e. split; [exact He|].
  exact (proj1 (load_stays_within_ledger_range utc (setDailyTSS 0 100 newEngine) 100
                  None (Some 0%Z) 0%Z 0%nat e HM HF He)).
Defined.

(** ** Rest days *)




(** ** The sorted keys *)



(** ** Filling the ledger *)

Lemma getTSS_insert (ledger : gmap Z R) (d d' : day) (t : R) :
  getTSS (<[d := t]> ledger) d' = if decide (d = d') then t else getTSS ledger d'.
Proof.
  unfold getTSS. rewrite lookup_insert. destruct (decide (d = d')); reflexivity.
Qed.

(** X19.  [addTSS] accumulates: after any sequence of [addTSS] calls the
    ledger value of a day is its value before plus the amounts added for
    that day, in call order, a day without value counting as 0; the derived
    table is not touched, so it is stale until [calculate] runs. *)
Theorem addTSS_sums_per_day (calls : list (day * R)) (st : engine) (d : day) :
  let st' := fold_left (fun st c => addTSS c.1 c.2 st) calls st in
  getTSS (dailyTSS st') d =
    fold_left Rplus (filter (fun c => c.1 = d) calls).*2 (getTSS (dailyTSS st) d) /\
  pmcData st' = pmcData st.
Proof.
  cbv zeta. revert st. induction calls as [|[d0 t0] calls IH]; intros st; [split; reflexivity|].
  cbn [fold_left fst snd]. destruct (IH (addTSS d0 t0 st)) as [-> ->].
  split; [|reflexivity]. unfold addTSS at 1. cbn [dailyTSS]. rewrite getTSS_insert.
  destruct (decide (d0 = d)) as [->|Hne].
  - rewrite filter_cons_True by reflexivity. reflexivity.
  - rewrite filter_cons_False by exact Hne. reflexivity.
Qed.

Lemma groupByDay_total (activities : list storedActivity) (d : day) :
  forall m : gmap Z R,
    getTSS (fold_left
              (fun m a => <[startDay a := getTSS m (startDay a) + default 0 (storedTSS a)]> m)
              activities m) d =
    fold_left Rplus
      ((fun a => default 0 (storedTSS a)) <$> filter (fun a => startDay a = d) activities)
      (getTSS m d).
Proof.
  induction activities as [|a activities IH]; intros m; [reflexivity|].
  cbn [fold_left]. rewrite IH, getTSS_insert.
  destruct (decide (startDay a = d)) as [<-|Hne].
  - rewrite filter_cons_True by reflexivity. reflexivity.
  - rewrite filter_cons_False by exact Hne. reflexivity.
Qed.

Lemma set_all_days (grouped : gmap Z R) (st : engine) :
  map_fold (fun d t st => setDailyTSS d t st) (clear st) grouped =
  {| dailyTSS := grouped; pmcData := ∅ |}.
Proof.
  apply (map_fold_weak_ind
           (fun r m => r = {| dailyTSS := m; pmcData := ∅ |})); [reflexivity|].
  intros d t m r _ ->. reflexivity.
Qed.

(** Whatever the table holds after the loop at a date was either there
    before or written by the loop under the entry's own date. *)
Lemma pmcLoop_data_origin (ledger : gmap Z R) (days : list day) :
  forall c a data (d : day) (e : PMCEntry),
    (pmcLoop ledger days c a data).2 !! d = Some e ->
    (d ∈ days /\ date e = d) \/ data !! d = Some e.
Proof.
  induction days as [|d0 days IH]; intros c a data d e He; [right; exact He|].
  cbn [pmcLoop snd] in He. apply IH in He as [[Hin Hdate]|He].
  - left. split; [right; exact Hin | exact Hdate].
  - destruct (decide (d0 = d)) as [->|Hne].
    + rewrite lookup_insert_eq in He. injection He as <-. left. split; [left | reflexivity].
    + rewrite lookup_insert_ne in He by exact Hne. right. exact He.
Qed.

(** X20.  [loadActivities] rebuilds the engine from the stored activities
    alone, whatever state it had: the ledger value of each day is the sum of
    the [tss] of the activities that start on that day, a missing [tss]
    counting as 0; the derived table only has entries for days up to today,
    each stored under its own date and never before the first activity.
    When some activity starts today or earlier and no clock change of the
    local zone lies between the activities and today, today has an
    entry. *)
Theorem loadActivities_rebuilds (tz : zone) (activities : list storedActivity)
    (today : day) (st : engine) :
  let st' := loadActivities tz activities today st in
  (forall d : day,
     getTSS (dailyTSS st') d =
     fold_left Rplus
       ((fun a => default 0 (storedTSS a)) <$> filter (fun a => startDay a = d) activities)
       0) /\
  (forall (d : day) (e : PMCEntry), pmcData st' !! d = Some e ->
     (d <= today)%Z /\ date e = d /\
     exists a, a ∈ activities /\ (startDay a <= d)%Z) /\
  (forall a, a ∈ activities -> (startDay a <= today)%Z ->
     (forall a', a' ∈ activities ->
        steady tz (startOfDay (startDay a')) (startOfDay today)) ->
     is_Some (pmcData st' !! today)).
Proof.
  cbv zeta. unfold loadActivities. rewrite set_all_days.
  set (grouped := groupByDay activities).
  assert (forall d, getTSS grouped d =
            fold_left Rplus
              ((fun a => default 0 (storedTSS a)) <$>
                 filter (fun a => startDay a = d) activities) 0) as Htotal.
  { intros d. unfold grouped, groupByDay. rewrite groupByDay_total. reflexivity. }
  assert (forall d, is_Some (grouped !! d) <-> exists a, a ∈ activities /\ startDay a = d)
    as Hkeys.
  { intros d. unfold grouped, groupByDay.
    assert (forall (l : list storedActivity) (m : gmap Z R),
              is_Some (fold_left
                 (fun m a => <[startDay a := getTSS m (startDay a) + default 0 (storedTSS a)]> m)
                 l m !! d) <->
              is_Some (m !! d) \/ exists a, a ∈ l /\ startDay a = d) as Hgen.
    { induction l as [|a l IH]; intros m; cbn [fold_left].
      - split; [auto|]. intros [H|(a & Ha & _)]; [exact H | inversion Ha].
      - rewrite IH, lookup_insert_is_Some'. split.
        + intros [[Heq|H]|(a' & Ha' & Hd)]; [right; exists a; split; [left | exact Heq]
            | left; exact H | right; exists a'; split; [right; exact Ha' | exact Hd]].
        + intros [H|(a' & Ha' & Hd)]; [left; right; exact H|].
          apply elem_of_cons in Ha' as [->|Ha']; [left; left; exact Hd|].
          right. exists a'. split; assumption. }
    rewrite Hgen, lookup_empty. split.
    - intros [[x Hx]|H]; [discriminate | exact H].
    - intros H. right. exact H. }
  destruct (Nat.eqb (size grouped) 0) eqn:Hsize; cbn [negb].
  - apply Nat.eqb_eq, map_size_empty_iff in Hsize. cbn [dailyTSS pmcData].
    split; [exact Htotal|]. split.
    + intros d e He. rewrite lookup_empty in He. discriminate.
    + intros a Ha _ _. assert (is_Some (grouped !! startDay a)) as [x Hx]
        by (apply Hkeys; eauto).
      rewrite Hsize, lookup_empty in Hx. discriminate.
  - apply Nat.eqb_neq, map_size_non_empty_iff in Hsize.
    destruct (sortedDates grouped) as [|earliest rest] eqn:Hs.
    { apply sortedKeys_nil in Hs. contradiction. }
    assert (head (sortedDates grouped) = Some earliest) as Hhead by (rewrite Hs; reflexivity).
    destruct (head_sortedKeys grouped earliest) as [Hin Hmin].
    { unfold sortedDates in Hs. rewrite Hs. reflexivity. }
    unfold calculate. cbn [dailyTSS pmcData]. rewrite Hs. cbn [head fst snd dailyTSS pmcData].
    simpl default. split; [exact Htotal|]. split.
    + intros d e He. apply pmcLoop_data_origin in He as [[Hd Hdate]|He].
      * apply generateDateRange_within in Hd.
        split; [lia|]. split; [exact Hdate|].
        apply Hkeys in Hin as (a & Ha & Hday'). exists a. split; [exact Ha | lia].
      * rewrite lookup_empty in He. discriminate.
    + intros a Ha Hday Hst.
      assert (earliest <= startDay a)%Z as Hle by (apply Hmin, Hkeys; eauto).
      assert (steady tz (startOfDay earliest) (startOfDay today)) as Hsteady.
      { apply Hkeys in Hin as (a0 & Ha0 & <-). apply Hst, Ha0. }
      rewrite (generateDateRange_steady _ _ _ Hsteady).
      assert (today ∈ seqZ earliest (today - earliest + 1)) as Hd.
      { apply elem_of_seqZ. lia. }
      apply list_elem_of_lookup in Hd as [i Hi].
      destruct (lookup_lt_is_Some_2
                  (pmcLoop grouped (seqZ earliest (today - earliest + 1)) 0 0 ∅).1 i)
        as [e' He'].
      { rewrite pmcLoop_length. eapply lookup_lt_Some, Hi. }
      pose proof (pmcLoop_lookup _ _ _ _ _ _ _ He') as (Hday' & _).
      assert (date e' = today) as Hdate by congruence.
      pose proof (pmcLoop_data_entry grouped (seqZ earliest (today - earliest + 1))
                    (NoDup_seqZ _ _) 0 0 ∅ i e' He') as Hentry.
      rewrite Hdate in Hentry. eauto.
Qed.

(** ** The current values *)

Lemma size_eqb_0 {A} (m : gmap Z A) : Nat.eqb (size m) 0 = true <-> m = ∅.
Proof. rewrite Nat.eqb_eq. apply map_size_empty_iff. Qed.

(** X21.  [getCurrentPMC] recomputes only when the derived table is empty.
    With a non-empty table it leaves the engine as it is and its answer does
    not depend on the ledger: a TSS added or set after the last [calculate]
    is not reflected until [calculate] runs again. *)
Theorem getCurrentPMC_never_refreshes (tz : zone) (today : day) (st : engine) :
  pmcData st <> ∅ ->
  (getCurrentPMC tz today st).2 = st /\
  forall (d : day) (t : R),
    (getCurrentPMC tz today (addTSS d t st)).1 = (getCurrentPMC tz today st).1 /\
    (getCurrentPMC tz today (setDailyTSS d t st)).1 = (getCurrentPMC tz today st).1.
Proof.
  intros Hne.
  assert (Nat.eqb (size (pmcData st)) 0 = false) as Hsize.
  { destruct (Nat.eqb (size (pmcData st)) 0) eqn:E; [|reflexivity].
    apply size_eqb_0 in E. contradiction. }
  unfold getCurrentPMC. cbn [addTSS setDailyTSS pmcData]. rewrite Hsize.
  cbn [andb negb snd fst]. split; [reflexivity|].
  intros d t. split; reflexivity.
Qed.

Lemma getCurrentPMC_never_refreshes_witness :
  pmcData
    {| dailyTSS := <[4%Z := 80]> ∅;
       pmcData :=
         <[5%Z := {| date := 5; tss := 0; ctl := 1.9; atl := 9.3; tsb := -8.8 |}]>
           (<[4%Z := {| date := 4; tss := 80; ctl := 1.9; atl := 10.7; tsb := 0 |}]> ∅)
    |} <> ∅ /\
  (getCurrentPMC utc 5
     (addTSS 5 60
        {| dailyTSS := <[4%Z := 80]> ∅;
           pmcData :=
             <[5%Z := {| date := 5; tss := 0; ctl := 1.9; atl := 9.3; tsb := -8.8 |}]>
               (<[4%Z := {| date := 4; tss := 80; ctl := 1.9; atl := 10.7; tsb := 0 |}]> ∅)
        |})).1 =
  (getCurrentPMC utc 5
     {| dailyTSS := <[4%Z := 80]> ∅;
        pmcData :=
          <[5%Z := {| date := 5; tss := 0; ctl := 1.9; atl := 9.3; tsb := -8.8 |}]>
            (<[4%Z := {| date := 4; tss := 80; ctl := 1.9; atl := 10.7; tsb := 0 |}]> ∅)
     |}).1.
Proof.
  assert (pmcData
            {| dailyTSS := <[4%Z := 80]> ∅;
               pmcData :=
                 <[5%Z := {| date := 5; tss := 0; ctl := 1.9; atl := 9.3; tsb := -8.8 |}]>
                   (<[4%Z := {| date := 4; tss := 80; ctl := 1.9; atl := 10.7; tsb := 0 |}]> ∅)
            |} <> ∅) as H by apply insert_non_empty.
  split; [exact H|].
  exact (proj1 (proj2 (getCurrentPMC_never_refreshes utc 5%Z _ H) 5%Z 60)).
Defined.

(** X22.  With an empty derived table, [getCurrentPMC] answers all zeros
    and leaves the engine unchanged when the ledger is empty and when every
    ledger day is after today. *)
Theorem getCurrentPMC_zero_default (tz : zone) (today : day) (st : engine) :
  pmcData st = ∅ ->
  (dailyTSS st = ∅ \/
   forall d : day, is_Some (dailyTSS st !! d) -> (today < d)%Z) ->
  getCurrentPMC tz today st =
  ({| cur_ctl := 0; cur_atl := 0; cur_tsb := 0; rampRate := 0 |}, st).
Proof.
  intros Hdata Hledger. unfold getCurrentPMC.
  assert ((if Nat.eqb (size (pmcData st)) 0 && negb (Nat.eqb (size (dailyTSS st)) 0)
           then (calculate tz (head (sortedDates (dailyTSS st))) (Some today) today st).2
           else st) = st) as Hst.
  { destruct (Nat.eqb (size (pmcData st)) 0 && negb (Nat.eqb (size (dailyTSS st)) 0))
      eqn:Hcond; [|reflexivity].
    apply andb_true_iff in Hcond as [_ Hsize]. apply negb_true_iff in Hsize.
    destruct Hledger as [Hempty|Hfuture].
    { rewrite Hempty, map_size_empty in Hsize. discriminate. }
    apply Nat.eqb_neq, map_size_non_empty_iff in Hsize.
    destruct (sortedDates (dailyTSS st)) as [|earliest rest] eqn:Hs.
    { apply sortedKeys_nil in Hs. contradiction. }
    destruct (head_sortedKeys (dailyTSS st) earliest) as [Hin _].
    { unfold sortedDates in Hs. rewrite Hs. reflexivity. }
    apply Hfuture in Hin.
    unfold calculate. rewrite Hs. simpl default.
    rewrite generateDateRange_empty by lia. simpl. destruct st; reflexivity. }
  cbv zeta. rewrite Hst. unfold calculateRampRate.
  rewrite Hdata, lookup_empty, map_size_empty. reflexivity.
Qed.

Lemma getCurrentPMC_zero_default_witness :
  pmcData newEngine = ∅ /\
  getCurrentPMC utc 0 newEngine =
  ({| cur_ctl := 0; cur_atl := 0; cur_tsb := 0; rampRate := 0 |}, newEngine).
Proof.
  split; [reflexivity|].
  exact (getCurrentPMC_zero_default utc 0%Z newEngine eq_refl (or_introl eq_refl)).
Defined.




(** X24.  When the derived table has entries but none for today,
    [getCurrentPMC] answers with the entry of the latest day in the table
    and a ramp rate of 0. *)
Theorem getCurrentPMC_latest_entry (tz : zone) (today : day) (st : engine) :
  pmcData st <> ∅ ->
  pmcData st !! today = None ->
  exists (d : day) (p : PMCEntry),
    pmcData st !! d = Some p /\
    (forall d', is_Some (pmcData st !! d') -> (d' <= d)%Z) /\
    (getCurrentPMC tz today st).1 =
      {| cur_ctl := ctl p; cur_atl := atl p; cur_tsb := tsb p; rampRate := 0 |}.
Proof.
  intros Hne Htoday.
  assert (Nat.eqb (size (pmcData st)) 0 = false) as Hsize.
  { destruct (Nat.eqb (size (pmcData st)) 0) eqn:E; [|reflexivity].
    apply size_eqb_0 in E. contradiction. }
  destruct (last_sortedKeys_Some (pmcData st) Hne) as [d Hlast].
  destruct (last_sortedKeys (pmcData st) d Hlast) as [[p Hp] Hmax].
  exists d, p. split; [exact Hp|]. split; [exact Hmax|].
  unfold getCurrentPMC. rewrite Hsize. cbn [andb negb fst]. rewrite Htoday.
  unfold sortedEntryDates. rewrite Hlast. cbn [mbind option_bind]. rewrite Hp.
  unfold calculateRampRate. rewrite Htoday, Hsize. reflexivity.
Qed.

Lemma getCurrentPMC_latest_entry_witness :
  pmcData
    {| dailyTSS := <[4%Z := 80]> ∅;
       pmcData :=
         <[5%Z := {| date := 5; tss := 0; ctl := 1.9; atl := 9.3; tsb := -8.8 |}]>
           (<[4%Z := {| date := 4; tss := 80; ctl := 1.9; atl := 10.7; tsb := 0 |}]> ∅)
    |} <> ∅ /\
  pmcData
    {| dailyTSS := <[4%Z := 80]> ∅;
       pmcData :=
         <[5%Z := {| date := 5; tss := 0; ctl := 1.9; atl := 9.3; tsb := -8.8 |}]>
           (<[4%Z := {| date := 4; tss := 80; ctl := 1.9; atl := 10.7; tsb := 0 |}]> ∅)
    |} !! 9%Z = None /\
  exists (d : day) (p : PMCEntry),
    (forall d',
       is_Some
         (pmcData
            {| dailyTSS := <[4%Z := 80]> ∅;
               pmcData :=
                 <[5%Z := {| date := 5; tss := 0; ctl := 1.9; atl := 9.3; tsb := -8.8 |}]>
                   (<[4%Z := {| date := 4; tss := 80; ctl := 1.9; atl := 10.7; tsb := 0 |}]> ∅)
            |} !! d') -> (d' <= d)%Z) /\
    (getCurrentPMC utc 9
       {| dailyTSS := <[4%Z := 80]> ∅;
          pmcData :=
            <[5%Z := {| date := 5; tss := 0; ctl := 1.9; atl := 9.3; tsb := -8.8 |}]>
              (<[4%Z := {| date := 4; tss := 80; ctl := 1.9; atl := 10.7; tsb := 0 |}]> ∅)
       |}).1 =
      {| cur_ctl := ctl p; cur_atl := atl p; cur_tsb := tsb p; rampRate := 0 |}.
Proof.
  assert (pmcData
            {| dailyTSS := <[4%Z := 80]> ∅;
               pmcData :=
                 <[5%Z := {| date := 5; tss := 0; ctl := 1.9; atl := 9.3; tsb := -8.8 |}]>
                   (<[4%Z := {| date := 4; tss := 80; ctl := 1.9; atl := 10.7; tsb := 0 |}]> ∅)
            |} <> ∅) as H by apply insert_non_empty.
  assert (pmcData
            {| dailyTSS := <[4%Z := 80]> ∅;
               pmcData :=
                 <[5%Z := {| date := 5; tss := 0; ctl := 1.9; atl := 9.3; tsb := -8.8 |}]>
                   (<[4%Z := {| date := 4; tss := 80; ctl := 1.9; atl := 10.7; tsb := 0 |}]> ∅)
            |} !! 9%Z = None) as Hnone by reflexivity.
  split; [exact H|]. split; [exact Hnone|].
  destruct (getCurrentPMC_latest_entry utc 9%Z _ H Hnone) as (d & p & _ & Hmax & Hcur).
  exists d, p. split; [exact Hmax | exact Hcur].
Defined.

(** ** The days of a range *)

(** X30.  The days that [generateDateRange] produces, in any time zone:
    all of them lie between the start day and the end day, the first one
    is the start day, there is none when the end is before the start and
    exactly one when both are the same day.  When no clock change touches
    the range they are the days from start to end, each once.  Across a
    clock change they are not: in Europe/Rome the range from 30 March to
    2 April 2024 has 31 March twice and no 2 April, and the range from
    26 to 29 October 2024 stops at the 28th. *)
Theorem generateDateRange_days (tz : zone) (startDate endDate : day) :
  (forall d, d ∈ generateDateRange tz startDate endDate ->
     (startDate <= d <= endDate)%Z) /\
  ((startDate <= endDate)%Z ->
   head (generateDateRange tz startDate endDate) = Some startDate) /\
  ((endDate < startDate)%Z -> generateDateRange tz startDate endDate = []) /\
  generateDateRange tz startDate startDate = [startDate] /\
  (steady tz (startOfDay startDate) (startOfDay endDate) ->
   generateDateRange tz startDate endDate =
   seqZ startDate (endDate - startDate + 1)) /\
  generateDateRange europeRome2024 19812 19815 = [19812; 19813; 19813; 19814]%Z /\
  generateDateRange europeRome2024 20022 20025 = [20022; 20023; 20024]%Z.
Proof.
  split; [intros d; apply generateDateRange_within|].
  split; [apply generateDateRange_head|].
  split; [apply generateDateRange_empty|].
  split; [apply generateDateRange_one|].
  split; [apply generateDateRange_steady|].
  split; [apply rome_spring_2024 | apply rome_autumn_2024].
Qed.

(** ** Classifications *)

(** X25.  The bands of [getTSBStatus]: 'good' above 5, 'normal' from -10
    to 5 both included, 'tired' below -10. *)
Theorem getTSBStatus_bands (tsb : R) :
  (status (getTSBStatus tsb) = "good"%string <-> 5 < tsb) /\
  (status (getTSBStatus tsb) = "normal"%string <-> -10 <= tsb <= 5) /\
  (status (getTSBStatus tsb) = "tired"%string <-> tsb < -10).
Proof.
  unfold getTSBStatus.
  destruct (Rgt_dec tsb 5) as [H1|H1]; [|destruct (Rge_dec tsb (-10)) as [H2|H2]];
    cbn [status]; repeat split; intros; try discriminate; try reflexivity; lra.
Qed.

(** X26.  The bands of [getRampRateStatus]: 'warning' above 10, 'good' from
    3 to 8 both included, 'recovery' below 0, and 'normal' for the rest,
    which is two separate bands: from 0 up to 3, and above 8 up to 10. *)
Theorem getRampRateStatus_bands (r : R) :
  (status (getRampRateStatus r) = "warning"%string <-> 10 < r) /\
  (status (getRampRateStatus r) = "good"%string <-> 3 <= r <= 8) /\
  (status (getRampRateStatus r) = "normal"%string <-> 0 <= r < 3 \/ 8 < r <= 10) /\
  (status (getRampRateStatus r) = "recovery"%string <-> r < 0).
Proof.
  unfold getRampRateStatus.
  destruct (Rgt_dec r 10) as [H1|H1];
    [|destruct (Rge_dec r 3) as [H2|H2];
      [destruct (Rle_dec r 8) as [H3|H3]|destruct (Rge_dec r 0) as [H3|H3]]];
    cbn [status]; repeat split; intros; try discriminate; try reflexivity; lra.
Qed.

(** ** The history for the chart *)

Lemma startOfDay_dayOf (t : Z) : (startOfDay (dayOf t) <= t)%Z.
Proof.
  unfold startOfDay, dayOf. rewrite Z.mul_comm.
  apply Z.mul_div_le. reflexivity.
Qed.

(** When no clock change touches the steps, the loop visits the [n] days
    from the day of [current] on, and collects the entries the table has
    for them. *)
Lemma historyLoop_collect (tz : zone) (data : gmap Z PMCEntry) (endDate : Z) :
  forall (fuel : nat) (current : Z) (results : list PMCEntry) (n : Z),
    (0 <= n)%Z -> (Z.to_nat n <= fuel)%nat ->
    (n = 0 \/ current + (n - 1) * MS_PER_DAY <= endDate)%Z ->
    (endDate < current + n * MS_PER_DAY)%Z ->
    steady tz current endDate ->
    historyLoop fuel tz data current endDate results =
    Some (results ++ omap (fun d => data !! d) (seqZ (dayOf current) n)).
Proof.
  assert (0 < MS_PER_DAY)%Z as HD by reflexivity.
  induction fuel as [|fuel IH]; intros current results n Hn Hfuel Hlast Hend Hst.
  - assert (n = 0)%Z as -> by lia. cbn [historyLoop].
    destruct (current <=? endDate)%Z eqn:E; [apply Z.leb_le in E; lia|].
    rewrite app_nil_r. reflexivity.
  - cbn [historyLoop]. destruct (current <=? endDate)%Z eqn:E;
      [apply Z.leb_le in E | apply Z.leb_gt in E].
    + assert (0 < n)%Z as Hpos by nia.
      rewrite (Hst current) by lia.
      rewrite (IH _ _ (n - 1)%Z) by
        (try lia; try nia; intros t Ht; apply Hst; lia).
      rewrite (seqZ_cons (dayOf current) n Hpos), dayOf_next. cbn [omap list_omap].
      replace (Z.succ (dayOf current)) with (dayOf current + 1)%Z by lia.
      replace (Z.pred n) with (n - 1)%Z by lia.
      destruct (data !! dayOf current) as [pmc|]; [|reflexivity].
      rewrite <- app_assoc. reflexivity.
    + assert (n = 0)%Z as -> by nia. rewrite app_nil_r. reflexivity.
Qed.

Lemma omap_id_on {A B} (f : A -> B) (g : B -> option A) (l : list A) :
  (forall x, x ∈ l -> g (f x) = Some x) -> omap g (f <$> l) = l.
Proof.
  induction l as [|x l IH]; intros H; [reflexivity|].
  cbn [fmap list_fmap omap list_omap]. rewrite (H x) by left.
  f_equal. apply IH. intros y Hy. apply H. right. exact Hy.
Qed.

(** Reading the table back over the first days of the range gives the first
    entries computed. *)
Lemma pmcLoop_read_back (ledger : gmap Z R) (first len : Z) (data : gmap Z PMCEntry)
    (n : Z) :
  (0 <= n <= len)%Z ->
  omap (fun d => (pmcLoop ledger (seqZ first len) 0 0 data).2 !! d) (seqZ first n) =
  take (Z.to_nat n) (pmcLoop ledger (seqZ first len) 0 0 data).1.
Proof.
  intros Hn.
  assert (seqZ first n = date <$> take (Z.to_nat n)
            (pmcLoop ledger (seqZ first len) 0 0 data).1) as ->.
  { rewrite fmap_take, pmcLoop_dates.
    replace len with (n + (len - n))%Z at 1 by lia.
    rewrite seqZ_app by lia. symmetry. apply take_app_length'.
    rewrite length_seqZ. reflexivity. }
  apply omap_id_on. intros e He.
  apply subseteq_take in He. apply list_elem_of_lookup in He as [i Hi].
  apply (pmcLoop_data_entry _ _ (NoDup_seqZ _ _) _ _ _ _ _ Hi).
Qed.

Lemma elapsed_days (s t : Z) : ((t - s) / MS_PER_DAY <= dayOf t - dayOf s)%Z.
Proof.
  unfold dayOf. assert (0 < MS_PER_DAY)%Z as HD by reflexivity.
  pose proof (Z.div_mod t MS_PER_DAY ltac:(lia)) as Ht.
  pose proof (Z.div_mod s MS_PER_DAY ltac:(lia)) as Hs.
  pose proof (Z.mod_pos_bound t MS_PER_DAY HD) as Ht'.
  pose proof (Z.mod_pos_bound s MS_PER_DAY HD) as Hs'.
  apply Z.lt_succ_r. apply Z.div_lt_upper_bound; [exact HD|]. nia.
Qed.

(** X27.  [getHistory(days)] recomputes the table from the day of
    [startDate] to the day of [endDate] and then reads it back, one day per
    step, while [current <= endDate].  When no clock change of the local
    zone touches the steps taken from the start of the first day to
    [endDate], so that a local day is 24 hours, on a non-empty ledger it
    returns the first entries of that computation, as many as there are
    whole days between the two time values, plus one.  When both clock
    readings are the same instant these are all [days + 1] entries; when
    the clock has advanced between [new Date()] and [Date.now()] without
    changing the day, the last step is after [endDate] and today's entry is
    left out. *)
Theorem getHistory_window (tz : zone) (days clock1 clock2 : Z) (st : engine)
    (earliest : day) :
  head (sortedDates (dailyTSS st)) = Some earliest ->
  steady tz (startOfDay (dayOf (clock2 - days * MS_PER_DAY))) clock1 ->
  let startDate := (clock2 - days * MS_PER_DAY)%Z in
  let computed :=
    calculate tz (Some (dayOf startDate)) (Some (dayOf clock1)) (dayOf clock1) st in
  let history := getHistory tz days clock1 clock2 st in
  history.2 = computed.2 /\
  history.1 =
    Some (take (Z.to_nat ((clock1 - startDate) / MS_PER_DAY + 1)) computed.1) /\
  ((0 <= days)%Z -> clock2 = clock1 ->
   history.1 = Some computed.1 /\ length computed.1 = Z.to_nat (days + 1)) /\
  ((1 <= days)%Z -> (clock1 < clock2)%Z -> dayOf clock2 = dayOf clock1 ->
   history.1 = Some (take (Z.to_nat days) computed.1) /\
   length computed.1 = Z.to_nat (days + 1)).
Proof.
  intros Hhead Hst. cbv zeta.
  assert (0 < MS_PER_DAY)%Z as HD by reflexivity.
  set (startDate := (clock2 - days * MS_PER_DAY)%Z) in *.
  pose proof (startOfDay_dayOf startDate) as Hs0.
  pose proof (startOfDay_dayOf clock1) as Hs1.
  assert (generateDateRange tz (dayOf startDate) (dayOf clock1) =
          seqZ (dayOf startDate) (dayOf clock1 - dayOf startDate + 1)) as Hrange.
  { apply generateDateRange_steady. intros t Ht. apply Hst. lia. }
  assert ((getHistory tz days clock1 clock2 st).1 =
          Some (take (Z.to_nat ((clock1 - startDate) / MS_PER_DAY + 1))
                  (calculate tz (Some (dayOf startDate)) (Some (dayOf clock1))
                     (dayOf clock1) st).1)) as Hhist.
  { unfold getHistory. fold startDate. cbn [fst].
    rewrite (calculate_data _ _ _ _ _ _ Hhead), (calculate_results _ _ _ _ _ _ Hhead).
    cbn [pmcData default]. unfold Datatypes.id. rewrite Hrange.
    set (n := ((clock1 - startDate) / MS_PER_DAY + 1)%Z).
    pose proof (elapsed_days startDate clock1) as Hel.
    destruct (Z_le_gt_dec startDate clock1) as [Hle|Hgt].
    - assert (0 <= (clock1 - startDate) / MS_PER_DAY)%Z as Hq
        by (apply Z.div_pos; lia).
      pose proof (Z.div_mod (clock1 - startDate) MS_PER_DAY ltac:(lia)) as Hdm.
      pose proof (Z.mod_pos_bound (clock1 - startDate) MS_PER_DAY HD) as Hmod.
      rewrite (historyLoop_collect _ _ _ _ _ _ n) by
        (try (unfold n; lia); try (unfold n; nia); intros t Ht; apply Hst; lia).
      cbn [app]. f_equal. apply pmcLoop_read_back. unfold n. lia.
    - assert ((clock1 - startDate) / MS_PER_DAY < 0)%Z as Hq
        by (apply Z.div_lt_upper_bound; lia).
      replace (Z.to_nat n) with 0%nat by (unfold n; lia).
      rewrite (historyLoop_collect _ _ _ _ _ _ 0%Z) by
        (try lia; intros t Ht; apply Hst; lia).
      reflexivity. }
  assert (length (calculate tz (Some (dayOf startDate)) (Some (dayOf clock1))
                    (dayOf clock1) st).1 =
          Z.to_nat (dayOf clock1 - dayOf startDate + 1)) as Hlen.
  { rewrite (calculate_results _ _ _ _ _ _ Hhead).
    rewrite pmcLoop_length. cbn [default]. unfold Datatypes.id. rewrite Hrange.
    apply length_seqZ. }
  split; [reflexivity|]. split; [exact Hhist|]. split.
  - intros Hdays Heq.
    assert (dayOf startDate = dayOf clock1 - days)%Z as Hd0.
    { unfold startDate. rewrite Heq.
      replace (clock1 - days * MS_PER_DAY)%Z
        with (clock1 + (- days) * MS_PER_DAY)%Z by lia.
      rewrite dayOf_shift. lia. }
    assert ((clock1 - startDate) / MS_PER_DAY = days)%Z as Hq.
    { unfold startDate. rewrite Heq.
      replace (clock1 - (clock1 - days * MS_PER_DAY))%Z
        with (days * MS_PER_DAY)%Z by lia.
      apply Z.div_mul. lia. }
    rewrite Hhist, Hlen, Hq. split; [|f_equal; lia].
    f_equal. apply take_ge. rewrite Hlen. lia.
  - intros Hdays Hlt Hday.
    assert (dayOf startDate = dayOf clock1 - days)%Z as Hd0.
    { unfold startDate.
      replace (clock2 - days * MS_PER_DAY)%Z
        with (clock2 + (- days) * MS_PER_DAY)%Z by lia.
      rewrite dayOf_shift, Hday. lia. }
    rewrite Hhist, Hlen. split; [|f_equal; lia].
    do 2 f_equal.
    assert (clock2 - clock1 < MS_PER_DAY)%Z as Hgap.
    { unfold dayOf in Hday.
      pose proof (Z.div_mod clock1 MS_PER_DAY ltac:(lia)) as H1.
      pose proof (Z.div_mod clock2 MS_PER_DAY ltac:(lia)) as H2.
      pose proof (Z.mod_pos_bound clock1 MS_PER_DAY HD).
      pose proof (Z.mod_pos_bound clock2 MS_PER_DAY HD). nia. }
    unfold startDate.
    replace (clock1 - (clock2 - days * MS_PER_DAY))%Z
      with ((MS_PER_DAY - (clock2 - clock1)) + (days - 1) * MS_PER_DAY)%Z by lia.
    rewrite Z.div_add by lia. rewrite Z.div_small by lia. lia.
Qed.

Lemma getHistory_window_witness :
  head (sortedDates (dailyTSS (setDailyTSS 0 100 newEngine))) = Some 0%Z /\
  steady utc (startOfDay (dayOf (MS_PER_DAY + 6 - 1 * MS_PER_DAY))) (MS_PER_DAY + 5) /\
  (getHistory utc 1 (MS_PER_DAY + 5) (MS_PER_DAY + 6) (setDailyTSS 0 100 newEngine)).1 =
  Some (take 1
          (calculate utc (Some 0%Z) (Some 1%Z) 1%Z (setDailyTSS 0 100 newEngine)).1).
Proof.
  assert (head (sortedDates (dailyTSS (setDailyTSS 0 100 newEngine))) = Some 0%Z)
    as H by reflexivity.
  split; [exact H|]. split; [apply steady_utc|].
  exact (proj1 (proj2 (getHistory_window utc 1 (MS_PER_DAY + 5) (MS_PER_DAY + 6)
                         (setDailyTSS 0 100 newEngine) 0%Z H (steady_utc _ _)))).
Defined.

End PMCMore.
